(** * The notebook autograder [grade_homework.py], embedded and verified

    The grader is a linear pipeline: load the code cells of a notebook, run
    them in a subprocess under a timeout, search the captured output for the
    labelled drag coefficient, score its relative error against the optimum,
    and print one JSON report.

    Conventions of the embedding.
    - A Python [str] is a [string]; a character is a code point below 256
      (the Latin-1 range), with Python's own whitespace and case tables for
      that range.
    - A Python [float] is a primitive binary64 [float]: [+], [-], [*], [/],
      [abs] and the comparisons are the IEEE operations Python uses. The
      decimal conversions ([float(str)], [round(x, 2)], the [.6f], [.2%] and
      [repr] renderings) are computed exactly over integers and rounded once.
      Facts about all floats are proved from the specification of the
      operations in [SpecFloat].
    - The file system and the subprocess are a [world] the pipeline queries.
    - [None] is [None]; an exception a handler catches is the handler's
      branch. *)

From Stdlib Require Import ZArith NArith List Bool Ascii String Lia.
From Stdlib Require Import Floats.
From Stdlib Require Uint63.
Import ListNotations.

Set Warnings "-inexact-float,-register-all".

Local Open Scope string_scope.

(** ** Characters *)

Module Char.

Definition code (c : ascii) : N := N_of_ascii c.

Definition between (lo hi n : N) : bool := (lo <=? n)%N && (n <=? hi)%N.

(** [str.isspace] on one code point, which is also the regular
    expression category [\s] of a [str] pattern: TAB..CR, FS..US, SPACE,
    NEL and NBSP are the whitespace code points below 256. *)
Definition is_space (c : ascii) : bool :=
  let n := code c in
  between 9 13 n || between 28 32 n || (n =? 133)%N || (n =? 160)%N.

Definition is_digit (c : ascii) : bool := between 48 57 (code c).

(** Simple lower-case mapping of a code point below 256. *)
Definition lower (c : ascii) : ascii :=
  let n := code c in
  if between 65 90 n || (between 192 222 n && negb (n =? 215)%N)
  then ascii_of_N (n + 32) else c.

(** Simple upper-case mapping, where the result is again below 256. *)
Definition upper (c : ascii) : ascii :=
  let n := code c in
  if between 97 122 n || (between 224 254 n && negb (n =? 247)%N)
  then ascii_of_N (n - 32) else c.

End Char.

(** ** Strings *)

Module Str.

Fixpoint all (p : ascii -> bool) (s : string) : bool :=
  match s with
  | EmptyString => true
  | String c s' => p c && all p s'
  end.

Fixpoint any (p : ascii -> bool) (s : string) : bool :=
  match s with
  | EmptyString => false
  | String c s' => p c || any p s'
  end.

Fixpoint take_while (p : ascii -> bool) (s : string) : string :=
  match s with
  | EmptyString => EmptyString
  | String c s' => if p c then String c (take_while p s') else EmptyString
  end.

Fixpoint drop_while (p : ascii -> bool) (s : string) : string :=
  match s with
  | EmptyString => EmptyString
  | String c s' => if p c then drop_while p s' else s
  end.

Fixpoint rev_onto (s acc : string) : string :=
  match s with
  | EmptyString => acc
  | String c s' => rev_onto s' (String c acc)
  end.

Definition rev (s : string) : string := rev_onto s EmptyString.

Definition is_empty (s : string) : bool :=
  match s with EmptyString => true | String _ _ => false end.

(** [s.lstrip()], [s.rstrip()], [s.strip()] with no argument. *)
Definition lstrip (s : string) : string := drop_while Char.is_space s.
Definition rstrip (s : string) : string := rev (lstrip (rev s)).
Definition strip (s : string) : string := rstrip (lstrip s).

Fixpoint count (p : ascii -> bool) (s : string) : nat :=
  match s with
  | EmptyString => 0
  | String c s' => (if p c then 1 else 0) + count p s'
  end.

Fixpoint repeat (c : ascii) (n : nat) : string :=
  match n with
  | O => EmptyString
  | S n' => String c (repeat c n')
  end.

Fixpoint take (n : nat) (s : string) : string :=
  match n, s with
  | S n', String c s' => String c (take n' s')
  | _, _ => EmptyString
  end.

Fixpoint drop (n : nat) (s : string) : string :=
  match n, s with
  | S n', String _ s' => drop n' s'
  | _, _ => s
  end.

End Str.

(** ** Regular expressions: the fragment of [re] the grader uses

    A pattern is a sequence of nodes: one character from a set, a greedy
    [*] or [+] over a set, and the two ends of capture group 1.  The matcher
    backtracks the way [re] does: a greedy repetition takes as many
    characters as it can and gives them back one at a time while the rest
    of the pattern fails. *)

Module Re.

Inductive cset : Type :=
| Lit (c : ascii)                       (* a literal character *)
| Space                                 (* \s *)
| Class (ranges : list (ascii * ascii)) (* [a-b...], a single c is c-c *).

Inductive node : Type :=
| One (cs : cset)
| Star (cs : cset)
| Plus (cs : cset)
| GroupOpen
| GroupClose.

Definition pattern := list node.

Definition in_ranges (rs : list (ascii * ascii)) (c : ascii) : bool :=
  existsb (fun r => Char.between (Char.code (fst r)) (Char.code (snd r)) (Char.code c)) rs.

(** Does character [c] belong to the set?  Under IGNORECASE a literal
    matches when the lower-cased characters agree, and a class matches
    when it holds the character in either case. *)
Definition cset_match (ignorecase : bool) (cs : cset) (c : ascii) : bool :=
  match cs with
  | Lit l =>
      if ignorecase then Ascii.eqb (Char.lower c) (Char.lower l) else Ascii.eqb c l
  | Space => Char.is_space c
  | Class rs =>
      if ignorecase
      then in_ranges rs c || in_ranges rs (Char.lower c) || in_ranges rs (Char.upper c)
      else in_ranges rs c
  end.

(** Where capture group 1 opened and closed, as the text that was still to
    be read at that point. *)
Record marks : Type := { g_open : option string; g_close : option string }.

Definition no_marks : marks := {| g_open := None; g_close := None |}.

(** Greedy repetition: consume while [test] holds, then try the
    continuation, backing off one character at a time. *)
Fixpoint greedy {R : Type} (test : ascii -> bool) (cont : string -> option R)
    (s : string) : option R :=
  match s with
  | String c s' =>
      if test c
      then match greedy test cont s' with
           | Some r => Some r
           | None => cont s
           end
      else cont s
  | EmptyString => cont s
  end.

(** Match [p] at the start of [s]; the result is the marks and the text
    left after the match. *)
Fixpoint rmatch (ic : bool) (p : pattern) (s : string) (m : marks)
    : option (marks * string) :=
  match p with
  | [] => Some (m, s)
  | One cs :: k =>
      match s with
      | String c s' => if cset_match ic cs c then rmatch ic k s' m else None
      | EmptyString => None
      end
  | Star cs :: k => greedy (cset_match ic cs) (fun r => rmatch ic k r m) s
  | Plus cs :: k =>
      match s with
      | String c s' =>
          if cset_match ic cs c
          then greedy (cset_match ic cs) (fun r => rmatch ic k r m) s'
          else None
      | EmptyString => None
      end
  | GroupOpen :: k => rmatch ic k s {| g_open := Some s; g_close := g_close m |}
  | GroupClose :: k => rmatch ic k s {| g_open := g_open m; g_close := Some s |}
  end.

(** A match object: the text of group 1 (when the group took part) and the
    text after the whole match. *)
Record match_object : Type := { group1 : option string; after : string }.

Definition captured (m : marks) : option string :=
  match g_open m, g_close m with
  | Some o, Some c => Some (Str.take (String.length o - String.length c) o)
  | _, _ => None
  end.

Definition match_at (ic : bool) (p : pattern) (s : string) : option match_object :=
  match rmatch ic p s no_marks with
  | Some (m, r) => Some {| group1 := captured m; after := r |}
  | None => None
  end.

(** [re.search]: the match at the leftmost position that has one. *)
Fixpoint search (ic : bool) (p : pattern) (s : string) : option match_object :=
  match match_at ic p s with
  | Some m => Some m
  | None =>
      match s with
      | String _ s' => search ic p s'
      | EmptyString => None
      end
  end.

Fixpoint literal (s : string) : pattern :=
  match s with
  | EmptyString => []
  | String c s' => One (Lit c) :: literal s'
  end.

End Re.

(** The pattern of [grade_result], used with [re.IGNORECASE]: the label
    with its parentheses and colon as literals, then [\s*], then the group
    [([0-9.]+)]. *)
Definition LABEL : string := "Minimum Drag Coefficient (Cd):".

Definition NUMCLASS : Re.cset := Re.Class [("0"%char, "9"%char); ("."%char, "."%char)].

Definition CD_PATTERN : Re.pattern :=
  (Re.literal LABEL
     ++ [Re.Star Re.Space; Re.GroupOpen; Re.Plus NUMCLASS; Re.GroupClose])%list.

Definition cd_search (output : string) : option Re.match_object :=
  Re.search true CD_PATTERN output.

(** ** Python's numbers

    The arithmetic of [float] is the hardware's; what Python adds are the
    conversions between binary64 and decimal text.  Each is exact: the
    value is held as a ratio of integers and rounded once, to nearest with
    ties to even, as CPython's [dtoa] does. *)

Module Py.

Local Open Scope Z_scope.

(** A score is the [int] 0 of the failure paths or a [float]. *)
Inductive number : Type :=
| Int (z : Z)
| Float (f : float).

(** Nearest integer to [n / d] for [0 <= n], [0 < d], ties to even. *)
Definition round_half_even (n d : Z) : Z :=
  let q := n / d in
  let r := n mod d in
  if (d <? 2 * r) || ((2 * r =? d) && Z.odd q) then q + 1 else q.

(** [p / (q * 2^e)] as a ratio of integers. *)
Definition scale2 (p q e : Z) : Z * Z :=
  if 0 <=? e then (p, q * 2 ^ e) else (p * 2 ^ (- e), q).

Definition signed_zero (neg : bool) : float := if neg then neg_zero else zero.

(** The binary64 nearest to [p / q] ([0 <= p], [0 < q]) with the given
    sign: the exponent is chosen so that the quotient has 53 bits (or sits
    at the subnormal floor), the quotient is rounded once, and values past
    the largest finite float become infinity. *)
Definition nearest (neg : bool) (p q : Z) : float :=
  if p <=? 0 then signed_zero neg
  else
    let e1 := Z.log2 p - Z.log2 q - 52 in
    let '(n1, d1) := scale2 p q e1 in
    let e2 := if n1 / d1 <? 2 ^ 52 then e1 - 1 else e1 in
    let e := Z.max e2 (-1074) in
    let '(n, d) := scale2 p q e in
    match round_half_even n d with
    | Zpos m => SF2Prim (S754_finite neg m e)
    | _ => signed_zero neg
    end.

(** The magnitude of a finite float [m * 2^e] as a ratio. *)
Definition ratio_of (m : positive) (e : Z) : Z * Z :=
  if 0 <=? e then (Zpos m * 2 ^ e, 1) else (Zpos m, 2 ^ (- e)).

(** *** [round(x, ndigits)] for [ndigits >= 0] *)
Definition round (x : float) (ndigits : nat) : float :=
  if (323 <? Z.of_nat ndigits) then x
  else
    match Prim2SF x with
    | S754_finite s m e =>
        let '(n, d) := ratio_of m e in
        let t := 10 ^ Z.of_nat ndigits in
        nearest s (round_half_even (n * t) d) t
    | _ => x
    end.

(** *** Decimal text of integers *)
Definition digit_char (d : Z) : ascii := ascii_of_N (48 + Z.to_N d).

Fixpoint digits_fuel (fuel : nat) (n : Z) (acc : string) : string :=
  match fuel with
  | O => acc
  | S fuel' =>
      let acc' := String (digit_char (n mod 10)) acc in
      if n <? 10 then acc' else digits_fuel fuel' (n / 10) acc'
  end.

(** [str(n)] for [0 <= n]: the fuel is the bit length, which bounds the
    number of decimal digits. *)
Definition str_nat (n : Z) : string :=
  digits_fuel (S (Z.to_nat (Z.log2 n))) n EmptyString.

Definition str_int (n : Z) : string :=
  if n <? 0 then String "-"%char (str_nat (- n)) else str_nat n.

Definition zfill (width : nat) (s : string) : string :=
  (Str.repeat "0"%char (width - String.length s) ++ s)%string.

Definition sign_text (neg : bool) : string := if neg then "-"%string else ""%string.

(** *** [format(x, '.<prec>f')] *)
Definition fixed_digits (prec : nat) (n : Z) : string :=
  let t := 10 ^ Z.of_nat prec in
  match prec with
  | O => str_nat n
  | _ => (str_nat (n / t) ++ "." ++ zfill prec (str_nat (n mod t)))%string
  end.

Definition format_f (prec : nat) (x : float) : string :=
  match Prim2SF x with
  | S754_nan => "nan"%string
  | S754_infinity s => (sign_text s ++ "inf")%string
  | S754_zero s => (sign_text s ++ fixed_digits prec 0)%string
  | S754_finite s m e =>
      let '(n, d) := ratio_of m e in
      (sign_text s ++ fixed_digits prec (round_half_even (n * 10 ^ Z.of_nat prec) d))%string
  end.

(** *** [format(x, '.<prec>%')]: the value times 100 (a float product),
    as [f], then a percent sign. *)
Definition format_pct (prec : nat) (x : float) : string :=
  (format_f prec (x * 100)%float ++ "%")%string.

(** *** [repr(x)]: the shortest decimal that reads back as [x] *)

Definition pow10_ratio (n d k : Z) : Z * Z :=
  if 0 <=? k then (n, d * 10 ^ k) else (n * 10 ^ (- k), d).

(** The least [j], scanning up from [j0], with [n / d < 10^j]. *)
Fixpoint magnitude (fuel : nat) (n d j0 : Z) : Z :=
  match fuel with
  | O => j0
  | S fuel' =>
      let '(sn, sd) := pow10_ratio n d j0 in
      if sn <? sd then j0 else magnitude fuel' n d (j0 + 1)
  end.

(** Does the decimal [c * 10^k] read back as the positive float [ax]? *)
Definition reads_back (ax : float) (c k : Z) : bool :=
  let '(p, q) := if 0 <=? k then (c * 10 ^ k, 1) else (c, 10 ^ (- k)) in
  PrimFloat.eqb (nearest false p q) ax.

(** With [prec] significant digits: the neighbour of [n / d] that reads
    back as [ax], the nearer one when both do. *)
Definition candidate (ax : float) (n d mag : Z) (prec : Z) : option (Z * Z) :=
  let k := mag - prec in
  let '(sn, sd) := pow10_ratio n d k in
  let lo := sn / sd in
  let r := sn mod sd in
  let hi := lo + 1 in
  let ok_lo := reads_back ax lo k in
  let ok_hi := negb (r =? 0) && reads_back ax hi k in
  let prefer_hi := (sd <? 2 * r) || ((2 * r =? sd) && Z.odd lo) in
  if ok_lo && ok_hi then Some (if prefer_hi then hi else lo, k)
  else if ok_lo then Some (lo, k)
  else if ok_hi then Some (hi, k)
  else None.

Fixpoint shortest (fuel : nat) (ax : float) (n d mag prec : Z) : Z * Z :=
  match fuel with
  | O => (round_half_even (fst (pow10_ratio n d (mag - prec)))
                          (snd (pow10_ratio n d (mag - prec))), mag - prec)
  | S fuel' =>
      match candidate ax n d mag prec with
      | Some r => r
      | None => shortest fuel' ax n d mag (prec + 1)
      end
  end.

Fixpoint strip_zeros (fuel : nat) (c k : Z) : Z * Z :=
  match fuel with
  | O => (c, k)
  | S fuel' => if (c mod 10 =? 0) && (0 <? c) then strip_zeros fuel' (c / 10) (k + 1) else (c, k)
  end.

(** The digits and the position of the decimal point, laid out as
    [repr] does: positional when the point falls within [-4 < decpt <= 16],
    otherwise with an exponent of at least two digits. *)
Definition layout_repr (ds : string) (decpt : Z) : string :=
  let nd := Z.of_nat (String.length ds) in
  if (-4 <? decpt) && (decpt <=? 16) then
    if decpt <=? 0 then ("0." ++ Str.repeat "0"%char (Z.to_nat (- decpt)) ++ ds)%string
    else if nd <=? decpt then (ds ++ Str.repeat "0"%char (Z.to_nat (decpt - nd)) ++ ".0")%string
    else (Str.take (Z.to_nat decpt) ds ++ "." ++ Str.drop (Z.to_nat decpt) ds)%string
  else
    let ex := decpt - 1 in
    let mant := match ds with
                | String c EmptyString => ds
                | String c rest => String c ("." ++ rest)%string
                | EmptyString => ds
                end in
    (mant ++ "e" ++ (if (ex <? 0)%Z then "-" else "+") ++ zfill 2 (str_nat (Z.abs ex)))%string.

Definition repr (x : float) : string :=
  match Prim2SF x with
  | S754_nan => "nan"%string
  | S754_infinity s => (sign_text s ++ "inf")%string
  | S754_zero s => (sign_text s ++ "0.0")%string
  | S754_finite s m e =>
      let '(n, d) := ratio_of m e in
      let mag := magnitude 640 n d (-324) in
      let '(c0, k0) := shortest 16 (abs x) n d mag 1 in
      let '(c, k) := strip_zeros 20 c0 k0 in
      let ds := str_nat c in
      (sign_text s ++ layout_repr ds (Z.of_nat (String.length ds) + k))%string
  end.

(** *** [float(s)] for a [str]; [None] is [ValueError] *)

Definition is_digit := Char.is_digit.

Fixpoint digits_value (s : string) (acc : Z) : Z :=
  match s with
  | EmptyString => acc
  | String c s' => digits_value s' (10 * acc + (Z.of_N (Char.code c) - 48))
  end.

(** Underscores may only stand between two digits; they are then dropped. *)
Fixpoint drop_underscores (prev : ascii) (s : string) : option string :=
  match s with
  | EmptyString => if Ascii.eqb prev "_"%char then None else Some EmptyString
  | String c s' =>
      if Ascii.eqb c "_"%char then
        if is_digit prev then drop_underscores c s' else None
      else if Ascii.eqb prev "_"%char && negb (is_digit c) then None
      else match drop_underscores c s' with
           | Some r => Some (String c r)
           | None => None
           end
  end.

Definition split_sign (s : string) : bool * string :=
  match s with
  | String "-"%char r => (true, r)
  | String "+"%char r => (false, r)
  | _ => (false, s)
  end.

Fixpoint lower_str (s : string) : string :=
  match s with
  | EmptyString => EmptyString
  | String c s' => String (Char.lower c) (lower_str s')
  end.

(** Mantissa digits and decimal exponent of
    [digits [. digits] | . digits] [(e|E) [sign] digits]. *)
Definition parse_decimal (s : string) : option (Z * Z) :=
  let ip := Str.take_while is_digit s in
  let r := Str.drop_while is_digit s in
  let '(fp, r) := match r with
                  | String "."%char r' => (Str.take_while is_digit r', Str.drop_while is_digit r')
                  | _ => (EmptyString, r)
                  end in
  if Str.is_empty ip && Str.is_empty fp then None
  else
    let mant := digits_value (ip ++ fp)%string 0 in
    let shift := Z.of_nat (String.length fp) in
    match r with
    | EmptyString => Some (mant, - shift)
    | String c r' =>
        if Ascii.eqb (Char.lower c) "e"%char then
          let '(eneg, ed) := split_sign r' in
          if Str.is_empty ed || negb (Str.all is_digit ed) then None
          else let ev := digits_value ed 0 in
               Some (mant, (if eneg then - ev else ev) - shift)
        else None
    end.

(** The whitespace [float] skips at both ends: that of C's [isspace],
    and NEL and NBSP, which it first turns into spaces.  Unlike
    [str.strip] it leaves FS..US where they are. *)
Definition float_space (c : ascii) : bool :=
  let n := Char.code c in
  Char.between 9 13 n || (n =? 32)%N || (n =? 133)%N || (n =? 160)%N.

Definition strip_float (s : string) : string :=
  Str.rev (Str.drop_while float_space (Str.rev (Str.drop_while float_space s))).

Definition float_of_str (s : string) : option float :=
  match drop_underscores " "%char (strip_float s) with
  | None => None
  | Some t =>
      let '(neg, body) := split_sign t in
      let word := lower_str body in
      if String.eqb word "inf" || String.eqb word "infinity"
      then Some (if neg then neg_infinity else infinity)
      else if String.eqb word "nan" then Some nan
      else match parse_decimal body with
           | Some (mant, ex) =>
               Some (if 0 <=? ex then nearest neg (mant * 10 ^ ex) 1
                     else nearest neg mant (10 ^ (- ex)))
           | None => None
           end
  end.

End Py.

(** ** [json.dumps] with its defaults

    Items are separated by a comma and a space, key and value by a colon
    and a space; keys keep insertion order, and with [ensure_ascii] every
    character outside the printable ASCII range is escaped. *)

Module Json.

Inductive value : Type :=
| Num (n : Py.number)
| Str (s : string)
| Arr (items : list value)
| Obj (members : list (string * value)).

Definition quote : string := String (ascii_of_N 34) EmptyString.

Definition hex_digit (n : N) : ascii :=
  if (n <? 10)%N then ascii_of_N (48 + n) else ascii_of_N (87 + n).

Definition escape_char (c : ascii) : string :=
  let n := Char.code c in
  if (n =? 34)%N then String "\"%char quote
  else if (n =? 92)%N then "\\"
  else if (n =? 10)%N then "\n"
  else if (n =? 13)%N then "\r"
  else if (n =? 9)%N then "\t"
  else if (n =? 8)%N then "\b"
  else if (n =? 12)%N then "\f"
  else if Char.between 32 126 n then String c EmptyString
  else "\u00" ++ String (hex_digit (n / 16)) (String (hex_digit (n mod 16)) EmptyString).

Fixpoint escape (s : string) : string :=
  match s with
  | EmptyString => EmptyString
  | String c s' => escape_char c ++ escape s'
  end.

Definition dumps_str (s : string) : string := quote ++ escape s ++ quote.

Definition dumps_float (f : float) : string :=
  match Prim2SF f with
  | S754_nan => "NaN"
  | S754_infinity s => Py.sign_text s ++ "Infinity"
  | _ => Py.repr f
  end.

Definition dumps_num (n : Py.number) : string :=
  match n with
  | Py.Int z => Py.str_int z
  | Py.Float f => dumps_float f
  end.

Fixpoint dumps (v : value) : string :=
  match v with
  | Num n => dumps_num n
  | Str s => dumps_str s
  | Arr items => "[" ++ String.concat ", " (map dumps items) ++ "]"
  | Obj members =>
      "{" ++ String.concat ", "
               (map (fun kv => dumps_str (fst kv) ++ ": " ++ dumps (snd kv)) members)
          ++ "}"
  end.

End Json.

(** ** The grader *)

Definition nl : string := String (ascii_of_N 10) EmptyString.

(** *** The world outside: the notebook file and the subprocess *)

Record cell : Type := { cell_type : string; source : string }.

Record notebook : Type := { cells : list cell }.

(** [open] followed by [nbformat.read]: a notebook, or an exception whose
    text is [cause]. *)
Inductive read_result : Type :=
| ReadOk (nb : notebook)
| ReadError (cause : string).

(** [subprocess.run(argv, capture_output=True, text=True, timeout=t)]: the
    process ran to completion, or [TimeoutExpired] was raised, or any other
    exception with text [cause]. *)
Inductive run_result : Type :=
| Completed (returncode : Z) (stdout stderr : string)
| TimeoutExpired
| RunError (cause : string).

Record world : Type := {
  read_notebook : string -> read_result;
  sys_executable : string;
  subprocess_run : list string -> Z -> run_result
}.

(** *** [execute_notebook] *)

(** The loop over [nb.cells] that builds [full_code]. *)
Definition full_code (nb : notebook) : string :=
  fold_left
    (fun acc cell =>
       if String.eqb (cell_type cell) "code" then acc ++ (source cell ++ nl) else acc)
    (cells nb) "".

Definition execute_notebook (w : world) (notebook_path : string)
    : option string * option string :=
  match read_notebook w notebook_path with
  | ReadError e => (None, Some ("Error reading notebook file: " ++ e))
  | ReadOk nb =>
      let code := full_code nb in
      if Str.is_empty (Str.strip code) then (None, Some "No code found in the notebook.")
      else
        match subprocess_run w [sys_executable w; "-c"; code] 240 with
        | Completed returncode stdout stderr =>
            if negb (returncode =? 0)%Z
            then (None, Some ("Code execution failed with an error:" ++ nl ++ stderr))
            else (Some stdout, None)
        | TimeoutExpired => (None, Some "Code execution timed out after 4 minutes.")
        | RunError e => (None, Some ("An unexpected error occurred during execution: " ++ e))
        end
  end.

(** *** [grade_result] *)

Definition OPTIMAL_CD : float := 0.300353.
Definition TOLERANCE : float := 0.10.

Definition relative_error (student_cd : float) : float :=
  (abs (student_cd - OPTIMAL_CD) / OPTIMAL_CD)%float.

(** The grading logic, before rounding. *)
Definition raw_score (error : float) : float :=
  if (error <=? TOLERANCE)%float then 10.0%float
  else if (error <? 1.0)%float
       then (10.0 * (1 - (error - TOLERANCE) / (1.0 - TOLERANCE)))%float
       else 0.0%float.

Definition score_of (student_cd : float) : float :=
  Py.round (raw_score (relative_error student_cd)) 2.

Definition feedback_of (student_cd : float) : string :=
  let error := relative_error student_cd in
  let score := score_of student_cd in
  "Grading based on the final Drag Coefficient (Cd)." ++ nl
  ++ "Optimal Cd: " ++ Py.format_f 6 OPTIMAL_CD ++ nl
  ++ "Your Cd: " ++ Py.format_f 6 student_cd ++ nl
  ++ "Error: " ++ Py.format_pct 2 error ++ nl
  ++ "Score: " ++ Py.repr score ++ "/10".

Definition NOT_FOUND : string :=
  "Could not find the 'Minimum Drag Coefficient (Cd)' in the output. Make sure it is printed correctly.".

Definition parse_failure (token : string) : string :=
  "Could not parse the drag coefficient value '" ++ token ++ "'.".

(** [match.group(1)]; the group of [CD_PATTERN] takes part in every match. *)
Definition group (m : Re.match_object) : string :=
  match Re.group1 m with
  | Some t => t
  | None => EmptyString
  end.

Definition grade_result (output : option string) : Py.number * string :=
  match output with
  | None => (Py.Int 0, "Could not get output from the notebook.")
  | Some text =>
      match cd_search text with
      | None => (Py.Int 0, NOT_FOUND)
      | Some m =>
          match Py.float_of_str (group m) with
          | None => (Py.Int 0, parse_failure (group m))
          | Some student_cd => (Py.Float (score_of student_cd), feedback_of student_cd)
          end
      end
  end.

(** *** [main] *)

Definition NOTEBOOK_PATH : string := "L1_EA_CaseStudyHomework_Stu.ipynb".

(** Truth value of a [str]-or-[None]. *)
Definition truthy (o : option string) : bool :=
  match o with
  | Some s => negb (Str.is_empty s)
  | None => false
  end.

Definition test_result (score : Py.number) (feedback : string) : Json.value :=
  Json.Obj
    [("tests",
      Json.Arr
        [Json.Obj
           [("name", Json.Str "Spoiler Optimization Autograding");
            ("score", Json.Num score);
            ("max_score", Json.Num (Py.Int 10));
            ("output", Json.Str feedback)]])].

(** What [main] decides to report. *)
Definition verdict (w : world) : Py.number * string :=
  let '(output, error_message) := execute_notebook w NOTEBOOK_PATH in
  if truthy error_message
  then (Py.Int 0, match error_message with Some e => e | None => EmptyString end)
  else grade_result output.

(** [main]: the text written to standard output, one [print]. *)
Definition main (w : world) : string :=
  let '(score, feedback) := verdict w in
  Json.dumps (test_result score feedback) ++ nl.

(** * Properties *)

(** ** Strings *)

Module StrFacts.

Lemma append_empty_r (s : string) : s ++ "" = s.
Proof. induction s as [|c s IH]; simpl; [reflexivity | now rewrite IH]. Qed.

Lemma append_assoc (a b c : string) : (a ++ b) ++ c = a ++ (b ++ c).
Proof. induction a as [|x a IH]; simpl; [reflexivity | now rewrite IH]. Qed.

Lemma length_append (a b : string) :
  String.length (a ++ b) = String.length a + String.length b.
Proof. induction a as [|x a IH]; simpl; [reflexivity | now rewrite IH]. Qed.

Lemma take_drop_while (p : ascii -> bool) (s : string) :
  Str.take_while p s ++ Str.drop_while p s = s.
Proof.
  induction s as [|c s IH]; simpl; [reflexivity|].
  destruct (p c); simpl; [now rewrite IH | reflexivity].
Qed.

Lemma all_take_while (p : ascii -> bool) (s : string) :
  Str.all p (Str.take_while p s) = true.
Proof.
  induction s as [|c s IH]; simpl; [reflexivity|].
  destruct (p c) eqn:E; simpl; [now rewrite E | reflexivity].
Qed.

Lemma length_drop_while (p : ascii -> bool) (s : string) :
  String.length (Str.drop_while p s) <= String.length s.
Proof.
  induction s as [|c s IH]; simpl; [lia|].
  destruct (p c); simpl; lia.
Qed.

(** Cutting a text where [drop_while] stopped gives [take_while]. *)
Lemma take_to_drop_while (p : ascii -> bool) (s : string) :
  Str.take (String.length s - String.length (Str.drop_while p s)) s
  = Str.take_while p s.
Proof.
  induction s as [|c s IH]; simpl; [reflexivity|].
  destruct (p c); simpl.
  - pose proof (length_drop_while p s) as L.
    destruct (String.length (Str.drop_while p s)) as [|n] eqn:E.
    + simpl. f_equal. rewrite <- IH. now rewrite Nat.sub_0_r.
    + replace (String.length s - n) with (S (String.length s - S n)) by lia.
      simpl. f_equal. exact IH.
  - now rewrite Nat.sub_diag.
Qed.

Lemma drop_while_head (p : ascii -> bool) (s : string) (c : ascii) (r : string) :
  Str.drop_while p s = String c r -> p c = false.
Proof.
  induction s as [|x s IH]; simpl; [discriminate|].
  destruct (p x) eqn:E; [exact IH | intros H; injection H as -> _; exact E].
Qed.

Lemma drop_while_all (p : ascii -> bool) (s : string) :
  Str.all p s = true -> Str.drop_while p s = "".
Proof.
  induction s as [|c s IH]; simpl; [reflexivity|].
  destruct (p c); simpl; [exact IH | discriminate].
Qed.

Lemma drop_while_empty_all (p : ascii -> bool) (s : string) :
  Str.drop_while p s = "" -> Str.all p s = true.
Proof.
  induction s as [|c s IH]; simpl; [reflexivity|].
  destruct (p c); simpl; [exact IH | discriminate].
Qed.

(** Text appended after the point where [drop_while] stopped is not
    looked at. *)
Lemma drop_while_append (p : ascii -> bool) (s t : string) :
  Str.drop_while p s <> "" ->
  Str.drop_while p (s ++ t) = Str.drop_while p s ++ t.
Proof.
  induction s as [|c s IH]; simpl; [congruence|].
  destruct (p c); simpl; [exact IH | reflexivity].
Qed.

Lemma take_while_append (p : ascii -> bool) (s t : string) :
  Str.drop_while p s <> "" ->
  Str.take_while p (s ++ t) = Str.take_while p s.
Proof.
  induction s as [|c s IH]; simpl; [congruence|].
  destruct (p c); simpl; [intros H; now rewrite IH | reflexivity].
Qed.

Lemma drop_while_all_append (p : ascii -> bool) (s t : string) :
  Str.all p s = true -> Str.drop_while p (s ++ t) = Str.drop_while p t.
Proof.
  induction s as [|c s IH]; simpl; [reflexivity|].
  destruct (p c); simpl; [exact IH | discriminate].
Qed.

Lemma take_while_all_append (p : ascii -> bool) (s t : string) :
  Str.all p s = true -> Str.take_while p (s ++ t) = s ++ Str.take_while p t.
Proof.
  induction s as [|c s IH]; simpl; [reflexivity|].
  destruct (p c); simpl; [intros H; now rewrite IH | discriminate].
Qed.

Lemma all_append (p : ascii -> bool) (s t : string) :
  Str.all p (s ++ t) = Str.all p s && Str.all p t.
Proof.
  induction s as [|c s IH]; simpl; [reflexivity|].
  now rewrite IH, andb_assoc.
Qed.

Lemma any_append (p : ascii -> bool) (s t : string) :
  Str.any p (s ++ t) = Str.any p s || Str.any p t.
Proof.
  induction s as [|c s IH]; simpl; [reflexivity|].
  now rewrite IH, orb_assoc.
Qed.

Lemma all_rev_onto (p : ascii -> bool) (s acc : string) :
  Str.all p (Str.rev_onto s acc) = Str.all p s && Str.all p acc.
Proof.
  revert acc; induction s as [|c s IH]; intros acc; simpl; [reflexivity|].
  rewrite IH. simpl. destruct (p c), (Str.all p s); reflexivity.
Qed.

Lemma all_rev (p : ascii -> bool) (s : string) : Str.all p (Str.rev s) = Str.all p s.
Proof. unfold Str.rev. rewrite all_rev_onto. simpl. now rewrite andb_true_r. Qed.

Lemma rev_onto_empty (s acc : string) : Str.rev_onto s acc = "" -> s = "" /\ acc = "".
Proof.
  revert acc; induction s as [|c s IH]; intros acc; simpl; [now split|].
  intros H. apply IH in H as [_ H]. discriminate.
Qed.

(** [s.strip()] is empty exactly when [s] is all whitespace. *)
Lemma strip_empty_iff (s : string) :
  Str.is_empty (Str.strip s) = Str.all Char.is_space s.
Proof.
  unfold Str.strip, Str.rstrip, Str.lstrip.
  destruct (Str.all Char.is_space s) eqn:A.
  - rewrite (drop_while_all _ _ A). reflexivity.
  - destruct (Str.rev _) eqn:R; [|reflexivity]. exfalso.
    apply rev_onto_empty in R as [R _].
    apply drop_while_empty_all in R. rewrite all_rev in R.
    pose proof (take_drop_while Char.is_space s) as T.
    rewrite <- T, all_append, all_take_while in A. simpl in A.
    congruence.
Qed.

End StrFacts.

(** ** The search for the drag coefficient, in closed form

    For [CD_PATTERN] backtracking never finds anything the first try
    missed: whitespace, digits and the label share no character.  So one
    attempt is: strip the label, skip the whitespace, take the run of
    digits and points. *)

Module CdFacts.

Definition is_num (c : ascii) : bool := Re.cset_match true NUMCLASS c.

Definition is_point (c : ascii) : bool := Ascii.eqb c "."%char.

(** A label character and a text character agree under IGNORECASE. *)
Definition same_letter (l c : ascii) : bool := Ascii.eqb (Char.lower c) (Char.lower l).

Fixpoint strip_label (lbl s : string) : option string :=
  match lbl with
  | EmptyString => Some s
  | String l lbl' =>
      match s with
      | String c s' => if same_letter l c then strip_label lbl' s' else None
      | EmptyString => None
      end
  end.

(** One attempt at the start of [s]: the token and the text after it. *)
Definition token_at (s : string) : option (string * string) :=
  match strip_label LABEL s with
  | None => None
  | Some r =>
      let r' := Str.drop_while Char.is_space r in
      let tok := Str.take_while is_num r' in
      if Str.is_empty tok then None else Some (tok, Str.drop_while is_num r')
  end.

Fixpoint first_token (s : string) : option (string * string) :=
  match token_at s with
  | Some r => Some r
  | None =>
      match s with
      | String _ s' => first_token s'
      | EmptyString => None
      end
  end.

Definition as_match (r : string * string) : Re.match_object :=
  {| Re.group1 := Some (fst r); Re.after := snd r |}.

Ltac each_char c := destruct c as [[] [] [] [] [] [] [] []].

Lemma is_num_spec (c : ascii) : is_num c = Char.is_digit c || is_point c.
Proof. each_char c; reflexivity. Qed.

Lemma space_not_num (c : ascii) : Char.is_space c = true -> is_num c = false.
Proof. each_char c; vm_compute; congruence. Qed.

(** A character that stands for a label character is no digit or point. *)
Lemma label_char_not_num (l c : ascii) :
  is_num l = false -> same_letter l c = true -> is_num c = false.
Proof.
  unfold same_letter. intros L E. apply Ascii.eqb_eq in E.
  destruct (is_num c) eqn:N; [|reflexivity].
  assert (Char.lower c = c) as Hc by (revert N; each_char c; vm_compute; congruence).
  rewrite Hc in E. subst c.
  revert L N. each_char l; vm_compute; congruence.
Qed.

Section Greedy.
Context {R : Type} (test : ascii -> bool) (cont : string -> option R).

(** When the continuation cannot start on a character of the
    repetition, giving characters back never helps. *)
Lemma greedy_disjoint (s : string) :
  (forall c r, test c = true -> cont (String c r) = None) ->
  Re.greedy test cont s = cont (Str.drop_while test s).
Proof.
  intros D. induction s as [|c s IH]; simpl; [reflexivity|].
  destruct (test c) eqn:T; [|reflexivity].
  rewrite IH. destruct (cont (Str.drop_while test s)) eqn:C; [reflexivity|].
  now apply D.
Qed.

(** When the continuation always succeeds, the longest run wins. *)
Lemma greedy_total (s : string) :
  (forall r, cont r <> None) ->
  Re.greedy test cont s = cont (Str.drop_while test s).
Proof.
  intros T. induction s as [|c s IH]; simpl; [reflexivity|].
  destruct (test c); [|reflexivity].
  rewrite IH. destruct (cont (Str.drop_while test s)) eqn:C; [reflexivity|].
  now apply T in C.
Qed.
End Greedy.

Lemma rmatch_literal (lbl : string) (k : Re.pattern) (s : string) (m : Re.marks) :
  Re.rmatch true (Re.literal lbl ++ k)%list s m
  = match strip_label lbl s with
    | Some r => Re.rmatch true k r m
    | None => None
    end.
Proof.
  revert s. induction lbl as [|l lbl IH]; intros s; simpl; [reflexivity|].
  destruct s as [|c s]; [reflexivity|].
  fold (same_letter l c). destruct (same_letter l c); [apply IH | reflexivity].
Qed.

Definition TAIL : Re.pattern :=
  [Re.Star Re.Space; Re.GroupOpen; Re.Plus NUMCLASS; Re.GroupClose].

Lemma rmatch_number (r : string) (m : Re.marks) :
  Re.rmatch true [Re.GroupOpen; Re.Plus NUMCLASS; Re.GroupClose] r m
  = match r with
    | String c s' =>
        if is_num c
        then Some ({| Re.g_open := Some r; Re.g_close := Some (Str.drop_while is_num s') |},
                   Str.drop_while is_num s')
        else None
    | EmptyString => None
    end.
Proof.
  destruct r as [|c s']; [reflexivity|].
  cbn [Re.rmatch]. fold (is_num c). destruct (is_num c); [|reflexivity].
  rewrite greedy_total by discriminate. reflexivity.
Qed.

Lemma rmatch_star (cs : Re.cset) (k : Re.pattern) (s : string) (m : Re.marks) :
  Re.rmatch true (Re.Star cs :: k) s m
  = Re.greedy (Re.cset_match true cs) (fun r => Re.rmatch true k r m) s.
Proof. reflexivity. Qed.

Lemma rmatch_tail (r : string) (m : Re.marks) :
  Re.rmatch true TAIL r m
  = Re.rmatch true [Re.GroupOpen; Re.Plus NUMCLASS; Re.GroupClose]
      (Str.drop_while Char.is_space r) m.
Proof.
  unfold TAIL. rewrite rmatch_star.
  change (Re.cset_match true Re.Space) with Char.is_space.
  apply (greedy_disjoint Char.is_space
           (fun r => Re.rmatch true [Re.GroupOpen; Re.Plus NUMCLASS; Re.GroupClose] r m)).
  intros c s' Sp.
  rewrite rmatch_number, (space_not_num c Sp). reflexivity.
Qed.

Lemma match_at_token (s : string) :
  Re.match_at true CD_PATTERN s = option_map as_match (token_at s).
Proof.
  unfold Re.match_at, CD_PATTERN, token_at. fold TAIL.
  rewrite rmatch_literal.
  destruct (strip_label LABEL s) as [r|]; [|reflexivity].
  rewrite rmatch_tail, rmatch_number. cbv zeta.
  destruct (Str.drop_while Char.is_space r) as [|c s'] eqn:D; [reflexivity|].
  cbn [Str.take_while Str.drop_while].
  destruct (is_num c) eqn:N; [|reflexivity].
  cbn [Str.is_empty option_map]. unfold as_match, Re.captured. cbn.
  f_equal. f_equal. f_equal.
  pose proof (StrFacts.take_to_drop_while is_num (String c s')) as T.
  cbn [Str.take_while Str.drop_while] in T. rewrite N in T. exact T.
Qed.

Lemma cd_search_first_token (s : string) :
  cd_search s = option_map as_match (first_token s).
Proof.
  unfold cd_search.
  induction s as [|c s IH].
  - cbn [Re.search first_token]. rewrite match_at_token.
    destruct (token_at ""); reflexivity.
  - cbn [Re.search first_token]. rewrite match_at_token.
    destruct (token_at (String c s)); [reflexivity | exact IH].
Qed.

(** *** What an attempt consumed *)

Lemma strip_label_split (lbl s r : string) :
  strip_label lbl s = Some r ->
  exists l', s = l' ++ r /\ Py.lower_str l' = Py.lower_str lbl.
Proof.
  revert s. induction lbl as [|l lbl IH]; intros s; simpl.
  - intros [= ->]. now exists "".
  - destruct s as [|c s]; [discriminate|].
    destruct (same_letter l c) eqn:E; [|discriminate].
    intros H. apply IH in H as (l' & -> & L).
    exists (String c l'). simpl. rewrite L.
    apply Ascii.eqb_eq in E. now rewrite E.
Qed.

Lemma strip_label_complete (lbl l' r : string) :
  Py.lower_str l' = Py.lower_str lbl -> strip_label lbl (l' ++ r) = Some r.
Proof.
  revert l'. induction lbl as [|l lbl IH]; intros l'; simpl.
  - destruct l'; [reflexivity | discriminate].
  - destruct l' as [|c l']; [discriminate|]. simpl. intros [= E L].
    unfold same_letter. rewrite E, Ascii.eqb_refl. now apply IH.
Qed.

Lemma token_at_split (s tok rest : string) :
  token_at s = Some (tok, rest) ->
  exists lbl ws,
    s = lbl ++ ws ++ tok ++ rest
    /\ Py.lower_str lbl = Py.lower_str LABEL
    /\ Str.all Char.is_space ws = true
    /\ tok <> "" /\ Str.all is_num tok = true
    /\ Str.take_while is_num rest = "".
Proof.
  unfold token_at. destruct (strip_label LABEL s) as [r|] eqn:L; [|discriminate].
  cbv zeta. set (r' := Str.drop_while Char.is_space r).
  destruct (Str.take_while is_num r') as [|c t] eqn:T; [discriminate|].
  cbn [Str.is_empty]. intros [= <- <-].
  apply strip_label_split in L as (lbl & -> & L).
  exists lbl, (Str.take_while Char.is_space r). repeat split.
  - f_equal. rewrite <- T, StrFacts.take_drop_while. subst r'.
    now rewrite StrFacts.take_drop_while.
  - exact L.
  - apply StrFacts.all_take_while.
  - discriminate.
  - rewrite <- T. apply StrFacts.all_take_while.
  - destruct (Str.drop_while is_num r') as [|x y] eqn:D; [reflexivity|].
    apply StrFacts.drop_while_head in D. simpl. now rewrite D.
Qed.

Lemma token_at_complete (lbl ws tok rest : string) :
  Py.lower_str lbl = Py.lower_str LABEL ->
  Str.all Char.is_space ws = true ->
  tok <> "" -> Str.all is_num tok = true ->
  Str.take_while is_num rest = "" ->
  token_at (lbl ++ ws ++ tok ++ rest) = Some (tok, rest).
Proof.
  intros L W N A M. unfold token_at.
  rewrite (strip_label_complete _ _ _ L). cbv zeta.
  assert (Str.drop_while Char.is_space (ws ++ tok ++ rest) = tok ++ rest) as D.
  { rewrite (StrFacts.drop_while_all_append _ _ _ W).
    destruct tok as [|c t]; [congruence|]. simpl in *.
    apply andb_true_iff in A as [A _].
    destruct (Char.is_space c) eqn:Sp; [|reflexivity].
    apply space_not_num in Sp. congruence. }
  rewrite D, (StrFacts.take_while_all_append _ _ _ A), M, StrFacts.append_empty_r.
  rewrite (StrFacts.drop_while_all_append _ _ _ A).
  assert (Str.drop_while is_num rest = rest) as ->.
  { destruct rest as [|x y]; [reflexivity|]. simpl in *.
    destruct (is_num x); [discriminate | reflexivity]. }
  destruct tok; [congruence | reflexivity].
Qed.

Lemma first_token_split (s tok rest : string) :
  first_token s = Some (tok, rest) ->
  exists pre, s = pre ++ Str.drop (String.length pre) s
              /\ token_at (Str.drop (String.length pre) s) = Some (tok, rest).
Proof.
  induction s as [|c s IH]; cbn [first_token].
  - destruct (token_at "") eqn:T; [|discriminate].
    intros [= ->]. now exists "".
  - destruct (token_at (String c s)) eqn:T.
    + intros [= ->]. now exists "".
    + intros H. apply IH in H as (pre & E & H).
      exists (String c pre). simpl. split; [now rewrite <- E | exact H].
Qed.

(** *** The search is leftmost *)

Lemma search_leftmost (ic : bool) (p : Re.pattern) (pre u : string) (m : Re.match_object) :
  (forall j, j < String.length pre -> Re.match_at ic p (Str.drop j (pre ++ u)) = None) ->
  Re.match_at ic p u = Some m ->
  Re.search ic p (pre ++ u) = Some m.
Proof.
  induction pre as [|c pre IH]; intros E M.
  - simpl. destruct u; cbn [Re.search]; now rewrite M.
  - cbn [append Re.search].
    pose proof (E 0 ltac:(simpl; lia)) as E0. cbn [Str.drop append] in E0.
    rewrite E0.
    apply IH; [|exact M].
    intros j Hj. apply (E (S j)). simpl. lia.
Qed.

(** What the search returns is the occurrence at the least position. *)
Lemma search_first (ic : bool) (p : Re.pattern) (s : string) (m : Re.match_object) :
  Re.search ic p s = Some m ->
  exists i,
    i <= String.length s
    /\ Re.match_at ic p (Str.drop i s) = Some m
    /\ forall j, j < i -> Re.match_at ic p (Str.drop j s) = None.
Proof.
  induction s as [|c s IH]; cbn [Re.search].
  - destruct (Re.match_at ic p "") eqn:M; [|discriminate].
    intros [= ->]. exists 0. split; [simpl; lia|]. split; [exact M | lia].
  - destruct (Re.match_at ic p (String c s)) eqn:M.
    + intros [= ->]. exists 0. split; [simpl; lia|]. split; [exact M | lia].
    + intros H. apply IH in H as (i & L & F & E).
      exists (S i). split; [simpl; lia|]. split; [exact F|].
      intros [|j] Hj; [exact M | apply E; lia].
Qed.

(** *** Text after the first match is not looked at *)

Lemma label_has_no_num : Str.any is_num LABEL = false.
Proof. reflexivity. Qed.

Lemma strip_label_append (lbl s r t : string) :
  strip_label lbl s = Some r -> strip_label lbl (s ++ t) = Some (r ++ t).
Proof.
  revert s. induction lbl as [|l lbl IH]; intros s; simpl.
  - now intros [= ->].
  - destruct s as [|c s]; [discriminate|]. simpl.
    destruct (same_letter l c); [apply IH | discriminate].
Qed.

Lemma strip_label_keeps_nums (lbl s r : string) :
  Str.any is_num lbl = false ->
  strip_label lbl s = Some r -> Str.any is_num s = Str.any is_num r.
Proof.
  revert s. induction lbl as [|l lbl IH]; intros s; simpl.
  - now intros _ [= ->].
  - intros A. apply orb_false_iff in A as [Al A].
    destruct s as [|c s]; [discriminate|].
    destruct (same_letter l c) eqn:E; [|discriminate].
    intros H. simpl. rewrite (label_char_not_num l c Al E). now apply IH.
Qed.

(** An attempt that ran out of text while reading the label saw no digit
    or point. *)
Lemma strip_label_none_append (lbl s t : string) :
  Str.any is_num lbl = false ->
  strip_label lbl s = None -> Str.any is_num s = true ->
  strip_label lbl (s ++ t) = None.
Proof.
  revert s. induction lbl as [|l lbl IH]; intros s; simpl; [discriminate|].
  intros A. apply orb_false_iff in A as [Al A].
  destruct s as [|c s]; [discriminate|]. simpl.
  destruct (same_letter l c) eqn:E; [|reflexivity].
  rewrite (label_char_not_num l c Al E). now apply IH.
Qed.

Lemma any_drop_spaces (s : string) :
  Str.any is_num (Str.drop_while Char.is_space s) = Str.any is_num s.
Proof.
  induction s as [|c s IH]; simpl; [reflexivity|].
  destruct (Char.is_space c) eqn:Sp; [|reflexivity].
  now rewrite IH, (space_not_num c Sp).
Qed.

Lemma token_at_append (s t tok rest : string) :
  token_at s = Some (tok, rest) -> rest <> "" ->
  token_at (s ++ t) = Some (tok, rest ++ t).
Proof.
  unfold token_at. destruct (strip_label LABEL s) as [r|] eqn:L; [|discriminate].
  rewrite (strip_label_append _ _ _ t L). cbv zeta.
  set (r' := Str.drop_while Char.is_space r).
  destruct (Str.is_empty (Str.take_while is_num r')) eqn:E; [discriminate|].
  intros [= <- <-] R.
  assert (r' <> "") as R' by (intros Z; rewrite Z in R; now apply R).
  rewrite (StrFacts.drop_while_append _ _ _ R'). fold r'.
  rewrite (StrFacts.take_while_append _ _ _ R), (StrFacts.drop_while_append _ _ _ R).
  now rewrite E.
Qed.

Lemma token_at_none_append (s t : string) :
  token_at s = None -> Str.any is_num s = true -> token_at (s ++ t) = None.
Proof.
  unfold token_at. destruct (strip_label LABEL s) as [r|] eqn:L.
  - intros H A. rewrite (strip_label_append _ _ _ t L). cbv zeta in *.
    rewrite (strip_label_keeps_nums _ _ _ label_has_no_num L) in A.
    rewrite <- any_drop_spaces in A.
    destruct (Str.drop_while Char.is_space r) as [|c r'] eqn:D; [discriminate|].
    rewrite StrFacts.drop_while_append by (rewrite D; discriminate).
    rewrite D in *. cbn [append Str.take_while] in *.
    destruct (is_num c); [discriminate | reflexivity].
  - intros _ A. now rewrite (strip_label_none_append _ _ t label_has_no_num L A).
Qed.

Lemma token_at_has_num (s tok rest : string) :
  token_at s = Some (tok, rest) -> Str.any is_num s = true.
Proof.
  intros H. apply token_at_split in H as (lbl & ws & -> & _ & _ & N & A & _).
  rewrite !StrFacts.any_append.
  destruct tok as [|c tok]; [congruence|]. simpl in *.
  apply andb_true_iff in A as [-> _]. now rewrite !orb_true_r.
Qed.

Lemma first_token_has_num (s tok rest : string) :
  first_token s = Some (tok, rest) -> Str.any is_num s = true.
Proof.
  induction s as [|c s IH]; cbn [first_token].
  - destruct (token_at "") eqn:T; [|discriminate]. discriminate T.
  - destruct (token_at (String c s)) as [[a b]|] eqn:T.
    + intros _. exact (token_at_has_num _ _ _ T).
    + intros H. simpl. rewrite (IH H). apply orb_true_r.
Qed.

Lemma first_token_append (s t tok rest : string) :
  first_token s = Some (tok, rest) -> rest <> "" ->
  first_token (s ++ t) = Some (tok, rest ++ t).
Proof.
  induction s as [|c s IH]; cbn [first_token].
  - destruct (token_at "") eqn:T; [|discriminate]. discriminate T.
  - destruct (token_at (String c s)) as [[a b]|] eqn:T.
    + intros [= -> ->] R. cbn [append first_token].
      change (String c (s ++ t)) with (String c s ++ t).
      now rewrite (token_at_append _ t _ _ T R).
    + intros H R. cbn [append first_token].
      change (String c (s ++ t)) with (String c s ++ t).
      rewrite (token_at_none_append _ t T).
      * now apply IH.
      * simpl. rewrite (first_token_has_num _ _ _ H). apply orb_true_r.
Qed.

(** *** [grade_result] through the closed form *)

Definition grade_token (tok : string) : Py.number * string :=
  match Py.float_of_str tok with
  | None => (Py.Int 0, parse_failure tok)
  | Some student_cd => (Py.Float (score_of student_cd), feedback_of student_cd)
  end.

Lemma grade_result_first_token (output : string) :
  grade_result (Some output)
  = match first_token output with
    | None => (Py.Int 0, NOT_FOUND)
    | Some (tok, _) => grade_token tok
    end.
Proof.
  unfold grade_result. rewrite cd_search_first_token.
  destruct (first_token output) as [[tok rest]|]; reflexivity.
Qed.

Lemma grade_result_match (output : string) (m : Re.match_object) :
  cd_search output = Some m -> grade_result (Some output) = grade_token (group m).
Proof. unfold grade_result. now intros ->. Qed.

End CdFacts.

(** ** Which tokens [float] accepts

    A token of the pattern holds only digits and points, so [float] sees no
    whitespace, sign, underscore, exponent or special word in it: what is
    left to decide is the number of points and whether a digit occurs. *)

Module TokenFacts.
Import CdFacts.

Lemma num_cases (c : ascii) : is_num c = true -> Char.is_digit c = true \/ c = "."%char.
Proof. each_char c; vm_compute; intros H; try discriminate H; auto. Qed.

Lemma digit_is_num (c : ascii) : Char.is_digit c = true -> is_num c = true.
Proof. rewrite is_num_spec. now intros ->. Qed.

Lemma digit_not_point (c : ascii) : Char.is_digit c = true -> is_point c = false.
Proof. each_char c; vm_compute; congruence. Qed.

Lemma rev_onto_twice (s a b : string) :
  Str.rev_onto (Str.rev_onto s a) b = Str.rev_onto a (s ++ b).
Proof.
  revert a b. induction s as [|c s IH]; intros a b; simpl; [reflexivity|].
  now rewrite IH.
Qed.

Lemma rev_involutive (s : string) : Str.rev (Str.rev s) = s.
Proof. unfold Str.rev. rewrite rev_onto_twice. simpl. apply StrFacts.append_empty_r. Qed.

Lemma drop_while_none (p : ascii -> bool) (s : string) :
  Str.all (fun c => negb (p c)) s = true -> Str.drop_while p s = s.
Proof. destruct s as [|c s]; simpl; [reflexivity|]. now destruct (p c). Qed.

(** A text without the whitespace of [float] is left as it is. *)
Lemma strip_float_id (s : string) :
  Str.all (fun c => negb (Py.float_space c)) s = true -> Py.strip_float s = s.
Proof.
  intros A. unfold Py.strip_float.
  rewrite (drop_while_none _ _ A), drop_while_none, rev_involutive; [reflexivity|].
  now rewrite StrFacts.all_rev.
Qed.

Lemma all_impl (p q : ascii -> bool) (s : string) :
  (forall c, p c = true -> q c = true) -> Str.all p s = true -> Str.all q s = true.
Proof.
  intros I. induction s as [|c s IH]; simpl; [reflexivity|].
  intros H. apply andb_true_iff in H as [H1 H2]. now rewrite (I _ H1), IH.
Qed.

Lemma drop_underscores_id (prev : ascii) (s : string) :
  Ascii.eqb prev "_"%char = false ->
  Str.all (fun c => negb (Ascii.eqb c "_"%char)) s = true ->
  Py.drop_underscores prev s = Some s.
Proof.
  revert prev. induction s as [|c s IH]; intros prev P; simpl.
  - now rewrite P.
  - intros A. apply andb_true_iff in A as [C A].
    apply negb_true_iff in C. rewrite C, P. simpl. now rewrite IH.
Qed.

Lemma num_not_float_space (c : ascii) : is_num c = true -> negb (Py.float_space c) = true.
Proof. each_char c; vm_compute; congruence. Qed.

Lemma num_not_underscore (c : ascii) : is_num c = true -> negb (Ascii.eqb c "_"%char) = true.
Proof. each_char c; vm_compute; congruence. Qed.

Lemma split_sign_num (c : ascii) (t : string) :
  is_num c = true -> Py.split_sign (String c t) = (false, String c t).
Proof. each_char c; vm_compute; intros H; try discriminate H; reflexivity. Qed.

Lemma not_a_word (c : ascii) (t : string) :
  is_num c = true ->
  let word := Py.lower_str (String c t) in
  (String.eqb word "inf" || String.eqb word "infinity") = false
  /\ String.eqb word "nan" = false.
Proof. each_char c; vm_compute; intros H; try discriminate H; split; reflexivity. Qed.


Lemma count_append (p : ascii -> bool) (a b : string) :
  Str.count p (a ++ b) = Str.count p a + Str.count p b.
Proof. induction a as [|c a IH]; simpl; [reflexivity | rewrite IH; lia]. Qed.

Lemma digits_no_point (s : string) :
  Str.all Char.is_digit s = true -> Str.count is_point s = 0.
Proof.
  induction s as [|c s IH]; simpl; [reflexivity|].
  intros H. apply andb_true_iff in H as [D A].
  now rewrite (digit_not_point c D), IH.
Qed.

Lemma digits_any (s : string) :
  Str.all Char.is_digit s = true -> Str.any Char.is_digit s = negb (Str.is_empty s).
Proof. destruct s as [|c s]; simpl; [reflexivity|]. intros H. apply andb_true_iff in H as [-> _]. reflexivity. Qed.

(** Where a run of digits stops inside a token, a point stands. *)
Lemma after_digits (s : string) (x : ascii) (r : string) :
  Str.all is_num s = true -> Str.drop_while Char.is_digit s = String x r ->
  x = "."%char /\ Str.all is_num r = true.
Proof.
  intros A D.
  pose proof (StrFacts.take_drop_while Char.is_digit s) as T.
  rewrite <- T, StrFacts.all_append, D in A. simpl in A.
  apply andb_true_iff in A as [_ A]. apply andb_true_iff in A as [X A].
  split; [|exact A].
  apply StrFacts.drop_while_head in D.
  destruct (num_cases x X); congruence.
Qed.

Lemma parse_decimal_token (tok : string) :
  tok <> "" -> Str.all is_num tok = true ->
  (Py.parse_decimal tok = None
   <-> (1 < Str.count is_point tok \/ Str.any Char.is_digit tok = false)).
Proof.
  intros N A. unfold Py.parse_decimal, Py.is_digit.
  pose proof (StrFacts.take_drop_while Char.is_digit tok) as T.
  pose proof (StrFacts.all_take_while Char.is_digit tok) as Di.
  set (ip := Str.take_while Char.is_digit tok) in *. clearbody ip.
  destruct (Str.drop_while Char.is_digit tok) as [|x r] eqn:D.
  - (* digits only *)
    rewrite StrFacts.append_empty_r in T. subst tok.
    rewrite (digits_no_point _ Di), (digits_any _ Di).
    destruct ip; [congruence|]. simpl. split; [discriminate|]. intros [H|H]; [lia | discriminate].
  - destruct (after_digits _ _ _ A D) as [-> Ar].
    pose proof (StrFacts.take_drop_while Char.is_digit r) as Tr.
    pose proof (StrFacts.all_take_while Char.is_digit r) as Df.
    set (fp := Str.take_while Char.is_digit r) in *. clearbody fp.
    remember (Str.drop_while Char.is_digit r) as r2 eqn:D2. symmetry in D2.
    assert (Str.count is_point tok = 1 + Str.count is_point r2) as Cnt.
    { rewrite <- T, <- Tr, !count_append. simpl.
      rewrite count_append, (digits_no_point _ Di), (digits_no_point _ Df). reflexivity. }
    assert (Str.any Char.is_digit tok
            = negb (Str.is_empty ip && Str.is_empty fp) || Str.any Char.is_digit r2) as Any.
    { rewrite <- T, <- Tr, !StrFacts.any_append. simpl.
      rewrite StrFacts.any_append, (digits_any _ Di), (digits_any _ Df).
      destruct (Str.is_empty ip), (Str.is_empty fp); reflexivity. }
    rewrite Cnt, Any.
    destruct r2 as [|y r3].
    + simpl. rewrite orb_false_r.
      destruct (Str.is_empty ip && Str.is_empty fp); simpl.
      * split; auto.
      * split; [discriminate|]. intros [H|H]; [lia | discriminate].
    + destruct (after_digits _ _ _ Ar D2) as [-> _].
      cbn [Str.count]. replace (is_point ".") with true by reflexivity.
      destruct (Str.is_empty ip && Str.is_empty fp).
      * split; [intros _; left; lia | reflexivity].
      * change (Ascii.eqb (Char.lower ".") "e") with false. cbv iota.
        split; [intros _; left; lia | reflexivity].
Qed.

(** [float] of a matched token fails exactly on tokens with more than one
    point or with no digit. *)
Lemma float_of_token (tok : string) :
  tok <> "" -> Str.all is_num tok = true ->
  (Py.float_of_str tok = None
   <-> (1 < Str.count is_point tok \/ Str.any Char.is_digit tok = false)).
Proof.
  intros N A. rewrite <- (parse_decimal_token tok N A).
  unfold Py.float_of_str.
  rewrite (strip_float_id tok) by (exact (all_impl _ _ _ num_not_float_space A)).
  rewrite drop_underscores_id;
    [| reflexivity | exact (all_impl _ _ _ num_not_underscore A)].
  destruct tok as [|c t]; [congruence|].
  simpl in A. apply andb_true_iff in A as [C _].
  rewrite (split_sign_num c t C).
  destruct (not_a_word c t C) as [W1 W2]. cbv zeta in W1, W2. rewrite W1, W2.
  destruct (Py.parse_decimal (String c t)) as [[mant ex]|]; [|tauto].
  split; discriminate.
Qed.

End TokenFacts.

(** ** The Result Extractor *)

Module Extractor.

Import CdFacts.

(** The characters a token is made of: the class [[0-9.]]. *)
Definition digit_or_point (c : ascii) : bool := Char.is_digit c || is_point c.

Lemma digit_or_point_is_num (s : string) :
  Str.all digit_or_point s = Str.all is_num s.
Proof.
  induction s as [|c s IH]; simpl; [reflexivity|].
  unfold digit_or_point at 1. now rewrite <- is_num_spec, IH.
Qed.

Lemma take_digit_or_point (s : string) :
  Str.take_while digit_or_point s = Str.take_while is_num s.
Proof.
  induction s as [|c s IH]; simpl; [reflexivity|].
  unfold digit_or_point at 1. now rewrite <- is_num_spec, IH.
Qed.

(** An occurrence anywhere in the text makes the leftmost search succeed. *)
Lemma first_token_found (pre u : string) :
  token_at u <> None -> first_token (pre ++ u) <> None.
Proof.
  intros H. induction pre as [|c pre IH].
  - simpl. destruct u; cbn [first_token]; destruct (token_at _); congruence.
  - cbn [append first_token].
    destruct (token_at (String c (pre ++ u))); [discriminate | exact IH].
Qed.

Lemma occurrence_found (pre lbl ws : string) (c : ascii) (rest : string) :
  Py.lower_str lbl = Py.lower_str LABEL ->
  Str.all Char.is_space ws = true -> is_num c = true ->
  cd_search (pre ++ lbl ++ ws ++ String c rest) <> None.
Proof.
  intros L W N. rewrite cd_search_first_token.
  assert (first_token (pre ++ lbl ++ ws ++ String c rest) <> None) as F.
  { apply first_token_found.
    pose proof (StrFacts.take_drop_while is_num (String c rest)) as T.
    rewrite <- T.
    rewrite (token_at_complete lbl ws (Str.take_while is_num (String c rest))
               (Str.drop_while is_num (String c rest)) L W).
    - discriminate.
    - simpl. now rewrite N.
    - apply StrFacts.all_take_while.
    - destruct (Str.drop_while is_num (String c rest)) as [|x y] eqn:D; [reflexivity|].
      apply StrFacts.drop_while_head in D. simpl. now rewrite D. }
  destruct (first_token _); [discriminate | congruence].
Qed.

Definition two_points_output : string := "Minimum Drag Coefficient (Cd): 1.2.3".

(** C2 as stated fails: on the output
    [Minimum Drag Coefficient (Cd): 1.2.3] the pattern matches the token
    [1.2.3], which holds two decimal points; the run then ends in the
    value-parse error for that token. *)
Lemma extractor_token_two_points :
  exists m,
    cd_search two_points_output = Some m
    /\ group m = "1.2.3"
    /\ ~ (Str.count is_point (group m) <= 1)
    /\ grade_result (Some two_points_output) = (Py.Int 0, parse_failure "1.2.3").
Proof.
  exists {| Re.group1 := Some "1.2.3"; Re.after := "" |}.
  repeat split; try (vm_compute; reflexivity).
  simpl. lia.
Qed.

(** C2, amended: the Result Extractor searches for the label, compared
    without regard to case, then any whitespace, then the longest
    non-empty run of digits and decimal points, however many points it
    holds.  Without such an occurrence the result is the pattern-not-found
    failure.  With one, [float] rejects the token exactly when it holds
    more than one point or no digit, and the result is then the
    value-parse failure that quotes the token. *)
Theorem extractor_contract (output : string) :
  match cd_search output with
  | None =>
      grade_result (Some output) = (Py.Int 0, NOT_FOUND)
      /\ (forall pre lbl ws c rest,
             output = pre ++ lbl ++ ws ++ String c rest ->
             Py.lower_str lbl = Py.lower_str LABEL ->
             Str.all Char.is_space ws = true ->
             digit_or_point c = false)
  | Some m =>
      (exists pre lbl ws,
          output = pre ++ lbl ++ ws ++ group m ++ Re.after m
          /\ Py.lower_str lbl = Py.lower_str LABEL
          /\ Str.all Char.is_space ws = true)
      /\ group m <> ""
      /\ Str.all digit_or_point (group m) = true
      /\ Str.take_while digit_or_point (Re.after m) = ""
      /\ (Py.float_of_str (group m) = None
          <-> (1 < Str.count is_point (group m)
               \/ Str.any Char.is_digit (group m) = false))
      /\ (Py.float_of_str (group m) = None ->
          grade_result (Some output) = (Py.Int 0, parse_failure (group m)))
  end.
Proof.
  destruct (cd_search output) as [m|] eqn:S.
  - pose proof S as S'. rewrite cd_search_first_token in S'.
    destruct (first_token output) as [[tok rest]|] eqn:F; [|discriminate].
    injection S' as <-. cbn [as_match group Re.group1 Re.after fst snd].
    apply first_token_split in F as (pre & E & T).
    apply token_at_split in T as (lbl & ws & D & L & W & N & A & M).
    split; [|split; [|split; [|split; [|split]]]].
    + exists pre, lbl, ws. rewrite E at 1. now rewrite D.
    + exact N.
    + now rewrite digit_or_point_is_num.
    + now rewrite take_digit_or_point.
    + now apply TokenFacts.float_of_token.
    + intros P. rewrite (grade_result_match _ _ S). unfold grade_token.
      cbn [as_match group Re.group1 fst]. now rewrite P.
  - split.
    + unfold grade_result. now rewrite S.
    + intros pre lbl ws c rest E L W.
      destruct (digit_or_point c) eqn:N; [|reflexivity]. exfalso.
      unfold digit_or_point in N. rewrite <- is_num_spec in N.
      apply (occurrence_found pre lbl ws c rest L W N). now rewrite <- E.
Qed.

(** C8: the match the search returns is the occurrence at the least
    position of the output; and when text is left after it, whatever is
    appended to the output, further occurrences of the pattern included,
    changes neither the match nor the result.  The result is the grade
    of the first match's token: the parse failure that quotes it when
    [float] refuses it, the score and the feedback of its value
    otherwise.  The first match alone decides the value and the score. *)
Theorem first_match_wins (first later : string) (m : Re.match_object) :
  cd_search first = Some m ->
  Re.after m <> "" ->
  (exists i,
      i <= String.length first
      /\ Re.match_at true CD_PATTERN (Str.drop i first) = Some m
      /\ forall j, j < i -> Re.match_at true CD_PATTERN (Str.drop j first) = None)
  /\ cd_search (first ++ later)
     = Some {| Re.group1 := Re.group1 m; Re.after := Re.after m ++ later |}
  /\ grade_result (Some (first ++ later))
     = match Py.float_of_str (group m) with
       | None => (Py.Int 0, parse_failure (group m))
       | Some student_cd => (Py.Float (score_of student_cd), feedback_of student_cd)
       end
  /\ grade_result (Some (first ++ later)) = grade_result (Some first).
Proof.
  intros S R. split; [exact (search_first _ _ _ _ S)|].
  pose proof S as S'. rewrite cd_search_first_token in S'.
  destruct (first_token first) as [[tok rest]|] eqn:F; [|discriminate].
  injection S' as <-. cbn [as_match Re.group1 Re.after fst snd] in *.
  pose proof (first_token_append _ later _ _ F R) as F'.
  split; [|split].
  - now rewrite cd_search_first_token, F'.
  - rewrite grade_result_first_token, F'. reflexivity.
  - now rewrite !grade_result_first_token, F, F'.
Qed.

Definition first_line : string := "Minimum Drag Coefficient (Cd): 0.300353" ++ nl.
Definition second_line : string := "Minimum Drag Coefficient (Cd): 0.9" ++ nl.

(** The feedback of a value printed as the optimum. *)
Definition optimum_feedback : string :=
  "Grading based on the final Drag Coefficient (Cd)." ++ nl
  ++ "Optimal Cd: 0.300353" ++ nl
  ++ "Your Cd: 0.300353" ++ nl
  ++ "Error: 0.00%" ++ nl
  ++ "Score: 10.0/10".

(** Two lines with different values: the first decides, and the grade is
    that of 0.300353, not that of 0.9. *)
Lemma first_match_wins_witness :
  cd_search (first_line ++ second_line)
  = Some {| Re.group1 := Some "0.300353"; Re.after := nl ++ second_line |}
  /\ grade_result (Some (first_line ++ second_line)) = (Py.Float 10.0, optimum_feedback).
Proof.
  destruct (first_match_wins first_line second_line
              {| Re.group1 := Some "0.300353"; Re.after := nl |}) as (_ & S & G & _).
  - vm_compute. reflexivity.
  - discriminate.
  - split; [exact S|]. rewrite G. vm_compute. reflexivity.
Defined.

(** C10: the search is not tied to a line.  Wherever the label stands
    (no occurrence starting before it), in whatever case, and whatever
    whitespace follows it, newlines included, the run of digits and
    points after that whitespace is the match, and it is scored: the
    result is the parse failure that quotes the token when [float]
    refuses it, the score and the feedback of its value otherwise, as
    if the token had been printed right after the label. *)
Theorem label_unanchored (pre lbl ws tok rest : string) :
  (forall j, j < String.length pre ->
             Re.match_at true CD_PATTERN (Str.drop j (pre ++ lbl ++ ws ++ tok ++ rest)) = None) ->
  Py.lower_str lbl = Py.lower_str LABEL ->
  Str.all Char.is_space ws = true ->
  tok <> "" ->
  Str.all digit_or_point tok = true ->
  Str.take_while digit_or_point rest = "" ->
  cd_search (pre ++ lbl ++ ws ++ tok ++ rest)
  = Some {| Re.group1 := Some tok; Re.after := rest |}
  /\ grade_result (Some (pre ++ lbl ++ ws ++ tok ++ rest))
     = match Py.float_of_str tok with
       | None => (Py.Int 0, parse_failure tok)
       | Some student_cd => (Py.Float (score_of student_cd), feedback_of student_cd)
       end
  /\ grade_result (Some (pre ++ lbl ++ ws ++ tok ++ rest))
     = grade_result (Some (LABEL ++ tok)).
Proof.
  intros E L W N A M.
  rewrite digit_or_point_is_num in A. rewrite take_digit_or_point in M.
  assert (cd_search (pre ++ lbl ++ ws ++ tok ++ rest)
          = Some {| Re.group1 := Some tok; Re.after := rest |}) as S.
  { unfold cd_search. apply search_leftmost; [exact E|].
    rewrite match_at_token, (token_at_complete lbl ws tok rest L W N A M).
    reflexivity. }
  split; [exact S|].
  rewrite (grade_result_match _ _ S). cbn [group Re.group1].
  split; [reflexivity|].
  assert (cd_search (LABEL ++ tok) = Some {| Re.group1 := Some tok; Re.after := "" |}) as S0.
  { unfold cd_search.
    pose proof (search_leftmost true CD_PATTERN "" (LABEL ++ tok)) as P.
    cbn [append] in P. apply P; [intros j Hj; simpl in Hj; lia|].
    rewrite match_at_token.
    pose proof (token_at_complete LABEL "" tok "" eq_refl eq_refl N A eq_refl) as T.
    cbn [append] in T. rewrite StrFacts.append_empty_r in T.
    rewrite T. reflexivity. }
  now rewrite (grade_result_match _ _ S0).
Qed.

Definition next_line_output : string :=
  "Result >> minimum drag coefficient (CD):" ++ nl ++ "   0.300353 [-]" ++ nl.

Lemma label_unanchored_witness :
  cd_search next_line_output
  = Some {| Re.group1 := Some "0.300353"; Re.after := " [-]" ++ nl |}
  /\ grade_result (Some next_line_output) = (Py.Float 10.0, optimum_feedback).
Proof.
  destruct (label_unanchored "Result >> " "minimum drag coefficient (CD):"
              (nl ++ "   ") "0.300353" (" [-]" ++ nl)) as (S & G & _).
  - intros j Hj.
    do 10 (destruct j as [|j]; [vm_compute; reflexivity|]).
    simpl in Hj. lia.
  - reflexivity.
  - reflexivity.
  - discriminate.
  - reflexivity.
  - reflexivity.
  - split; [exact S|]. etransitivity; [exact G|]. vm_compute. reflexivity.
Defined.

End Extractor.

(** ** The Notebook Loader *)

Module Loader.

Definition is_code (c : cell) : bool := String.eqb (cell_type c) "code".

(** The fragment sequence: the sources of the code cells, in document
    order. *)
Definition code_sources (nb : notebook) : list string :=
  map source (filter is_code (cells nb)).

(** The executable unit as the specification words it: the fragments
    joined with a newline between neighbours. *)
Definition joined_sources (nb : notebook) : string :=
  String.concat nl (code_sources nb).

(** Every code cell is blank: nothing but whitespace, so empty once
    stripped.  A notebook without code cells satisfies this vacuously. *)
Definition all_code_blank (nb : notebook) : Prop :=
  forall c, In c (cells nb) -> cell_type c = "code" -> Str.strip (source c) = "".

Lemma fold_code (cs : list cell) (acc : string) :
  fold_left
    (fun acc cell =>
       if String.eqb (cell_type cell) "code" then acc ++ (source cell ++ nl) else acc)
    cs acc
  = acc ++ String.concat "" (map (fun s => s ++ nl) (map source (filter is_code cs))).
Proof.
  revert acc. induction cs as [|c cs IH]; intros acc; simpl.
  - now rewrite StrFacts.append_empty_r.
  - rewrite IH. unfold is_code at 2.
    destruct (String.eqb (cell_type c) "code"); [|reflexivity].
    cbn [map]. set (rest := map (fun s => s ++ nl) (map source (filter is_code cs))).
    rewrite StrFacts.append_assoc. f_equal.
    destruct rest as [|r rest']; simpl.
    + now rewrite StrFacts.append_empty_r.
    + reflexivity.
Qed.

(** [full_code] is each fragment followed by a newline. *)
Lemma full_code_terminated (nb : notebook) :
  full_code nb = String.concat "" (map (fun s => s ++ nl) (code_sources nb)).
Proof. unfold full_code. now rewrite fold_code. Qed.

Lemma terminated_joined (l : list string) :
  l <> [] ->
  String.concat "" (map (fun s => s ++ nl) l) = String.concat nl l ++ nl.
Proof.
  induction l as [|x l IH]; [congruence|]. intros _.
  destruct l as [|y l].
  - reflexivity.
  - cbn [map String.concat] in *. rewrite IH by discriminate.
    now rewrite !StrFacts.append_assoc.
Qed.

Definition one_cell : notebook :=
  {| cells := [ {| cell_type := "code"; source := "x = 1" |} ] |}.

(** C6 as stated fails: for a notebook with the single code cell [x = 1]
    the executable unit is [x = 1] followed by a newline, which is not
    the fragments joined with newlines between them. *)
Lemma full_code_not_joined : full_code one_cell <> joined_sources one_cell.
Proof. vm_compute. discriminate. Qed.

(** C6, amended: the executable unit is the source text of the code
    cells only, in document order, each followed by a newline: the
    newline-joined fragments plus one closing newline when the notebook
    has a code cell, and the empty text when it has none.  It is the
    program handed to the interpreter. *)
Theorem full_code_spec (nb : notebook) :
  full_code nb = String.concat "" (map (fun s => s ++ nl) (code_sources nb))
  /\ full_code nb = match code_sources nb with
                    | [] => ""
                    | _ :: _ => joined_sources nb ++ nl
                    end
  /\ forall w path,
       read_notebook w path = ReadOk nb ->
       Str.is_empty (Str.strip (full_code nb)) = false ->
       execute_notebook w path
       = match subprocess_run w [sys_executable w; "-c"; full_code nb] 240 with
         | Completed returncode stdout stderr =>
             if (returncode =? 0)%Z then (Some stdout, None)
             else (None, Some ("Code execution failed with an error:" ++ nl ++ stderr))
         | TimeoutExpired => (None, Some "Code execution timed out after 4 minutes.")
         | RunError e => (None, Some ("An unexpected error occurred during execution: " ++ e))
         end.
Proof.
  split; [apply full_code_terminated|]. split.
  - rewrite full_code_terminated. unfold joined_sources.
    destruct (code_sources nb) as [|x l] eqn:E; [reflexivity|].
    apply terminated_joined. discriminate.
  - intros w path R B. unfold execute_notebook. rewrite R. cbv zeta. rewrite B.
    destruct (subprocess_run w _ 240) as [rc out err| |e]; try reflexivity.
    destruct (rc =? 0)%Z; reflexivity.
Qed.

(** Blank code, in terms of the cells. *)
Lemma all_space_concat (l : list string) :
  Str.all Char.is_space (String.concat "" (map (fun s => s ++ nl) l))
  = forallb (Str.all Char.is_space) l.
Proof.
  induction l as [|x l IH]; [reflexivity|].
  cbn [map forallb]. rewrite <- IH.
  assert (forall t, Str.all Char.is_space ((x ++ nl) ++ t)
                    = Str.all Char.is_space x && Str.all Char.is_space t) as P.
  { intros t. rewrite !StrFacts.all_append. cbn. now rewrite andb_true_r. }
  destruct (map (fun s => s ++ nl) l) as [|y r]; cbn [String.concat].
  - rewrite <- (StrFacts.append_empty_r (x ++ nl)). apply P.
  - change (String.concat "" (y :: r)) with (String.concat "" (y :: r)). apply P.
Qed.

Lemma blank_code_iff (nb : notebook) :
  Str.is_empty (Str.strip (full_code nb)) = true <-> all_code_blank nb.
Proof.
  rewrite StrFacts.strip_empty_iff, full_code_terminated, all_space_concat.
  unfold code_sources, all_code_blank. rewrite forallb_forall. split.
  - intros H c I T.
    assert (Str.all Char.is_space (source c) = true) as A.
    { apply H, in_map, filter_In. split; [exact I|].
      unfold is_code. now rewrite T. }
    rewrite <- StrFacts.strip_empty_iff in A.
    destruct (Str.strip (source c)); [reflexivity | discriminate].
  - intros H s I. apply in_map_iff in I as (c & <- & I).
    apply filter_In in I as [I T]. unfold is_code in T. apply String.eqb_eq in T.
    rewrite <- StrFacts.strip_empty_iff, (H c I T). reflexivity.
Qed.

(** C7: when the document cannot be read or parsed, the Loader fails
    with the read error that carries the cause; when it can, the Loader
    fails with the empty-code error exactly when every code cell is
    blank after stripping whitespace (in particular when there is no
    code cell). *)
Theorem loader_failures (w : world) (path : string) :
  match read_notebook w path with
  | ReadError cause =>
      execute_notebook w path = (None, Some ("Error reading notebook file: " ++ cause))
  | ReadOk nb =>
      all_code_blank nb
      <-> execute_notebook w path = (None, Some "No code found in the notebook.")
  end.
Proof.
  unfold execute_notebook.
  destruct (read_notebook w path) as [nb|cause]; [|reflexivity]. cbv zeta.
  rewrite <- blank_code_iff.
  destruct (Str.is_empty (Str.strip (full_code nb))); [tauto|].
  split; [discriminate|].
  destruct (subprocess_run w _ 240) as [rc out err| |e].
  - destruct (negb (rc =? 0)%Z); intros H; [injection H as H | discriminate H].
    discriminate H.
  - intros H. injection H as H. discriminate H.
  - intros H. injection H as H. discriminate H.
Qed.

End Loader.

(** ** The Code Executor *)

Module Executor.

(** The program was loaded and is not blank, so the subprocess is run. *)
Definition loaded (w : world) (path : string) (nb : notebook) : Prop :=
  read_notebook w path = ReadOk nb
  /\ Str.is_empty (Str.strip (full_code nb)) = false.

(** The one query [execute_notebook] puts to the subprocess. *)
Definition run_of (w : world) (nb : notebook) : run_result :=
  subprocess_run w [sys_executable w; "-c"; full_code nb] 240.

Lemma execute_loaded (w : world) (path : string) (nb : notebook) :
  loaded w path nb ->
  execute_notebook w path
  = match run_of w nb with
    | Completed returncode stdout stderr =>
        if (returncode =? 0)%Z then (Some stdout, None)
        else (None, Some ("Code execution failed with an error:" ++ nl ++ stderr))
    | TimeoutExpired => (None, Some "Code execution timed out after 4 minutes.")
    | RunError e => (None, Some ("An unexpected error occurred during execution: " ++ e))
    end.
Proof.
  intros [R B]. unfold execute_notebook, run_of. rewrite R. cbv zeta. rewrite B.
  destruct (subprocess_run w _ 240) as [rc out err| |e]; try reflexivity.
  destruct (rc =? 0)%Z; reflexivity.
Qed.

(** Every result is an output without a message, or a non-empty message
    without an output. *)
Lemma execute_cases (w : world) (path : string) :
  (exists out, execute_notebook w path = (Some out, None))
  \/ (exists c msg, execute_notebook w path = (None, Some (String c msg))).
Proof.
  unfold execute_notebook.
  destruct (read_notebook w path) as [nb|cause]; [|right; now eexists _, _].
  cbv zeta. destruct (Str.is_empty _); [right; now eexists _, _|].
  destruct (subprocess_run w _ 240) as [rc out err| |e].
  - destruct (negb (rc =? 0)%Z); [right; now eexists _, _ | left; now eexists].
  - right; now eexists _, _.
  - right; now eexists _, _.
Qed.

(** C4: [execute_notebook] returns an output exactly when the subprocess
    ran to completion with exit code zero, and the output is then the
    captured standard output as it is; on a non-zero exit code it returns
    no output and the execution error that carries the captured standard
    error. *)
Theorem output_iff_zero_exit (w : world) (path : string) :
  (forall out,
      fst (execute_notebook w path) = Some out
      <-> exists nb stderr, loaded w path nb /\ run_of w nb = Completed 0 out stderr)
  /\ (forall nb returncode stdout stderr,
         loaded w path nb ->
         run_of w nb = Completed returncode stdout stderr ->
         returncode <> 0%Z ->
         execute_notebook w path
         = (None, Some ("Code execution failed with an error:" ++ nl ++ stderr))).
Proof.
  split.
  - intros out. split.
    + unfold execute_notebook.
      destruct (read_notebook w path) as [nb|cause] eqn:R; [|discriminate].
      cbv zeta. destruct (Str.is_empty _) eqn:B; [discriminate|].
      destruct (subprocess_run w _ 240) as [rc o err| |e] eqn:P; try discriminate.
      destruct (rc =? 0)%Z eqn:Z; [|discriminate]. cbn.
      intros [= ->]. apply Z.eqb_eq in Z. subst rc.
      exists nb, err. now repeat split.
    + intros (nb & err & L & P). rewrite (execute_loaded _ _ _ L), P. reflexivity.
  - intros nb rc out err L P Z. rewrite (execute_loaded _ _ _ L), P.
    apply Z.eqb_neq in Z. now rewrite Z.
Qed.

Definition sample_notebook : notebook :=
  {| cells := [ {| cell_type := "markdown"; source := "# Spoiler" |};
                {| cell_type := "code"; source := "import ea" |};
                {| cell_type := "code"; source := "ea.run()" |} ] |}.

(** A world whose subprocess dies with exit code 1 and a traceback. *)
Definition crashing_world : world :=
  {| read_notebook := fun _ => ReadOk sample_notebook;
     sys_executable := "/usr/bin/python3";
     subprocess_run := fun _ _ => Completed 1 "partial" "NameError: name 'ea' is not defined" |}.

Lemma output_iff_zero_exit_witness :
  execute_notebook crashing_world NOTEBOOK_PATH
  = (None, Some ("Code execution failed with an error:" ++ nl
                 ++ "NameError: name 'ea' is not defined")).
Proof.
  apply (proj2 (output_iff_zero_exit crashing_world NOTEBOOK_PATH)
           sample_notebook 1%Z "partial").
  - split; reflexivity.
  - reflexivity.
  - discriminate.
Defined.

(** C5: the code is run under the timeout of 240 seconds.  For a
    loaded notebook the result of [execute_notebook] is read off the
    answer of the one run of the interpreter on the concatenated code
    with timeout 240: its output on exit code zero, the execution error
    on another exit code, the fixed four-minute message when the run
    times out, the unexpected-error message otherwise.  The four-minute
    message is returned exactly when that run times out, and the report
    of [main] then carries it with score 0. *)
Theorem timeout_four_minutes (w : world) (nb : notebook) :
  loaded w NOTEBOOK_PATH nb ->
  execute_notebook w NOTEBOOK_PATH
  = match subprocess_run w [sys_executable w; "-c"; full_code nb] 240 with
    | Completed returncode stdout stderr =>
        if (returncode =? 0)%Z then (Some stdout, None)
        else (None, Some ("Code execution failed with an error:" ++ nl ++ stderr))
    | TimeoutExpired => (None, Some "Code execution timed out after 4 minutes.")
    | RunError e => (None, Some ("An unexpected error occurred during execution: " ++ e))
    end
  /\ (subprocess_run w [sys_executable w; "-c"; full_code nb] 240 = TimeoutExpired
      <-> execute_notebook w NOTEBOOK_PATH
          = (None, Some "Code execution timed out after 4 minutes."))
  /\ (subprocess_run w [sys_executable w; "-c"; full_code nb] 240 = TimeoutExpired ->
      main w
      = Json.dumps (test_result (Py.Int 0) "Code execution timed out after 4 minutes.") ++ nl).
Proof.
  intros L. pose proof (execute_loaded _ _ _ L) as E. unfold run_of in E.
  split; [exact E|]. split; [split|].
  - intros T. now rewrite E, T.
  - rewrite E.
    destruct (subprocess_run w _ 240) as [rc out err| |e]; [|reflexivity|discriminate].
    destruct (rc =? 0)%Z; discriminate.
  - intros T. unfold main, verdict. rewrite E, T. reflexivity.
Qed.

(** A world whose subprocess never finishes in time. *)
Definition hanging_world : world :=
  {| read_notebook := fun _ => ReadOk sample_notebook;
     sys_executable := "/usr/bin/python3";
     subprocess_run := fun _ t => if (t =? 240)%Z then TimeoutExpired else Completed 0 "" "" |}.

Lemma timeout_four_minutes_witness :
  execute_notebook hanging_world NOTEBOOK_PATH
  = (None, Some "Code execution timed out after 4 minutes.")
  /\ main hanging_world
     = Json.dumps (test_result (Py.Int 0) "Code execution timed out after 4 minutes.") ++ nl.
Proof.
  destruct (timeout_four_minutes hanging_world sample_notebook) as (_ & T & M).
  - split; reflexivity.
  - split; [apply T; reflexivity | apply M; reflexivity].
Defined.

End Executor.

(** ** The Report Emitter *)

Module Report.

(** The line [main] prints for a score and a feedback text. *)
Definition report_line (score : Py.number) (feedback : string) : string :=
  Json.dumps
    (Json.Obj
       [("tests",
         Json.Arr
           [Json.Obj
              [("name", Json.Str "Spoiler Optimization Autograding");
               ("score", Json.Num score);
               ("max_score", Json.Num (Py.Int 10));
               ("output", Json.Str feedback)]])])
  ++ nl.

(** C3: whatever the world does, [main] prints exactly one line, the
    JSON document with the one key [tests] holding a list of one object
    with the keys [name], [score], [max_score] and [output], in which
    [max_score] is 10.  When the executor failed, the score is 0 and the
    output is its reason; when the pattern was not found or the token
    did not parse, the score is 0 and the output is that stage's reason;
    otherwise score and output are the Scorer's. *)
Theorem main_report (w : world) :
  match execute_notebook w NOTEBOOK_PATH with
  | (Some output, None) =>
      match cd_search output with
      | None => main w = report_line (Py.Int 0) NOT_FOUND
      | Some m =>
          match Py.float_of_str (group m) with
          | None => main w = report_line (Py.Int 0) (parse_failure (group m))
          | Some student_cd =>
              main w = report_line (Py.Float (score_of student_cd)) (feedback_of student_cd)
          end
      end
  | (None, Some reason) => main w = report_line (Py.Int 0) reason
  | _ => False
  end.
Proof.
  unfold main, verdict.
  destruct (Executor.execute_cases w NOTEBOOK_PATH) as [[out E]|(c & msg & E)]; rewrite E.
  - cbn [truthy]. unfold grade_result.
    destruct (cd_search out) as [m|]; [|reflexivity].
    destruct (Py.float_of_str (group m)); reflexivity.
  - reflexivity.
Qed.

End Report.

(** ** Order on floats

    The comparisons of binary64 are specified through [SFcompare]; what
    the Scorer needs from them is that its three branches exclude one
    another. *)

Module FloatOrder.

Local Open Scope float_scope.

Lemma compare_cont_flip (p q : positive) :
  Pos.compare_cont Eq q p = CompOpp (Pos.compare_cont Eq p q).
Proof. change (Pos.compare_cont Eq q p) with (Pos.compare q p).
       change (Pos.compare_cont Eq p q) with (Pos.compare p q).
       apply Pos.compare_antisym. Qed.

(** Swapping the arguments of a comparison flips its outcome. *)
Lemma SFcompare_flip (x y : spec_float) :
  SFcompare y x = option_map CompOpp (SFcompare x y).
Proof.
  destruct x as [sx|sx| |sx mx ex], y as [sy|sy| |sy my ey]; cbn;
    try reflexivity; try (destruct sx; reflexivity); try (destruct sy; reflexivity);
    try (destruct sx, sy; reflexivity).
  rewrite (Z.compare_antisym ex ey), (compare_cont_flip mx my).
  destruct sx, sy, (ex ?= ey)%Z, (Pos.compare_cont Eq mx my); reflexivity.
Qed.

Lemma ltb_flip (x y : float) : (x <? y) = true -> (y <=? x) = false.
Proof.
  rewrite ltb_spec, leb_spec. unfold SFltb, SFleb.
  rewrite (SFcompare_flip (Prim2SF x) (Prim2SF y)).
  destruct (SFcompare (Prim2SF x) (Prim2SF y)) as [[]|]; cbn; congruence.
Qed.

Lemma leb_flip (x y : float) : (x <=? y) = true -> (y <? x) = false.
Proof.
  rewrite ltb_spec, leb_spec. unfold SFltb, SFleb.
  rewrite (SFcompare_flip (Prim2SF x) (Prim2SF y)).
  destruct (SFcompare (Prim2SF x) (Prim2SF y)) as [[]|]; cbn; congruence.
Qed.

(** Whatever is at least 1.0 is above the tolerance. *)
Lemma above_one_above_tolerance (x : float) :
  (1.0 <=? x) = true -> (x <=? TOLERANCE) = false.
Proof.
  rewrite !leb_spec. unfold SFleb, SFcompare.
  change (Prim2SF 1.0) with (S754_finite false 4503599627370496 (-52)).
  change (Prim2SF TOLERANCE) with (S754_finite false 7205759403792794 (-56)).
  destruct (Prim2SF x) as [s|s| |s m e]; cbv iota beta;
    try (intros H; discriminate H).
  - destruct s; [intros H; discriminate H | reflexivity].
  - destruct s; [intros H; discriminate H|].
    destruct (Z.compare_spec (-52) e) as [E|E|E].
    + subst e. intros _. reflexivity.
    + intros _. assert ((e ?= -56)%Z = Gt) as -> by (apply Z.compare_gt_iff; lia).
      reflexivity.
    + intros H; discriminate H.
Qed.

End FloatOrder.

(** ** Binary64 rounding

    What is needed of the specification of the float operations: the
    result of rounding a positive number does not exceed a representable
    number the exact value lies strictly below.  Mantissas and exponents
    are integers throughout; [dle] compares two dyadic numbers. *)

Module Binary64.

Local Open Scope Z_scope.

Definition fexp64 (e : Z) : Z := Z.max (e - 53) (-1074).

Lemma fexp_eq (e : Z) : fexp prec emax e = fexp64 e.
Proof. reflexivity. Qed.

(** *** Number of binary digits *)

Lemma digits2_bounds (m : positive) :
  2 ^ (Zpos (digits2_pos m) - 1) <= Zpos m < 2 ^ Zpos (digits2_pos m).
Proof.
  induction m as [m IH|m IH|]; cbn [digits2_pos].
  - rewrite Pos2Z.inj_succ. change (Zpos m~1) with (2 * Zpos m + 1).
    replace (Z.succ (Zpos (digits2_pos m)) - 1) with (Z.succ (Zpos (digits2_pos m) - 1)) by lia.
    rewrite !Z.pow_succ_r by lia.
    set (a := 2 ^ (Zpos (digits2_pos m) - 1)) in *. set (b := 2 ^ Zpos (digits2_pos m)) in *.
    clearbody a b. lia.
  - rewrite Pos2Z.inj_succ. change (Zpos m~0) with (2 * Zpos m).
    replace (Z.succ (Zpos (digits2_pos m)) - 1) with (Z.succ (Zpos (digits2_pos m) - 1)) by lia.
    rewrite !Z.pow_succ_r by lia.
    set (a := 2 ^ (Zpos (digits2_pos m) - 1)) in *. set (b := 2 ^ Zpos (digits2_pos m)) in *.
    clearbody a b. lia.
  - cbn. lia.
Qed.

Lemma digits2_pos_pos (m : positive) : 0 < Zpos (digits2_pos m).
Proof. lia. Qed.

(** A number below [2^k] has at most [k] digits. *)
Lemma Zdigits2_le (m k : Z) : 0 <= m -> 0 <= k -> m < 2 ^ k -> Zdigits2 m <= k.
Proof.
  intros M K H. destruct m as [|p|p]; [simpl; lia| |lia].
  cbn [Zdigits2]. pose proof (digits2_bounds p) as [L _].
  destruct (Z_le_gt_dec (Zpos (digits2_pos p)) k) as [|G]; [assumption|exfalso].
  assert (2 ^ k <= 2 ^ (Zpos (digits2_pos p) - 1)) by (apply Z.pow_le_mono_r; lia).
  lia.
Qed.

(** *** Shifting right is integer division *)

Lemma shr_1_m (mrs : shr_record) :
  0 <= shr_m mrs -> shr_m (shr_1 mrs) = shr_m mrs / 2 /\ 0 <= shr_m (shr_1 mrs).
Proof.
  destruct mrs as [m r s]. cbn [shr_m]. intros M.
  destruct m as [|[p|p|]|p]; cbn [shr_1 shr_m]; try lia.
  - split; [reflexivity | lia].
  - split; [|lia]. change (Zpos p~1) with (2 * Zpos p + 1).
    apply (Z.div_unique _ _ _ 1); lia.
  - split; [|lia]. change (Zpos p~0) with (2 * Zpos p).
    apply (Z.div_unique _ _ _ 0); lia.
  - split; [reflexivity | lia].
Qed.

Lemma iter_shr_m (p : positive) (mrs : shr_record) :
  0 <= shr_m mrs ->
  shr_m (iter_pos shr_1 p mrs) = shr_m mrs / 2 ^ Zpos p
  /\ 0 <= shr_m (iter_pos shr_1 p mrs).
Proof.
  revert mrs. induction p as [p IH|p IH|]; intros mrs M; cbn [iter_pos].
  - destruct (shr_1_m mrs M) as [E1 P1].
    destruct (IH _ P1) as [E2 P2]. destruct (IH _ P2) as [E3 P3].
    split; [|exact P3]. rewrite E3, E2, E1.
    rewrite !Z.div_div by lia. f_equal.
    change (Zpos p~1) with (2 * Zpos p + 1).
    replace (2 * Zpos p + 1) with (1 + Zpos p + Zpos p) by lia.
    rewrite !Z.pow_add_r by lia. lia.
  - destruct (IH _ M) as [E2 P2]. destruct (IH _ P2) as [E3 P3].
    split; [|exact P3]. rewrite E3, E2.
    rewrite !Z.div_div by lia. f_equal.
    change (Zpos p~0) with (2 * Zpos p).
    replace (2 * Zpos p) with (Zpos p + Zpos p) by lia.
    rewrite !Z.pow_add_r by lia. lia.
  - destruct (shr_1_m mrs M) as [E1 P1]. split; [exact E1 | exact P1].
Qed.

Lemma shr_record_of_loc_m (m : Z) (l : location) : shr_m (shr_record_of_loc m l) = m.
Proof. destruct l as [|[]]; reflexivity. Qed.

(** [shr_fexp] brings the exponent up to the one the format asks for and
    divides the mantissa accordingly. *)
Lemma shr_fexp_floor (m e : Z) (l : location) :
  0 <= m ->
  let e' := Z.max e (fexp64 (Zdigits2 m + e)) in
  snd (shr_fexp prec emax m e l) = e'
  /\ shr_m (fst (shr_fexp prec emax m e l)) = m / 2 ^ (e' - e).
Proof.
  intros M e'. unfold shr_fexp, shr. rewrite fexp_eq. subst e'.
  destruct (fexp64 (Zdigits2 m + e) - e) as [|p|p] eqn:N; cbn [fst snd].
  - rewrite shr_record_of_loc_m. replace (Z.max e _ - e) with 0 by lia.
    split; [lia|]. now rewrite Z.div_1_r.
  - destruct (iter_shr_m p (shr_record_of_loc m l)) as [E _];
      [now rewrite shr_record_of_loc_m|].
    rewrite E, shr_record_of_loc_m.
    replace (Z.max e _ - e) with (Zpos p) by lia. split; [lia | reflexivity].
  - rewrite shr_record_of_loc_m. replace (Z.max e _ - e) with 0 by lia.
    split; [lia|]. now rewrite Z.div_1_r.
Qed.

Lemma round_nearest_even_cases (m : Z) (l : location) :
  round_nearest_even m l = m \/ round_nearest_even m l = m + 1.
Proof. destruct l as [|[]]; cbn; auto. destruct (Z.even m); auto. Qed.


(** *** Dyadic numbers and their order *)

(** [m1 * 2^e1 <= m2 * 2^e2]. *)
Definition dle (m1 e1 m2 e2 : Z) : Prop :=
  m1 * 2 ^ (e1 - Z.min e1 e2) <= m2 * 2 ^ (e2 - Z.min e1 e2).

Lemma pow2_pos (k : Z) : 0 <= k -> 0 < 2 ^ k.
Proof. intros K. apply Z.pow_pos_nonneg; lia. Qed.

Lemma pow2_split (a b : Z) : 0 <= a -> 0 <= b -> 2 ^ (a + b) = 2 ^ a * 2 ^ b.
Proof. intros A B. apply Z.pow_add_r; assumption. Qed.

(** The order can be read at any exponent below both. *)
Lemma dle_at (c m1 e1 m2 e2 : Z) :
  c <= e1 -> c <= e2 ->
  (dle m1 e1 m2 e2 <-> m1 * 2 ^ (e1 - c) <= m2 * 2 ^ (e2 - c)).
Proof.
  intros C1 C2. unfold dle. set (k := Z.min e1 e2).
  replace (e1 - c) with ((e1 - k) + (k - c)) by lia.
  replace (e2 - c) with ((e2 - k) + (k - c)) by lia.
  rewrite !pow2_split by lia. rewrite !Z.mul_assoc.
  pose proof (pow2_pos (k - c) ltac:(lia)) as P.
  split; intros H.
  - apply Z.mul_le_mono_nonneg_r; [lia | exact H].
  - apply Z.mul_le_mono_pos_r in H; [exact H | exact P].
Qed.

(** A float that is +0 or a positive number at most [mb * 2^eb]. *)
Definition below (x : spec_float) (mb eb : Z) : Prop :=
  match x with
  | S754_zero s => s = false
  | S754_finite s m e => s = false /\ dle (Zpos m) e mb eb
  | _ => False
  end.

(** *** Rounding stays below a representable bound *)

Lemma binary_round_aux_below (mx ex : Z) (lx : location) (mb eb : Z) :
  0 < mx -> ex <= eb -> -1074 <= eb <= 971 -> mb < 2 ^ 53 ->
  mx + 1 <= mb * 2 ^ (eb - ex) ->
  below (binary_round_aux prec emax false mx ex lx) mb eb.
Proof.
  intros Mx Ex Eb Mb H.
  pose proof (pow2_pos (eb - ex) ltac:(lia)) as Pex.
  assert (0 < mb) as Mb0 by nia.
  (* the exponent the format asks for does not exceed [eb] *)
  assert (Zdigits2 mx + ex <= 53 + eb) as D1.
  { assert (Zdigits2 mx <= 53 + (eb - ex)); [|lia].
    apply Zdigits2_le; [lia | lia |].
    rewrite pow2_split by lia.
    pose proof (pow2_pos 53 ltac:(lia)). nia. }
  set (e1 := Z.max ex (fexp64 (Zdigits2 mx + ex))).
  assert (ex <= e1 <= eb) as E1 by (unfold e1, fexp64; lia).
  pose proof (shr_fexp_floor mx ex lx ltac:(lia)) as [S1 S2]. fold e1 in S1, S2.
  unfold binary_round_aux.
  destruct (shr_fexp prec emax mx ex lx) as [mrs' e'] eqn:Q1. cbn [fst snd] in S1, S2.
  subst e'. set (m1 := shr_m mrs') in *.
  set (K := mb * 2 ^ (eb - e1)).
  pose proof (pow2_pos (e1 - ex) ltac:(lia)) as P1.
  pose proof (pow2_pos (eb - e1) ltac:(lia)) as P2.
  assert (mb * 2 ^ (eb - ex) = K * 2 ^ (e1 - ex)) as HK.
  { unfold K. replace (eb - ex) with ((eb - e1) + (e1 - ex)) by lia.
    rewrite pow2_split by lia. ring. }
  assert (0 <= m1 < K) as M1.
  { rewrite S2. split; [apply Z.div_pos; lia|].
    apply Z.div_lt_upper_bound; [lia|]. rewrite HK in H. lia. }
  set (m2 := round_nearest_even m1 (loc_of_shr_record mrs')).
  assert (0 <= m2 <= K) as M2.
  { unfold m2. destruct (round_nearest_even_cases m1 (loc_of_shr_record mrs')) as [->| ->]; lia. }
  pose proof (shr_fexp_floor m2 e1 loc_Exact ltac:(lia)) as [T1 T2].
  destruct (shr_fexp prec emax m2 e1 loc_Exact) as [mrs'' e''] eqn:Q2. cbn [fst snd] in T1, T2.
  assert (Zdigits2 m2 + e1 <= 53 + eb) as D2.
  { assert (Zdigits2 m2 <= 53 + (eb - e1)); [|lia].
    apply Zdigits2_le; [lia | lia |].
    rewrite pow2_split by lia. pose proof (pow2_pos 53 ltac:(lia)). unfold K in M2. nia. }
  assert (e1 <= e'' <= eb) as E2 by (rewrite T1; unfold fexp64; lia).
  pose proof (pow2_pos (e'' - e1) ltac:(lia)) as P3.
  assert (shr_m mrs'' * 2 ^ (e'' - e1) <= m2) as M3.
  { rewrite T2, <- T1, Z.mul_comm. apply Z.mul_div_le. exact P3. }
  assert (0 <= shr_m mrs'') as M3p.
  { rewrite T2. apply Z.div_pos; [lia|]. rewrite <- T1. exact P3. }
  destruct (shr_m mrs'') as [|m|m]; [reflexivity| |lia].
  replace (e'' <=? emax - prec) with true
    by (symmetry; apply Z.leb_le; change (emax - prec) with 971; lia).
  split; [reflexivity|].
  apply (dle_at e1); [lia | lia |]. fold K. lia.
Qed.

Lemma iter_xO (p : positive) (d : positive) :
  Zpos (Pos.iter xO p d) = Zpos p * 2 ^ Zpos d.
Proof.
  induction d as [|d IH] using Pos.peano_ind.
  - cbn [Pos.iter]. change (2 ^ 1) with 2. lia.
  - rewrite Pos.iter_succ, Pos2Z.inj_succ, Z.pow_succ_r by lia.
    change (Zpos (Pos.iter xO p d)~0) with (2 * Zpos (Pos.iter xO p d)).
    rewrite IH. ring.
Qed.

Lemma shl_align_spec (mx : positive) (ex ex' : Z) :
  snd (shl_align mx ex ex') = Z.min ex ex'
  /\ Zpos (fst (shl_align mx ex ex')) = Zpos mx * 2 ^ (ex - Z.min ex ex').
Proof.
  unfold shl_align. destruct (ex' - ex) as [|d|d] eqn:D; cbn [fst snd].
  - replace (Z.min ex ex') with ex by lia. rewrite Z.sub_diag. split; [reflexivity | lia].
  - replace (Z.min ex ex') with ex by lia. rewrite Z.sub_diag. split; [reflexivity | lia].
  - replace (Z.min ex ex') with ex' by lia. split; [reflexivity|].
    rewrite iter_xO. f_equal. f_equal. lia.
Qed.

Lemma binary_round_below (mx : positive) (ex mb eb : Z) :
  ex <= eb -> -1074 <= eb <= 971 -> mb < 2 ^ 53 ->
  Zpos mx + 1 <= mb * 2 ^ (eb - ex) ->
  below (binary_round prec emax false mx ex) mb eb.
Proof.
  intros Ex Eb Mb H. unfold binary_round.
  pose proof (shl_align_spec mx ex (fexp prec emax (Zpos (digits2_pos mx) + ex))) as [A1 A2].
  destruct (shl_align mx ex _) as [mz ez]. cbn [fst snd] in A1, A2.
  assert (ez <= ex) as Ez by lia.
  rewrite <- A1 in A2.
  apply binary_round_aux_below; try lia.
  rewrite A2.
  replace (eb - ez) with ((eb - ex) + (ex - ez)) by lia.
  rewrite pow2_split by lia.
  pose proof (pow2_pos (ex - ez) ltac:(lia)).
  pose proof (pow2_pos (eb - ex) ltac:(lia)).
  set (a := 2 ^ (ex - ez)) in *. set (b := 2 ^ (eb - ex)) in *. clearbody a b.
  assert ((Zpos mx + 1) * a <= mb * b * a) by (apply Z.mul_le_mono_nonneg_r; lia).
  nia.
Qed.


(** *** Canonical floats *)

Lemma valid_finite (x : float) (s : bool) (m : positive) (e : Z) :
  Prim2SF x = S754_finite s m e ->
  fexp64 (Zpos (digits2_pos m) + e) = e /\ e <= 971.
Proof.
  intros E. pose proof (Prim2SF_valid x) as V. rewrite E in V.
  unfold SpecFloat.valid_binary, bounded, canonical_mantissa in V.
  apply andb_true_iff in V as [C B]. apply Z.eqb_eq in C. apply Z.leb_le in B.
  rewrite fexp_eq in C. change (emax - prec) with 971 in B. now split.
Qed.

(** A normal float has a mantissa of exactly 53 bits. *)
Lemma normal_mantissa (x : float) (s : bool) (m : positive) (e : Z) :
  Prim2SF x = S754_finite s m e -> -1074 < e ->
  2 ^ 52 <= Zpos m < 2 ^ 53.
Proof.
  intros E N. destruct (valid_finite x s m e E) as [C _].
  unfold fexp64 in C. assert (Zpos (digits2_pos m) = 53) as D by lia.
  pose proof (digits2_bounds m) as B. rewrite D in B. exact B.
Qed.

End Binary64.

(** ** The falling part of the score stays within bounds *)

Module Falloff.

Import Binary64.
Local Open Scope Z_scope.

Definition M_TOL : positive := 7205759403792794.     (* 0.1 = M_TOL * 2^-56 *)
Definition M_ONE : positive := 4503599627370496.     (* 1.0 = M_ONE * 2^-52 *)
Definition M_WIDTH : positive := 8106479329266893.   (* 0.9 = M_WIDTH * 2^-53 *)
Definition M_TEN : positive := 5629499534213120.     (* 10.0 = M_TEN * 2^-49 *)

Lemma tolerance_bits : Prim2SF TOLERANCE = S754_finite false M_TOL (-56).
Proof. reflexivity. Qed.

Lemma one_bits : Prim2SF 1%float = S754_finite false M_ONE (-52).
Proof. reflexivity. Qed.

Lemma width_bits : Prim2SF (1.0 - TOLERANCE)%float = S754_finite false M_WIDTH (-53).
Proof. reflexivity. Qed.

Lemma ten_bits : Prim2SF 10%float = S754_finite false M_TEN (-49).
Proof. reflexivity. Qed.

(** An error in the falling branch lies strictly between the tolerance
    and one: a positive normal float with exponent from -56 to -53. *)
Lemma compare_cont_Eq (p q : positive) : Pos.compare_cont Eq p q = Pos.compare p q.
Proof. reflexivity. Qed.

Lemma falling_error (error : float) :
  (error <=? TOLERANCE)%float = false -> (error <? 1.0)%float = true ->
  exists m e,
    Prim2SF error = S754_finite false m e
    /\ -56 <= e <= -53
    /\ 2 ^ 52 <= Zpos m < 2 ^ 53
    /\ (e = -56 -> Zpos M_TOL < Zpos m).
Proof.
  rewrite leb_spec, ltb_spec, tolerance_bits.
  change (Prim2SF 1.0) with (S754_finite false M_ONE (-52)).
  assert (Zpos M_ONE = 2 ^ 52) as One by reflexivity.
  remember M_TOL as tol eqn:Htol. remember M_ONE as one eqn:Hone.
  clear Htol Hone.
  unfold SFleb, SFltb, SFcompare.
  destruct (Prim2SF error) as [s|s| |s m e] eqn:E; cbv iota beta;
    try (intros H1 H2; discriminate H1 || discriminate H2).
  - destruct s; intros H1 H2; discriminate H1 || discriminate H2.
  - destruct s; [intros H1 H2; discriminate H1|].
    rewrite (compare_cont_Eq m tol), (compare_cont_Eq m one).
    destruct (Z.compare_spec e (-56)) as [E56|L56|G56].
    + destruct (Pos.compare_spec m tol) as [|L|G]; try (intros H1; discriminate H1).
      intros _ _. exists m, e. split; [reflexivity|].
      pose proof (normal_mantissa error false m e E ltac:(lia)) as Nm.
      apply Pos2Z.pos_lt_pos in G.
      repeat split; try lia.
    + intros H1; discriminate H1.
    + intros _.
      destruct (Z.compare_spec e (-52)) as [E52|L52|G52]; try (intros H2; discriminate H2).
      * destruct (Pos.compare_spec m one) as [|L|G]; try (intros H2; discriminate H2).
        intros _. exfalso.
        pose proof (normal_mantissa error false m e E ltac:(lia)) as Nm.
        apply Pos2Z.pos_lt_pos in L. lia.
      * intros _. exists m, e. split; [reflexivity|].
        pose proof (normal_mantissa error false m e E ltac:(lia)) as Nm.
        repeat split; try lia.
Qed.

(** *** The operations on positive finite operands *)

Lemma SFsub_pos (m1 : positive) (e1 : Z) (m2 : positive) (e2 : Z) :
  SFsub prec emax (S754_finite false m1 e1) (S754_finite false m2 e2)
  = binary_normalize prec emax
      (Zpos m1 * 2 ^ (e1 - Z.min e1 e2) - Zpos m2 * 2 ^ (e2 - Z.min e1 e2))
      (Z.min e1 e2) false.
Proof.
  unfold SFsub. cbv zeta. unfold cond_Zopp.
  destruct (shl_align_spec m1 e1 (Z.min e1 e2)) as [_ A].
  destruct (shl_align_spec m2 e2 (Z.min e1 e2)) as [_ B].
  rewrite A, B.
  replace (Z.min e1 (Z.min e1 e2)) with (Z.min e1 e2) by lia.
  replace (Z.min e2 (Z.min e1 e2)) with (Z.min e1 e2) by lia.
  reflexivity.
Qed.

Lemma SFmul_pos (m1 : positive) (e1 : Z) (m2 : positive) (e2 : Z) :
  SFmul prec emax (S754_finite false m1 e1) (S754_finite false m2 e2)
  = binary_round_aux prec emax false (Zpos m1 * Zpos m2) (e1 + e2) loc_Exact.
Proof. reflexivity. Qed.

(** Division by a divisor [m2 * 2^e2] whose digits end at the binary
    point, of a canonical dividend: the quotient keeps the dividend's
    exponent. *)
Lemma SFdiv_pos (m1 : positive) (e1 : Z) (m2 : positive) (e2 : Z) :
  fexp64 (Zpos (digits2_pos m1) + e1) = e1 ->
  Zpos (digits2_pos m2) + e2 = 0 ->
  SFdiv prec emax (S754_finite false m1 e1) (S754_finite false m2 e2)
  = binary_round_aux prec emax false
      (Zpos m1 * 2 ^ (- e2) / Zpos m2) e1
      (new_location (Zpos m2) (Zpos m1 * 2 ^ (- e2) mod Zpos m2)).
Proof.
  intros C D. unfold SFdiv, SFdiv_core_binary. cbv zeta.
  cbn [Zdigits2 xorb]. rewrite fexp_eq, D, Z.sub_0_r, C.
  assert (0 < - e2) as E2 by lia.
  replace (Z.min e1 (e1 - e2)) with e1 by lia.
  replace (e1 - e2 - e1) with (- e2) by lia.
  destruct (- e2) as [|p|p] eqn:N; try lia.
  rewrite Z.shiftl_mul_pow2 by lia.
  unfold Z.div, Z.modulo.
  destruct (Z.div_eucl (Zpos m1 * 2 ^ Zpos p) (Zpos m2)) as [q r]. reflexivity.
Qed.


(** A canonical float below a representable bound has no larger exponent. *)
Lemma canonical_exponent_le (m : positive) (e mb eb : Z) :
  fexp64 (Zpos (digits2_pos m) + e) = e ->
  dle (Zpos m) e mb eb -> mb < 2 ^ 53 -> -1074 <= eb ->
  e <= eb.
Proof.
  intros C D Mb Eb. destruct (Z_le_gt_dec e eb) as [|G]; [assumption|exfalso].
  apply (dle_at eb) in D; [|lia|lia].
  rewrite Z.sub_diag, Z.mul_1_r in D.
  assert (2 <= 2 ^ (e - eb)) as P.
  { change 2 with (2 ^ 1) at 1. apply Z.pow_le_mono_r; lia. }
  unfold fexp64 in C. assert (Zpos (digits2_pos m) = 53) as Dg by lia.
  pose proof (digits2_bounds m) as [L _]. rewrite Dg in L.
  change (2 ^ (53 - 1)) with 4503599627370496 in L.
  change (2 ^ 53) with 9007199254740992 in Mb.
  set (a := 2 ^ (e - eb)) in *. clearbody a. nia.
Qed.

(** The largest value [error - TOLERANCE] can take lies below the width. *)
Definition B_DIFF : Z := 8106479329266892.

(** [d = error - TOLERANCE] is positive and below [B_DIFF * 2^-53 < 0.9]. *)
Lemma sub_tolerance_below (m : positive) (e : Z) :
  -56 <= e <= -53 -> 2 ^ 52 <= Zpos m < 2 ^ 53 ->
  (e = -56 -> Zpos M_TOL < Zpos m) ->
  below (SFsub prec emax (S754_finite false m e) (S754_finite false M_TOL (-56)))
        B_DIFF (-53).
Proof.
  intros E M T. rewrite SFsub_pos.
  replace (Z.min e (-56)) with (-56) by lia.
  rewrite Z.sub_diag, Z.pow_0_r, Z.mul_1_r.
  assert (1 <= 2 ^ (e - -56) <= 8) as A.
  { split.
    - change 1 with (2 ^ 0). apply Z.pow_le_mono_r; lia.
    - change 8 with (2 ^ 3). apply Z.pow_le_mono_r; lia. }
  assert (-56 < e -> 2 <= 2 ^ (e - -56)) as A2.
  { intros G. change 2 with (2 ^ 1) at 1. apply Z.pow_le_mono_r; lia. }
  assert (e = -56 -> 2 ^ (e - -56) = 1) as A0 by (intros ->; reflexivity).
  change (2 ^ 52) with 4503599627370496 in M.
  change (2 ^ 53) with 9007199254740992 in M.
  unfold M_TOL in *.
  set (a := 2 ^ (e - -56)) in *. clearbody a.
  assert (0 < Zpos m * a - 7205759403792794 <= 64851834634135134) as R.
  { destruct (Z.eq_dec e (-56)) as [Q|Q].
    - rewrite (A0 Q). specialize (T Q). lia.
    - specialize (A2 ltac:(lia)). nia. }
  destruct (Zpos m * a - 7205759403792794) as [|p|p]; try lia.
  cbn [binary_normalize].
  apply binary_round_below; unfold B_DIFF; lia.
Qed.

(** [r = d / 0.9] is at most one. *)
Lemma div_width_below (x : spec_float) :
  SpecFloat.valid_binary prec emax x = true ->
  below x B_DIFF (-53) ->
  below (SFdiv prec emax x (S754_finite false M_WIDTH (-53))) 1 0.
Proof.
  intros V B. destruct x as [s|s| |s m e]; cbn [below] in B; try contradiction.
  - subst s. reflexivity.
  - destruct B as [-> D].
    unfold SpecFloat.valid_binary, bounded, canonical_mantissa in V.
    apply andb_true_iff in V as [C _]. apply Z.eqb_eq in C. rewrite fexp_eq in C.
    assert (e <= -53) as E.
    { apply (canonical_exponent_le m e B_DIFF (-53) C D); [reflexivity | lia]. }
    rewrite (SFdiv_pos m e M_WIDTH (-53) C eq_refl).
    change (- -53) with 53.
    apply (dle_at e) in D; [|lia|lia].
    rewrite Z.sub_diag, Z.pow_0_r, Z.mul_1_r in D.
    pose proof (pow2_pos (-53 - e) ltac:(lia)) as P.
    assert (2 ^ (0 - e) = 2 ^ (-53 - e) * 2 ^ 53) as S.
    { rewrite <- pow2_split by lia. f_equal. lia. }
    change (2 ^ 53) with 9007199254740992 in *.
    unfold B_DIFF, M_WIDTH in *.
    set (a := 2 ^ (-53 - e)) in *. clearbody a.
    apply binary_round_aux_below; [ | lia | lia | lia | ].
    + apply Z.div_str_pos. lia.
    + rewrite Z.mul_1_l, S.
      assert (Zpos m * 9007199254740992 / 8106479329266893 < a * 9007199254740992); [|lia].
      apply Z.div_lt_upper_bound; nia.
Qed.

(** [t = 1 - r] is at most one and not negative. *)
Lemma sub_from_one_below (x : spec_float) :
  below x 1 0 ->
  below (SFsub prec emax (S754_finite false M_ONE (-52)) x) 1 0.
Proof.
  intros B. destruct x as [s|s| |s m e]; cbn [below] in B; try contradiction.
  - subst s. cbn [SFsub below]. split; [reflexivity|].
    apply (dle_at (-52)); [lia | lia |]. reflexivity.
  - destruct B as [-> D]. rewrite SFsub_pos.
    set (mn := Z.min (-52) e).
    apply (dle_at mn) in D; [|lia|lia].
    assert (Zpos M_ONE * 2 ^ (-52 - mn) = 2 ^ (0 - mn)) as A.
    { change (Zpos M_ONE) with (2 ^ 52). rewrite <- pow2_split by lia. f_equal. lia. }
    rewrite A. rewrite Z.mul_1_l in D.
    pose proof (pow2_pos (e - mn) ltac:(lia)) as P.
    set (a := 2 ^ (0 - mn)) in *. set (b := 2 ^ (e - mn)) in *.
    assert (0 <= a - Zpos m * b <= a - 1) as R by nia.
    destruct (a - Zpos m * b) as [|p|p] eqn:Z; try lia.
    + reflexivity.
    + cbn [binary_normalize].
      apply binary_round_below; [lia | lia | lia | ].
      rewrite Z.mul_1_l. fold a. lia.
Qed.

(** [s = 10 * t] is at most ten and a last place. *)
Lemma mul_ten_below (x : spec_float) :
  below x 1 0 ->
  below (SFmul prec emax (S754_finite false M_TEN (-49)) x) (Zpos M_TEN + 1) (-49).
Proof.
  intros B. destruct x as [s|s| |s m e]; cbn [below] in B; try contradiction.
  - subst s. reflexivity.
  - destruct B as [-> D]. rewrite SFmul_pos.
    assert (e <= 0) as E.
    { destruct (Z_le_gt_dec e 0) as [|G]; [assumption|exfalso].
      apply (dle_at 0) in D; [|lia|lia].
      rewrite Z.sub_diag, Z.pow_0_r, Z.mul_1_r, Z.sub_0_r in D.
      assert (2 ^ 1 <= 2 ^ e) as P by (apply Z.pow_le_mono_r; lia).
      change (2 ^ 1) with 2 in P. nia. }
    apply (dle_at e) in D; [|lia|lia].
    rewrite Z.sub_diag, Z.pow_0_r, Z.mul_1_r, Z.mul_1_l in D.
    apply binary_round_aux_below; [lia | lia | lia | unfold M_TEN; lia | ].
    replace (-49 - (-49 + e)) with (0 - e) by lia.
    unfold M_TEN in *. set (a := 2 ^ (0 - e)) in *. clearbody a. nia.
Qed.


(** *** Rounding to two decimal places *)

Lemma ratio_of_le (m : positive) (e mb eb : Z) :
  dle (Zpos m) e mb eb -> eb <= 0 ->
  fst (Py.ratio_of m e) * 2 ^ (- eb) <= mb * snd (Py.ratio_of m e)
  /\ 0 <= fst (Py.ratio_of m e) /\ 0 < snd (Py.ratio_of m e).
Proof.
  intros D Eb. unfold Py.ratio_of.
  destruct (Z.leb_spec 0 e) as [E|E]; cbn [fst snd].
  - apply (dle_at eb) in D; [|lia|lia].
    rewrite Z.sub_diag, Z.pow_0_r in D.
    replace (e - eb) with (e + - eb) in D by lia.
    rewrite pow2_split in D by lia. rewrite Z.mul_assoc in D.
    pose proof (pow2_pos e E). repeat split; lia.
  - apply (dle_at (e + eb)) in D; [|lia|lia].
    replace (e - (e + eb)) with (- eb) in D by lia.
    replace (eb - (e + eb)) with (- e) in D by lia.
    pose proof (pow2_pos (- e) ltac:(lia)). repeat split; lia.
Qed.

(** A ratio of at most ten and a last place rounds to at most 1000
    hundredths. *)
Lemma hundredths_le (n d : Z) :
  0 <= n -> 0 < d -> n * 2 ^ 49 <= (Zpos M_TEN + 1) * d ->
  0 <= Py.round_half_even (n * 100) d <= 1000.
Proof.
  intros N D H. unfold Py.round_half_even. cbv zeta.
  change (2 ^ 49) with 562949953421312 in H. unfold M_TEN in H.
  pose proof (Z.div_mod (n * 100) d ltac:(lia)) as Q.
  pose proof (Z.mod_pos_bound (n * 100) d D) as R.
  assert (0 <= n * 100 / d) as Q0 by (apply Z.div_pos; lia).
  set (q := n * 100 / d) in *. set (r := (n * 100) mod d) in *. clearbody q r.
  assert (q <= 1000) as Q1 by nia.
  destruct (Z.eq_dec q 1000) as [->|Ne].
  - assert (2 * r < d) as Small by nia.
    replace (d <? 2 * r) with false by (symmetry; apply Z.ltb_ge; lia).
    replace (2 * r =? d) with false by (symmetry; apply Z.eqb_neq; lia).
    cbn. lia.
  - destruct ((d <? 2 * r) || ((2 * r =? d) && Z.odd q)); lia.
Qed.

Lemma round_below (f : float) :
  below (Prim2SF f) (Zpos M_TEN + 1) (-49) ->
  exists N, 0 <= N <= 1000 /\ Py.round f 2 = Py.nearest false N 100.
Proof.
  intros B. unfold Py.round.
  change (323 <? Z.of_nat 2) with false. cbv iota.
  destruct (Prim2SF f) as [s|s| |s m e] eqn:E; cbn [below] in B; try contradiction.
  - subst s. exists 0. split; [lia|].
    rewrite <- (SF2Prim_Prim2SF f), E. reflexivity.
  - destruct B as [-> D].
    destruct (ratio_of_le m e _ _ D ltac:(lia)) as (H & N0 & D0).
    destruct (Py.ratio_of m e) as [n d]. cbn [fst snd] in *. cbv zeta.
    change (10 ^ Z.of_nat 2) with 100.
    exists (Py.round_half_even (n * 100) d). split; [|reflexivity].
    apply hundredths_le; assumption.
Qed.

(** *** The score of every error is a number of hundredths from 0 to 1000 *)

Theorem raw_score_hundredths (error : float) :
  exists N, 0 <= N <= 1000 /\ Py.round (raw_score error) 2 = Py.nearest false N 100.
Proof.
  unfold raw_score.
  destruct (error <=? TOLERANCE)%float eqn:T.
  - exists 1000. split; [lia|]. vm_compute. reflexivity.
  - destruct (error <? 1.0)%float eqn:O.
    + destruct (falling_error error T O) as (m & e & E & Ex & Mm & Mt).
      apply round_below.
      rewrite mul_spec, ten_bits. apply mul_ten_below.
      rewrite sub_spec, one_bits. apply sub_from_one_below.
      rewrite div_spec, width_bits. apply div_width_below.
      * apply Prim2SF_valid.
      * rewrite sub_spec, E, tolerance_bits. now apply sub_tolerance_below.
    + exists 0. split; [lia|]. vm_compute. reflexivity.
Qed.

End Falloff.

(** ** The Scorer *)

Module Scorer.

Local Open Scope float_scope.

Lemma round_full : Py.round 10.0 2 = 10.0.
Proof. vm_compute. reflexivity. Qed.

Lemma round_zero : Py.round 0.0 2 = 0.0.
Proof. vm_compute. reflexivity. Qed.

(** The width of the linear part, [1.0 - TOLERANCE], is the float [0.9]. *)
Lemma falloff_width : 1.0 - TOLERANCE = 0.90.
Proof. vm_compute. reflexivity. Qed.

(** The float nearest to [N] hundredths. *)
Definition two_decimal (N : Z) : float := Py.nearest false N 100.

(** A score as the specification wants it: between 0 and 10, unchanged by
    rounding to two decimal places again, and read back exactly from its
    text with two decimals. *)
Definition well_rounded (f : float) : bool :=
  (0 <=? f) && (f <=? 10)
  && PrimFloat.Leibniz.eqb (Py.round f 2) f
  && match Py.float_of_str (Py.format_f 2 f) with
     | Some g => PrimFloat.Leibniz.eqb g f
     | None => false
     end.

(** All 1001 numbers of hundredths from 0.00 to 10.00, checked one by one. *)
Lemma hundredths_table :
  forallb (fun k => well_rounded (two_decimal (Z.of_nat k))) (seq 0 1001) = true.
Proof. vm_compute. reflexivity. Qed.

Lemma two_decimal_well_rounded (N : Z) :
  (0 <= N <= 1000)%Z -> well_rounded (two_decimal N) = true.
Proof.
  intros R. pose proof hundredths_table as T. rewrite forallb_forall in T.
  rewrite <- (Z2Nat.id N) by lia. apply T, in_seq. lia.
Qed.

Lemma well_rounded_spec (f : float) :
  well_rounded f = true ->
  (0 <=? f) = true /\ (f <=? 10) = true
  /\ Py.round f 2 = f
  /\ Py.float_of_str (Py.format_f 2 f) = Some f.
Proof.
  unfold well_rounded. intros H.
  apply andb_true_iff in H as [H P]. apply andb_true_iff in H as [H I].
  apply andb_true_iff in H as [L U].
  apply FloatAxioms.Leibniz.eqb_spec in I.
  destruct (Py.float_of_str (Py.format_f 2 f)) as [g|]; [|discriminate].
  apply FloatAxioms.Leibniz.eqb_spec in P. subst g. auto.
Qed.

(** Every score the Scorer returns is a number of hundredths from 0.00 to
    10.00. *)
Lemma score_of_hundredths (v : float) :
  exists N, (0 <= N <= 1000)%Z /\ score_of v = two_decimal N.
Proof. unfold score_of. apply Falloff.raw_score_hundredths. Qed.

Lemma score_of_well_rounded (v : float) : well_rounded (score_of v) = true.
Proof.
  destruct (score_of_hundredths v) as (N & R & ->).
  now apply two_decimal_well_rounded.
Qed.

(** C1: with [R = 0.300353] and the relative error [e = |v - R| / R] of a
    student value [v], the Scorer returns 10.0 when [e <= 0.10], the value
    [10.0 * (1 - (e - 0.10) / 0.90)] rounded to two decimal places when
    [0.10 < e < 1.0], and 0.0 when [e >= 1.0]; in every case the result is
    the rounding to two decimal places of the branch's value, and rounding
    it once more changes nothing. *)
Theorem scorer_piecewise (v : float) :
  let R := 0.300353 in
  let e := abs (v - R) / R in
  ((e <=? 0.10) = true -> score_of v = 10.0)
  /\ ((0.10 <? e) = true -> (e <? 1.0) = true ->
      score_of v = Py.round (10.0 * (1 - (e - 0.10) / 0.90)) 2)
  /\ ((1.0 <=? e) = true -> score_of v = 0.0)
  /\ score_of v = Py.round (raw_score e) 2
  /\ Py.round (score_of v) 2 = score_of v.
Proof.
  cbv zeta. split; [|split; [|split; [|split]]].
  - unfold score_of, relative_error, raw_score. change OPTIMAL_CD with 0.300353.
    intros H. change 0.10 with TOLERANCE in H. rewrite H. exact round_full.
  - unfold score_of, relative_error, raw_score. change OPTIMAL_CD with 0.300353.
    intros H1 H2. change 0.10 with TOLERANCE in H1.
    rewrite (FloatOrder.ltb_flip _ _ H1), H2, falloff_width. reflexivity.
  - unfold score_of, relative_error, raw_score. change OPTIMAL_CD with 0.300353.
    intros H. rewrite (FloatOrder.above_one_above_tolerance _ H),
      (FloatOrder.leb_flip _ _ H). exact round_zero.
  - reflexivity.
  - exact (proj1 (proj2 (proj2 (well_rounded_spec _ (score_of_well_rounded v))))).
Qed.

(** The scenarios of the specification: the optimum itself, a value just
    inside the tolerance band, one at half the optimum more, and one at
    twice the optimum. *)
Lemma scorer_piecewise_witness :
  score_of 0.300353 = 10.0 /\ score_of 0.330388 = 10.0
  /\ score_of 0.450530 = 5.56 /\ score_of 0.600706 = 0.0.
Proof.
  split; [|split; [|split]].
  - apply (proj1 (scorer_piecewise 0.300353)). vm_compute. reflexivity.
  - apply (proj1 (scorer_piecewise 0.330388)). vm_compute. reflexivity.
  - rewrite (proj1 (proj2 (scorer_piecewise 0.450530))).
    + vm_compute. reflexivity.
    + vm_compute. reflexivity.
    + vm_compute. reflexivity.
  - apply (proj1 (proj2 (proj2 (scorer_piecewise 0.600706)))). vm_compute. reflexivity.
Defined.

(** C9: whatever the captured output, the score of [grade_result] is the
    integer 0 (no output, no match, or a token that does not parse) or a
    float that is some number [N] of hundredths with [0 <= N <= 1000]:
    it lies between 0 and 10, rounding it to two decimal places again
    changes nothing, and its text with two decimals reads back as the
    same float. *)
Theorem score_range (output : option string) :
  match fst (grade_result output) with
  | Py.Int z => z = 0%Z
  | Py.Float f =>
      (exists N, (0 <= N <= 1000)%Z /\ f = Py.nearest false N 100)
      /\ (0 <=? f) = true /\ (f <=? 10) = true
      /\ Py.round f 2 = f
      /\ Py.float_of_str (Py.format_f 2 f) = Some f
  end.
Proof.
  unfold grade_result.
  destruct output as [text|]; [|reflexivity].
  destruct (cd_search text) as [m|]; [|reflexivity].
  destruct (Py.float_of_str (group m)) as [v|]; [|reflexivity].
  cbn [fst]. split.
  - exact (score_of_hundredths v).
  - exact (well_rounded_spec _ (score_of_well_rounded v)).
Qed.

End Scorer.

(** ** The scenarios of the specification, run *)

Module Scenarios.

Definition printed (value : string) : string := "Minimum Drag Coefficient (Cd): " ++ value.

Definition feedback_text (your_cd error score : string) : string :=
  "Grading based on the final Drag Coefficient (Cd)." ++ nl
  ++ "Optimal Cd: 0.300353" ++ nl
  ++ "Your Cd: " ++ your_cd ++ nl
  ++ "Error: " ++ error ++ nl
  ++ "Score: " ++ score ++ "/10".

(** Scenarios A to E: the optimum, the edge of the tolerance band, an
    error of one half, an error of one, and an output without the label,
    each with the score and the feedback text [grade_result] returns. *)
Theorem scenarios_graded :
  grade_result (Some (printed "0.300353"))
  = (Py.Float 10.0, feedback_text "0.300353" "0.00%" "10.0")
  /\ grade_result (Some (printed "0.330388"))
     = (Py.Float 10.0, feedback_text "0.330388" "10.00%" "10.0")
  /\ grade_result (Some (printed "0.450530"))
     = (Py.Float 5.56, feedback_text "0.450530" "50.00%" "5.56")
  /\ grade_result (Some (printed "0.600706"))
     = (Py.Float 0.0, feedback_text "0.600706" "100.00%" "0.0")
  /\ grade_result (Some ("Optimisation finished." ++ nl)) = (Py.Int 0, NOT_FOUND).
Proof. repeat split; vm_compute; reflexivity. Qed.

(** Any other failure of the launch: the result carries the cause, and the
    report of [main] has score 0 and that text. *)
Theorem unexpected_error_reported (w : world) (nb : notebook) (cause : string) :
  Executor.loaded w NOTEBOOK_PATH nb ->
  Executor.run_of w nb = RunError cause ->
  execute_notebook w NOTEBOOK_PATH
  = (None, Some ("An unexpected error occurred during execution: " ++ cause))
  /\ main w
     = Json.dumps
         (test_result (Py.Int 0) ("An unexpected error occurred during execution: " ++ cause))
       ++ nl.
Proof.
  intros L R.
  assert (execute_notebook w NOTEBOOK_PATH
          = (None, Some ("An unexpected error occurred during execution: " ++ cause))) as E.
  { rewrite (Executor.execute_loaded _ _ _ L), R. reflexivity. }
  split; [exact E|]. unfold main, verdict. rewrite E. reflexivity.
Qed.

(** A world in which the interpreter cannot be started. *)
Definition broken_world : world :=
  {| read_notebook := fun _ => ReadOk Executor.sample_notebook;
     sys_executable := "/usr/bin/python3";
     subprocess_run := fun _ _ => RunError "[Errno 2] No such file or directory" |}.

Lemma unexpected_error_reported_witness :
  execute_notebook broken_world NOTEBOOK_PATH
  = (None, Some "An unexpected error occurred during execution: [Errno 2] No such file or directory").
Proof.
  apply (unexpected_error_reported broken_world Executor.sample_notebook
           "[Errno 2] No such file or directory").
  - split; reflexivity.
  - reflexivity.
Defined.

End Scenarios.

(** ** The text of the score *)

Module ScoreText.

Import CdFacts.
Local Open Scope Z_scope.

(** [repr] with the scan for the decimal magnitude started at [-2]
    rather than at [-324]. *)
Definition repr_from_hundredths (x : float) : string :=
  match Prim2SF x with
  | S754_nan => "nan"%string
  | S754_infinity s => (Py.sign_text s ++ "inf")%string
  | S754_zero s => (Py.sign_text s ++ "0.0")%string
  | S754_finite s m e =>
      let '(n, d) := Py.ratio_of m e in
      let mag := Py.magnitude 318 n d (-2) in
      let '(c0, k0) := Py.shortest 16 (abs x) n d mag 1 in
      let '(c, k) := Py.strip_zeros 20 c0 k0 in
      let ds := Py.str_nat c in
      (Py.sign_text s ++ Py.layout_repr ds (Z.of_nat (String.length ds) + k))%string
  end.

(** The float is zero or at least a hundredth in magnitude. *)
Definition from_hundredths (x : float) : bool :=
  match Prim2SF x with
  | S754_zero _ => true
  | S754_finite _ m e =>
      let '(n, d) := Py.ratio_of m e in (0 <=? n) && (d <=? n * 100)
  | _ => false
  end.

Lemma magnitude_skip (k fuel : nat) (n d j0 : Z) :
  0 <= n -> d <= n * 100 -> j0 + Z.of_nat k <= -1 ->
  Py.magnitude (k + fuel) n d j0 = Py.magnitude fuel n d (j0 + Z.of_nat k).
Proof.
  intros N D. revert j0. induction k as [|k IH]; intros j0 J.
  - cbn [Nat.add Z.of_nat]. now rewrite Z.add_0_r.
  - cbn [Nat.add Py.magnitude]. unfold Py.pow10_ratio.
    replace (0 <=? j0) with false by (symmetry; apply Z.leb_gt; lia).
    assert (10 ^ 2 <= 10 ^ (- j0)) as P by (apply Z.pow_le_mono_r; lia).
    change (10 ^ 2) with 100 in P.
    replace (n * 10 ^ (- j0) <? d) with false by (symmetry; apply Z.ltb_ge; nia).
    rewrite IH by lia. f_equal. lia.
Qed.

Lemma repr_from_hundredths_eq (x : float) :
  from_hundredths x = true -> Py.repr x = repr_from_hundredths x.
Proof.
  unfold from_hundredths, Py.repr, repr_from_hundredths.
  destruct (Prim2SF x) as [s|s| |s m e]; [reflexivity | reflexivity | reflexivity |].
  destruct (Py.ratio_of m e) as [n d]. intros H.
  apply andb_true_iff in H as [N D]. apply Z.leb_le in N, D.
  change 640%nat with (322 + 318)%nat.
  rewrite (magnitude_skip 322 318 n d (-324) N D) by (cbn; lia).
  change (-324 + Z.of_nat 322) with (-2). reflexivity.
Qed.

(** One or two digits, a point, one or two digits. *)
Definition short_decimal (t : string) : bool :=
  let ip := Str.take_while Char.is_digit t in
  match Str.drop_while Char.is_digit t with
  | String c fp =>
      is_point c && Str.all Char.is_digit fp
      && (1 <=? String.length ip)%nat && (String.length ip <=? 2)%nat
      && (1 <=? String.length fp)%nat && (String.length fp <=? 2)%nat
  | EmptyString => false
  end.

Definition score_text_ok (f : float) : bool :=
  from_hundredths f
  && short_decimal (repr_from_hundredths f)
  && match Py.float_of_str (repr_from_hundredths f) with
     | Some g => PrimFloat.Leibniz.eqb g f
     | None => false
     end.

Lemma score_text_table :
  forallb (fun k => score_text_ok (Scorer.two_decimal (Z.of_nat k))) (seq 0 1001) = true.
Proof. vm_compute. reflexivity. Qed.


Lemma short_decimal_spec (t : string) :
  short_decimal t = true ->
  exists ip fp,
    t = (ip ++ "." ++ fp)%string
    /\ Str.all Char.is_digit ip = true /\ Str.all Char.is_digit fp = true
    /\ (1 <= String.length ip <= 2)%nat /\ (1 <= String.length fp <= 2)%nat.
Proof.
  unfold short_decimal. cbv zeta.
  pose proof (StrFacts.take_drop_while Char.is_digit t) as T.
  pose proof (StrFacts.all_take_while Char.is_digit t) as A.
  destruct (Str.drop_while Char.is_digit t) as [|c fp]; [discriminate|].
  intros H. repeat (apply andb_true_iff in H as [H ?]).
  apply Ascii.eqb_eq in H. subst c.
  exists (Str.take_while Char.is_digit t), fp.
  repeat split; try (now apply Nat.leb_le); auto.
Qed.

Lemma score_text_ok_spec (f : float) :
  score_text_ok f = true ->
  Json.dumps_num (Py.Float f) = Py.repr f
  /\ short_decimal (Py.repr f) = true
  /\ Py.float_of_str (Py.repr f) = Some f.
Proof.
  unfold score_text_ok. intros H.
  apply andb_true_iff in H as [H R]. apply andb_true_iff in H as [F S].
  rewrite (repr_from_hundredths_eq f F). split; [|split; [exact S|]].
  - unfold Json.dumps_num, Json.dumps_float. rewrite (repr_from_hundredths_eq f F).
    unfold from_hundredths in F. now destruct (Prim2SF f).
  - destruct (Py.float_of_str (repr_from_hundredths f)) as [g|]; [|discriminate].
    apply FloatAxioms.Leibniz.eqb_spec in R. now subst g.
Qed.

Lemma score_of_text_ok (v : float) : score_text_ok (score_of v) = true.
Proof.
  destruct (Scorer.score_of_hundredths v) as (N & R & ->).
  pose proof score_text_table as T. rewrite forallb_forall in T.
  rewrite <- (Z2Nat.id N) by lia. apply T, in_seq. lia.
Qed.

Lemma score_text_facts (v : float) :
  Json.dumps_num (Py.Float (score_of v)) = Py.repr (score_of v)
  /\ (exists ip fp,
         Py.repr (score_of v) = (ip ++ "." ++ fp)%string
         /\ Str.all Char.is_digit ip = true /\ Str.all Char.is_digit fp = true
         /\ (1 <= String.length ip <= 2)%nat /\ (1 <= String.length fp <= 2)%nat)
  /\ Py.float_of_str (Py.repr (score_of v)) = Some (score_of v).
Proof.
  destruct (score_text_ok_spec _ (score_of_text_ok v)) as (A & B & C).
  split; [exact A|]. split; [|exact C]. now apply short_decimal_spec.
Qed.

(** The score of a graded output is written the same way in the feedback
    line ([Score: .../10]) and in the report: one or two digits, a point
    and one or two decimals, never an exponent or a long tail of digits;
    and that text reads back as the score. *)
Theorem score_text_two_decimals (v : float) :
  let t := Py.repr (score_of v) in
  Json.dumps_num (Py.Float (score_of v)) = t
  /\ (exists ip fp,
         t = (ip ++ "." ++ fp)%string
         /\ Str.all Char.is_digit ip = true /\ Str.all Char.is_digit fp = true
         /\ (1 <= String.length ip <= 2)%nat /\ (1 <= String.length fp <= 2)%nat)
  /\ Py.float_of_str t = Some (score_of v)
  /\ feedback_of v
     = ("Grading based on the final Drag Coefficient (Cd)." ++ nl
        ++ "Optimal Cd: " ++ Py.format_f 6 OPTIMAL_CD ++ nl
        ++ "Your Cd: " ++ Py.format_f 6 v ++ nl
        ++ "Error: " ++ Py.format_pct 2 (relative_error v) ++ nl
        ++ "Score: " ++ t ++ "/10")%string.
Proof.
  cbv zeta. destruct (score_text_facts v) as (A & B & C).
  split; [exact A|]. split; [exact B|]. split; [exact C | reflexivity].
Qed.

End ScoreText.

(** ** The report line *)

Module ReportLine.

Import CdFacts.

(** A character [json.dumps] leaves as it is: printable ASCII. *)
Definition printable (c : ascii) : bool := Char.between 32 126 (Char.code c).

Lemma escape_char_printable (c : ascii) : Str.all printable (Json.escape_char c) = true.
Proof. each_char c; reflexivity. Qed.

Lemma escape_printable (s : string) : Str.all printable (Json.escape s) = true.
Proof.
  induction s as [|c s IH]; [reflexivity|].
  cbn [Json.escape]. now rewrite StrFacts.all_append, escape_char_printable, IH.
Qed.

Lemma num_printable (c : ascii) : is_num c = true -> printable c = true.
Proof. each_char c; vm_compute; congruence. Qed.

(** The fixed text of the report around the score and the feedback. *)
Definition report_head : string :=
  "{" ++ Json.dumps_str "tests" ++ ": [{" ++ Json.dumps_str "name" ++ ": "
  ++ Json.dumps_str "Spoiler Optimization Autograding" ++ ", "
  ++ Json.dumps_str "score" ++ ": ".

Definition report_mid_rest : string :=
  " " ++ Json.dumps_str "max_score" ++ ": 10, " ++ Json.dumps_str "output" ++ ": "
  ++ Json.quote.

Definition report_mid : string := String ","%char report_mid_rest.

Definition report_tail : string := Json.quote ++ "}]}".

Lemma dumps_test_result (score : Py.number) (feedback : string) :
  Json.dumps (test_result score feedback)
  = report_head ++ Json.dumps_num score ++ report_mid ++ Json.escape feedback ++ report_tail.
Proof.
  unfold test_result. cbn [Json.dumps map String.concat fst snd].
  unfold Json.dumps_str.
  change (Json.dumps_num (Py.Int 10)) with "10".
  rewrite !StrFacts.append_assoc. reflexivity.
Qed.

Lemma main_text (w : world) :
  main w = report_head ++ Json.dumps_num (fst (verdict w)) ++ report_mid
           ++ Json.escape (snd (verdict w)) ++ report_tail ++ nl.
Proof.
  unfold main. destruct (verdict w) as [score feedback]. cbn [fst snd].
  rewrite dumps_test_result, !StrFacts.append_assoc. reflexivity.
Qed.

(** The score [main] reports is the integer 0 or a score of the Scorer. *)
Lemma verdict_score (w : world) :
  fst (verdict w) = Py.Int 0 \/ exists v, fst (verdict w) = Py.Float (score_of v).
Proof.
  unfold verdict. destruct (execute_notebook w NOTEBOOK_PATH) as [output message].
  destruct (truthy message); [now left|].
  unfold grade_result. destruct output as [text|]; [|now left].
  destruct (cd_search text) as [m|]; [|now left].
  destruct (Py.float_of_str (group m)) as [v|]; [right; now exists v | now left].
Qed.

Lemma score_text_nums (w : world) :
  Str.all is_num (Json.dumps_num (fst (verdict w))) = true.
Proof.
  destruct (verdict_score w) as [->|[v ->]]; [reflexivity|].
  destruct (ScoreText.score_text_facts v) as (E & (ip & fp & T & Di & Df & _) & _).
  cbv zeta in T. rewrite E, T, !StrFacts.all_append.
  rewrite (TokenFacts.all_impl _ _ _ TokenFacts.digit_is_num Di).
  rewrite (TokenFacts.all_impl _ _ _ TokenFacts.digit_is_num Df). reflexivity.
Qed.

(** Whatever the notebook holds and whatever the program writes, [main]
    prints one line: printable ASCII characters only, closed by the one
    line feed of [print]. *)
Theorem report_one_line (w : world) :
  exists body, main w = body ++ nl /\ Str.all printable body = true.
Proof.
  exists (report_head ++ Json.dumps_num (fst (verdict w)) ++ report_mid
          ++ Json.escape (snd (verdict w)) ++ report_tail).
  split.
  - rewrite main_text, !StrFacts.append_assoc. reflexivity.
  - rewrite !StrFacts.all_append, escape_printable.
    rewrite (TokenFacts.all_impl _ _ _ num_printable (score_text_nums w)).
    reflexivity.
Qed.

(** *** Nothing is lost in the report *)

Definition hex_value (c : ascii) : N :=
  let n := Char.code c in if (n <? 58)%N then (n - 48)%N else (n - 87)%N.

(** The character the start of an escaped text stands for, and what
    follows it. *)
Definition read_char (s : string) : option (ascii * string) :=
  match s with
  | EmptyString => None
  | String c r =>
      if (Char.code c =? 92)%N then
        match r with
        | EmptyString => None
        | String x r1 =>
            let n := Char.code x in
            if (n =? 117)%N then
              match r1 with
              | String _ (String _ (String h (String l r2))) =>
                  Some (ascii_of_N (16 * hex_value h + hex_value l), r2)
              | _ => None
              end
            else
              Some (ascii_of_N (if (n =? 110)%N then 10
                                else if (n =? 114)%N then 13
                                else if (n =? 116)%N then 9
                                else if (n =? 98)%N then 8
                                else if (n =? 102)%N then 12
                                else n), r1)
        end
      else Some (c, r)
  end.

Lemma read_escape_char (c : ascii) (r : string) :
  read_char (Json.escape_char c ++ r) = Some (c, r).
Proof. each_char c; reflexivity. Qed.

Lemma escape_injective (s t : string) : Json.escape s = Json.escape t -> s = t.
Proof.
  revert t. induction s as [|c s IH]; intros [|d t] H.
  - reflexivity.
  - apply (f_equal read_char) in H. cbn [Json.escape] in H.
    rewrite read_escape_char in H. discriminate H.
  - apply (f_equal read_char) in H. cbn [Json.escape] in H.
    rewrite read_escape_char in H. discriminate H.
  - apply (f_equal read_char) in H. cbn [Json.escape] in H.
    rewrite !read_escape_char in H. injection H as -> H. f_equal. now apply IH.
Qed.

Lemma append_cancel_l (a x y : string) : a ++ x = a ++ y -> x = y.
Proof. induction a as [|c a IH]; simpl; [auto|]. intros [= H]. auto. Qed.

Lemma append_same_length (a b x y : string) :
  String.length a = String.length b -> a ++ x = b ++ y -> a = b /\ x = y.
Proof.
  revert b. induction a as [|c a IH]; intros [|d b] L; try discriminate L; simpl.
  - auto.
  - intros [= -> H]. injection L as L. destruct (IH b L H) as [-> ->]. auto.
Qed.

Lemma append_cancel_r (a b x : string) : a ++ x = b ++ x -> a = b.
Proof.
  intros H. apply (append_same_length a b x x); [|exact H].
  apply (f_equal String.length) in H. rewrite !StrFacts.length_append in H. lia.
Qed.

(** A run of digits and points followed by a comma ends at the comma. *)
Lemma nums_then_comma (a b x y : string) :
  Str.all is_num a = true -> Str.all is_num b = true ->
  a ++ String ","%char x = b ++ String ","%char y -> a = b /\ x = y.
Proof.
  intros A B H.
  assert (a = b) as ->.
  { apply (f_equal (Str.take_while is_num)) in H.
    rewrite (StrFacts.take_while_all_append _ _ _ A) in H.
    rewrite (StrFacts.take_while_all_append _ _ _ B) in H.
    cbn in H. now rewrite !StrFacts.append_empty_r in H. }
  split; [reflexivity|]. apply append_cancel_l in H. now injection H.
Qed.

Lemma score_text_injective (w1 w2 : world) :
  Json.dumps_num (fst (verdict w1)) = Json.dumps_num (fst (verdict w2)) ->
  fst (verdict w1) = fst (verdict w2).
Proof.
  destruct (verdict_score w1) as [->|[v1 ->]], (verdict_score w2) as [->|[v2 ->]].
  - reflexivity.
  - destruct (ScoreText.score_text_facts v2) as (E & (ip & fp & T & Di & _) & _).
    rewrite E, T. intros H. exfalso.
    apply (f_equal (Str.count is_point)) in H.
    rewrite !TokenFacts.count_append, (TokenFacts.digits_no_point _ Di) in H.
    cbn in H. lia.
  - destruct (ScoreText.score_text_facts v1) as (E & (ip & fp & T & Di & _) & _).
    rewrite E, T. intros H. exfalso.
    apply (f_equal (Str.count is_point)) in H.
    rewrite !TokenFacts.count_append, (TokenFacts.digits_no_point _ Di) in H.
    cbn in H. lia.
  - destruct (ScoreText.score_text_facts v1) as (E1 & _ & R1).
    destruct (ScoreText.score_text_facts v2) as (E2 & _ & R2).
    rewrite E1, E2. intros H. rewrite H in R1.
    rewrite R1 in R2. now injection R2 as ->.
Qed.

(** The report carries the score and the feedback without loss: two runs
    that print the same line ended with the same score and the same
    feedback text. *)
Theorem report_injective (w1 w2 : world) :
  main w1 = main w2 -> verdict w1 = verdict w2.
Proof.
  rewrite !main_text. intros H.
  apply append_cancel_l in H.
  unfold report_mid in H. cbn [append] in H.
  apply nums_then_comma in H as [S H]; try apply score_text_nums.
  apply append_cancel_l in H.
  rewrite <- !StrFacts.append_assoc in H.
  apply append_cancel_r in H. apply append_cancel_r in H.
  apply score_text_injective in S. apply escape_injective in H.
  destruct (verdict w1), (verdict w2). cbn [fst snd] in *. now subst.
Qed.

(** A world that differs from [Executor.hanging_world] in its interpreter
    and ends the same way. *)
Definition slow_world : world :=
  {| read_notebook := fun _ => ReadOk Executor.sample_notebook;
     sys_executable := "python";
     subprocess_run := fun _ _ => TimeoutExpired |}.

Lemma report_injective_witness : verdict Executor.hanging_world = verdict slow_world.
Proof.
  apply (report_injective Executor.hanging_world slow_world).
  vm_compute. reflexivity.
Defined.

End ReportLine.

(** ** What the feedback tells *)

Module Diagnosis.

(** The ways a run of [main] can end. *)
Inductive outcome : Type :=
| ReadFailed
| NoCode
| Crashed
| TimedOut
| LaunchFailed
| LabelNotFound
| ValueNotParsed
| Graded.

(** The way the run in world [w] ends, read off the branches taken. *)
Definition outcome_of (w : world) : outcome :=
  match read_notebook w NOTEBOOK_PATH with
  | ReadError _ => ReadFailed
  | ReadOk nb =>
      if Str.is_empty (Str.strip (full_code nb)) then NoCode
      else
        match subprocess_run w [sys_executable w; "-c"; full_code nb] 240 with
        | Completed returncode stdout _ =>
            if negb (returncode =? 0)%Z then Crashed
            else match cd_search stdout with
                 | None => LabelNotFound
                 | Some m =>
                     match Py.float_of_str (group m) with
                     | None => ValueNotParsed
                     | Some _ => Graded
                     end
                 end
        | TimeoutExpired => TimedOut
        | RunError _ => LaunchFailed
        end
  end.

Fixpoint starts_with (p s : string) : bool :=
  match p, s with
  | EmptyString, _ => true
  | String a p', String b s' => Ascii.eqb a b && starts_with p' s'
  | String _ _, EmptyString => false
  end.

(** The outcome a feedback text speaks of, told by how the text begins. *)
Definition outcome_of_feedback (feedback : string) : option outcome :=
  if starts_with "Error reading notebook file: " feedback then Some ReadFailed
  else if starts_with "No code found in the notebook." feedback then Some NoCode
  else if starts_with "Code execution failed with an error:" feedback then Some Crashed
  else if starts_with "Code execution timed out after 4 minutes." feedback then Some TimedOut
  else if starts_with "An unexpected error occurred during execution: " feedback
       then Some LaunchFailed
  else if starts_with "Could not find the 'Minimum Drag Coefficient (Cd)'" feedback
       then Some LabelNotFound
  else if starts_with "Could not parse the drag coefficient value '" feedback
       then Some ValueNotParsed
  else if starts_with "Grading based on the final Drag Coefficient (Cd)." feedback
       then Some Graded
  else None.

(** The feedback [main] reports begins with a text that belongs to one
    outcome only, whatever cause, standard error or token it goes on with:
    the reader of the report can tell how the run ended.  And the reason
    [grade_result] keeps for a missing output is never reported: [main]
    calls it only with an output. *)
Theorem feedback_names_outcome (w : world) :
  outcome_of_feedback (snd (verdict w)) = Some (outcome_of w)
  /\ snd (verdict w) <> "Could not get output from the notebook.".
Proof.
  assert (outcome_of_feedback (snd (verdict w)) = Some (outcome_of w)) as H.
  { unfold verdict, outcome_of, execute_notebook.
    destruct (read_notebook w NOTEBOOK_PATH) as [nb|cause]; [|reflexivity].
    cbv zeta. destruct (Str.is_empty (Str.strip (full_code nb))); [reflexivity|].
    destruct (subprocess_run w _ 240) as [rc out err| |cause]; try reflexivity.
    destruct (negb (rc =? 0)%Z); [reflexivity|].
    cbn [truthy]. unfold grade_result.
    destruct (cd_search out) as [m|]; [|reflexivity].
    destruct (Py.float_of_str (group m)) as [v|]; reflexivity. }
  split; [exact H|].
  intros E. rewrite E in H. discriminate H.
Qed.

End Diagnosis.

(** ** What may stand between the label and the value *)

Module Skipped.

Import CdFacts.

(** A label character differs from the text character within [s]. *)
Fixpoint mismatch (lbl s : string) : bool :=
  match lbl, s with
  | String l lbl', String c s' => if same_letter l c then mismatch lbl' s' else true
  | _, _ => false
  end.

Lemma mismatch_append (lbl s t : string) :
  mismatch lbl s = true -> strip_label lbl (s ++ t) = None.
Proof.
  revert s. induction lbl as [|l lbl IH]; intros [|c s]; simpl; try discriminate.
  destruct (same_letter l c); [apply IH | reflexivity].
Qed.

Lemma mismatch_lower (lbl s s' : string) :
  Py.lower_str s = Py.lower_str s' -> mismatch lbl s = mismatch lbl s'.
Proof.
  revert s s'. induction lbl as [|l lbl IH]; intros [|c s] [|c' s'] H;
    try reflexivity; try discriminate H.
  simpl in H. injection H as C H. simpl. unfold same_letter. rewrite C.
  destruct (Ascii.eqb _ _); [now apply IH | reflexivity].
Qed.

Lemma lower_drop (j : nat) (s : string) :
  Py.lower_str (Str.drop j s) = Str.drop j (Py.lower_str s).
Proof.
  revert s. induction j as [|j IH]; intros [|c s]; try reflexivity. simpl. apply IH.
Qed.

Lemma lower_length (s : string) : String.length (Py.lower_str s) = String.length s.
Proof. induction s as [|c s IH]; simpl; congruence. Qed.

Lemma drop_append_l (j : nat) (a b : string) :
  j <= String.length a -> Str.drop j (a ++ b) = Str.drop j a ++ b.
Proof.
  revert a. induction j as [|j IH]; intros [|c a] L; simpl in *; try reflexivity; try lia.
  apply IH. lia.
Qed.

Lemma drop_append_r (j : nat) (a b : string) :
  Str.drop (String.length a + j) (a ++ b) = Str.drop j b.
Proof. induction a as [|c a IH]; simpl; [reflexivity | exact IH]. Qed.

(** No proper suffix of the label begins like the label. *)
Lemma label_has_no_border :
  forallb (fun j => mismatch LABEL (Str.drop j LABEL)) (seq 1 29) = true.
Proof. vm_compute. reflexivity. Qed.

Lemma space_not_label_start (c : ascii) :
  Char.is_space c = true -> same_letter "M" c = false.
Proof. each_char c; vm_compute; congruence. Qed.

Lemma first_token_skip (p u : string) :
  (forall j, j < String.length p -> token_at (Str.drop j (p ++ u)) = None) ->
  first_token (p ++ u) = first_token u.
Proof.
  induction p as [|c p IH]; intros E; [reflexivity|].
  cbn [append first_token].
  pose proof (E 0 ltac:(simpl; lia)) as E0. cbn [Str.drop append] in E0. rewrite E0.
  apply IH. intros j Hj. apply (E (S j)). simpl. lia.
Qed.

Lemma token_at_strip_none (s : string) : strip_label LABEL s = None -> token_at s = None.
Proof. unfold token_at. now intros ->. Qed.

(** No attempt that starts within the label or the whitespace after it
    succeeds when what follows is neither whitespace nor a number. *)
Lemma no_token_within (lbl ws : string) (c : ascii) (rest : string) (j : nat) :
  Py.lower_str lbl = Py.lower_str LABEL ->
  Str.all Char.is_space ws = true ->
  Char.is_space c = false -> is_num c = false ->
  j < String.length (lbl ++ ws) ->
  token_at (Str.drop j (lbl ++ ws ++ String c rest)) = None.
Proof.
  intros L W Sp N J.
  assert (String.length lbl = 30) as Len.
  { rewrite <- lower_length, L. reflexivity. }
  rewrite StrFacts.length_append, Len in J.
  destruct j as [|j].
  - cbn [Str.drop]. unfold token_at.
    rewrite (strip_label_complete _ _ _ L). cbv zeta.
    rewrite (StrFacts.drop_while_all_append _ _ _ W).
    cbn [Str.drop_while]. rewrite Sp. cbn [Str.take_while]. rewrite N. reflexivity.
  - apply token_at_strip_none.
    destruct (Nat.lt_ge_cases (S j) 30) as [In|Out].
    + rewrite drop_append_l by lia. apply mismatch_append.
      rewrite (mismatch_lower LABEL (Str.drop (S j) lbl) (Str.drop (S j) LABEL))
        by (now rewrite !lower_drop, L).
      pose proof label_has_no_border as B. rewrite forallb_forall in B.
      apply B, in_seq. lia.
    + replace (S j) with (String.length lbl + (S j - 30)) by lia.
      rewrite drop_append_r.
      assert (S j - 30 < String.length ws) as K by lia.
      revert K W. generalize (S j - 30). clear.
      induction ws as [|w ws IH]; intros k K W; [simpl in K; lia|].
      simpl in W. apply andb_true_iff in W as [W1 W2].
      destruct k as [|k].
      * cbn [Str.drop append strip_label]. unfold LABEL. cbn [strip_label].
        now rewrite (space_not_label_start w W1).
      * cbn [Str.drop append]. apply IH; [simpl in K; lia | exact W2].
Qed.

(** An occurrence of the label that is followed, after its whitespace, by
    anything but a digit or a point is passed over: a sign, a bracket, a
    currency mark or a word such as [nan] in that place is not read as
    part of a value, and the output is graded on the text from that
    character on. *)
Theorem value_must_follow_label (pre lbl ws : string) (c : ascii) (rest : string) :
  (forall j, j < String.length pre ->
             Re.match_at true CD_PATTERN (Str.drop j (pre ++ lbl ++ ws ++ String c rest)) = None) ->
  Py.lower_str lbl = Py.lower_str LABEL ->
  Str.all Char.is_space ws = true ->
  Char.is_space c = false ->
  Extractor.digit_or_point c = false ->
  cd_search (pre ++ lbl ++ ws ++ String c rest) = cd_search (String c rest)
  /\ grade_result (Some (pre ++ lbl ++ ws ++ String c rest))
     = grade_result (Some (String c rest)).
Proof.
  intros E L W Sp N. unfold Extractor.digit_or_point in N. rewrite <- is_num_spec in N.
  assert (first_token (pre ++ lbl ++ ws ++ String c rest) = first_token (String c rest)) as F.
  { rewrite first_token_skip.
    - rewrite <- StrFacts.append_assoc. apply first_token_skip.
      intros j Hj. rewrite StrFacts.append_assoc. now apply no_token_within.
    - intros j Hj. specialize (E j Hj). rewrite match_at_token in E.
      destruct (token_at _); [discriminate | reflexivity]. }
  split.
  - now rewrite !cd_search_first_token, F.
  - now rewrite !grade_result_first_token, F.
Qed.

(** A value printed with a minus sign: the occurrence is passed over, and
    the rest of the output is searched instead. *)
Lemma value_must_follow_label_witness :
  cd_search ("Best design: Minimum Drag Coefficient (Cd): -0.300353" ++ nl)
  = cd_search ("-0.300353" ++ nl)
  /\ grade_result (Some ("Best design: Minimum Drag Coefficient (Cd): -0.300353" ++ nl))
     = grade_result (Some ("-0.300353" ++ nl)).
Proof.
  apply (value_must_follow_label "Best design: " LABEL " " "-" ("0.300353" ++ nl)).
  - intros j Hj.
    do 13 (destruct j as [|j]; [vm_compute; reflexivity|]).
    simpl in Hj. lia.
  - reflexivity.
  - reflexivity.
  - reflexivity.
  - reflexivity.
Defined.

End Skipped.

(** ** The graded value and its error are numbers *)

Module ValueClass.

Import CdFacts Binary64.
Local Open Scope Z_scope.

(** Zero, a finite number or infinity, with the given sign: no NaN. *)
Definition signed (s : bool) (x : spec_float) : Prop :=
  match x with
  | S754_zero s' | S754_infinity s' | S754_finite s' _ _ => s' = s
  | S754_nan => False
  end.

Lemma binary_round_aux_signed (s : bool) (mx ex : Z) (lx : location) :
  0 <= mx -> signed s (binary_round_aux prec emax s mx ex lx).
Proof.
  intros M. unfold binary_round_aux.
  pose proof (shr_fexp_floor mx ex lx M) as [_ S2].
  destruct (shr_fexp prec emax mx ex lx) as [mrs' e']. cbn [fst snd] in S2.
  assert (0 <= round_nearest_even (shr_m mrs') (loc_of_shr_record mrs')) as R.
  { assert (0 <= shr_m mrs') as P.
    { rewrite S2. apply Z.div_pos; [lia|]. apply pow2_pos. lia. }
    destruct (round_nearest_even_cases (shr_m mrs') (loc_of_shr_record mrs')) as [->| ->]; lia. }
  pose proof (shr_fexp_floor _ e' loc_Exact R) as [_ T2].
  destruct (shr_fexp prec emax _ e' loc_Exact) as [mrs'' e'']. cbn [fst snd] in T2.
  assert (0 <= shr_m mrs'') as P.
  { rewrite T2. apply Z.div_pos; [lia|]. apply pow2_pos. lia. }
  destruct (shr_m mrs'') as [|m|m]; [reflexivity| |lia].
  destruct (e'' <=? emax - prec); reflexivity.
Qed.

Lemma binary_round_signed (s : bool) (m : positive) (e : Z) :
  signed s (binary_round prec emax s m e).
Proof.
  unfold binary_round. destruct (shl_align m e _) as [mz ez].
  apply binary_round_aux_signed. lia.
Qed.

Lemma ldexp_signed (s : bool) (x : spec_float) (e : Z) :
  signed s x -> signed s (SFldexp prec emax x e).
Proof.
  destruct x as [s'|s'| |s' m' e']; cbn [SFldexp signed]; try exact (fun H => H).
  intros ->. apply binary_round_signed.
Qed.

(** The float [SF2Prim] builds from a positive mantissa is not negative. *)
Lemma SF2Prim_signed (m : positive) (e : Z) :
  signed false (Prim2SF (SF2Prim (S754_finite false m e))).
Proof.
  cbn [SF2Prim]. cbv zeta. rewrite Z_ldexp_spec. apply ldexp_signed.
  rewrite of_uint63_spec.
  pose proof (Uint63.to_Z_bounded (Uint63Axioms.of_Z (Zpos m))) as [B _].
  destruct (Uint63Axioms.to_Z _) as [|p|p]; [reflexivity| |lia].
  apply binary_round_signed.
Qed.

Lemma nearest_signed (p q : Z) : signed false (Prim2SF (Py.nearest false p q)).
Proof.
  unfold Py.nearest. destruct (p <=? 0); [reflexivity|]. cbv zeta.
  destruct (Py.scale2 p q _) as [n1 d1].
  destruct (Py.scale2 p q _) as [n d].
  destruct (Py.round_half_even n d) as [|m|m]; try reflexivity.
  apply SF2Prim_signed.
Qed.

(** What [float] makes of a token of the pattern is the float nearest to
    a ratio of natural numbers. *)
Lemma float_of_token_nearest (tok : string) (v : float) :
  tok <> ""%string -> Str.all is_num tok = true ->
  Py.float_of_str tok = Some v -> exists p q, v = Py.nearest false p q.
Proof.
  intros N A. unfold Py.float_of_str.
  rewrite (TokenFacts.strip_float_id tok)
    by (exact (TokenFacts.all_impl _ _ _ TokenFacts.num_not_float_space A)).
  rewrite TokenFacts.drop_underscores_id;
    [| reflexivity | exact (TokenFacts.all_impl _ _ _ TokenFacts.num_not_underscore A)].
  destruct tok as [|c t]; [congruence|].
  simpl in A. apply andb_true_iff in A as [C _].
  rewrite (TokenFacts.split_sign_num c t C).
  destruct (TokenFacts.not_a_word c t C) as [W1 W2]. cbv zeta in W1, W2. rewrite W1, W2.
  destruct (Py.parse_decimal (String c t)) as [[mant ex]|]; [|discriminate].
  destruct (0 <=? ex); intros [= <-]; eauto.
Qed.

(** *** The relative error *)

Definition M_OPT : positive := 5410678635518442.   (* 0.300353 = M_OPT * 2^-54 *)

Lemma optimum_bits : Prim2SF OPTIMAL_CD = S754_finite false M_OPT (-54).
Proof. reflexivity. Qed.

Lemma binary_normalize_not_nan (m e : Z) (sz : bool) :
  binary_normalize prec emax m e sz <> S754_nan.
Proof.
  destruct m as [|p|p]; cbn [binary_normalize]; [discriminate| |].
  - pose proof (binary_round_signed false p e) as H.
    destruct (binary_round prec emax false p e); try discriminate. contradiction.
  - pose proof (binary_round_signed true p e) as H.
    destruct (binary_round prec emax true p e); try discriminate. contradiction.
Qed.

Lemma sub_finite_not_nan (x : spec_float) (s : bool) (m : positive) (e : Z) :
  x <> S754_nan -> SFsub prec emax x (S754_finite s m e) <> S754_nan.
Proof.
  destruct x as [sx|sx| |sx mx ex]; cbn [SFsub]; try discriminate; try congruence.
  intros _. cbv zeta. apply binary_normalize_not_nan.
Qed.

Lemma abs_signed (x : spec_float) : x <> S754_nan -> signed false (SFabs x).
Proof. destruct x; cbn; congruence. Qed.

Lemma div_finite_signed (x : spec_float) (m : positive) (e : Z) :
  signed false x -> signed false (SFdiv prec emax x (S754_finite false m e)).
Proof.
  destruct x as [sx|sx| |sx mx ex]; cbn [signed SFdiv]; try contradiction;
    try (intros ->; reflexivity).
  intros ->. unfold SFdiv_core_binary. cbv zeta.
  set (m' := match _ with 0 => Zpos mx | Zpos _ => _ | Zneg _ => 0 end).
  assert (0 <= m') as P.
  { subst m'. destruct (_ - _ - _) as [|k|k]; try lia.
    rewrite Z.shiftl_mul_pow2 by lia. pose proof (pow2_pos (Zpos k) ltac:(lia)). nia. }
  pose proof (Z.div_pos m' (Zpos m) P ltac:(lia)) as Q. unfold Z.div in Q.
  destruct (Z.div_eucl m' (Zpos m)) as [q r]. cbn [xorb].
  now apply binary_round_aux_signed.
Qed.

(** The relative error of a value that is a number is a number, and not
    negative. *)
Lemma relative_error_signed (v : float) :
  Prim2SF v <> S754_nan -> signed false (Prim2SF (relative_error v)).
Proof.
  intros V. unfold relative_error.
  rewrite div_spec, abs_spec, sub_spec, optimum_bits.
  apply div_finite_signed, abs_signed, sub_finite_not_nan, V.
Qed.

(** *** Comparisons of numbers *)

Lemma compare_numbers (x y : spec_float) :
  x <> S754_nan -> y <> S754_nan -> SFcompare x y <> None.
Proof. destruct x, y; cbn; congruence. Qed.

Lemma leb_or_ltb (x y : float) :
  Prim2SF x <> S754_nan -> Prim2SF y <> S754_nan ->
  (x <=? y)%float = true \/ (y <? x)%float = true.
Proof.
  intros X Y. rewrite leb_spec, ltb_spec. unfold SFleb, SFltb.
  rewrite (FloatOrder.SFcompare_flip (Prim2SF x) (Prim2SF y)).
  pose proof (compare_numbers _ _ X Y) as C.
  destruct (SFcompare (Prim2SF x) (Prim2SF y)) as [[]|]; cbn; auto; congruence.
Qed.

Lemma signed_not_nan (s : bool) (x : spec_float) : signed s x -> x <> S754_nan.
Proof. destruct x; cbn; congruence. Qed.

Lemma zero_leb_signed (x : float) : signed false (Prim2SF x) -> (0 <=? x)%float = true.
Proof.
  rewrite leb_spec. change (Prim2SF 0) with (S754_zero false).
  destruct (Prim2SF x) as [s|s| |s m e]; cbn; try contradiction; now intros ->.
Qed.

(** Whatever output is graded, the value read from it is a number and
    not negative, and so is its relative error: no NaN enters the
    comparisons, and exactly the three cases of the grading rule remain. *)
Theorem graded_value_is_a_number (output : string) (m : Re.match_object) (v : float) :
  cd_search output = Some m ->
  Py.float_of_str (group m) = Some v ->
  let e := relative_error v in
  (0 <=? v)%float = true
  /\ (0 <=? e)%float = true
  /\ ((e <=? TOLERANCE)%float = true
      \/ ((TOLERANCE <? e)%float = true /\ (e <? 1.0)%float = true)
      \/ (1.0 <=? e)%float = true).
Proof.
  intros S F. cbv zeta.
  assert (signed false (Prim2SF v)) as V.
  { rewrite cd_search_first_token in S.
    destruct (first_token output) as [[tok rest]|] eqn:T; [|discriminate].
    injection S as <-. cbn [group as_match Re.group1 fst] in F.
    apply first_token_split in T as (pre & _ & T).
    apply token_at_split in T as (lbl & ws & _ & _ & _ & N & A & _).
    destruct (float_of_token_nearest tok v N A F) as (p & q & ->).
    apply nearest_signed. }
  pose proof (relative_error_signed v (signed_not_nan _ _ V)) as E.
  split; [now apply zero_leb_signed|]. split; [now apply zero_leb_signed|].
  pose proof (signed_not_nan _ _ E) as En.
  destruct (leb_or_ltb (relative_error v) TOLERANCE En ltac:(discriminate)) as [H|H]; [now left|].
  right. destruct (leb_or_ltb 1.0 (relative_error v) ltac:(discriminate) En) as [G|G];
    [now right | now left].
Qed.

Lemma graded_value_is_a_number_witness :
  (0 <=? 0.45053)%float = true
  /\ (0 <=? relative_error 0.45053)%float = true
  /\ ((relative_error 0.45053 <=? TOLERANCE)%float = true
      \/ ((TOLERANCE <? relative_error 0.45053)%float = true
          /\ (relative_error 0.45053 <? 1.0)%float = true)
      \/ (1.0 <=? relative_error 0.45053)%float = true).
Proof.
  apply (graded_value_is_a_number (Scenarios.printed "0.450530")
           {| Re.group1 := Some "0.450530"; Re.after := "" |} 0.45053).
  - vm_compute. reflexivity.
  - vm_compute. reflexivity.
Defined.

End ValueClass.

(** ** Rounding to nearest, as the float operations do it *)

Module Rounding.

Import Binary64.
Local Open Scope Z_scope.

(** Where a remainder [r] of a division by [d] lies: nowhere, below,
    at or above the half. *)
Definition loc_of (r d : Z) : location :=
  if r =? 0 then loc_Exact else loc_Inexact (2 * r ?= d).

(** The quotient of [n] by [d] with the place of its remainder. *)
Definition ratio_record (n d : Z) : shr_record :=
  shr_record_of_loc (n / d) (loc_of (n mod d) d).

Lemma halve_ratio (n d : Z) :
  0 <= n -> 0 < d ->
  n / (2 * d) = (n / d) / 2
  /\ n mod (2 * d) = (n / d) mod 2 * d + n mod d.
Proof.
  intros N D.
  pose proof (Z.div_mod n d ltac:(lia)) as E.
  pose proof (Z.mod_pos_bound n d D) as R.
  pose proof (Z.div_mod (n / d) 2 ltac:(lia)) as E2.
  pose proof (Z.mod_pos_bound (n / d) 2 ltac:(lia)) as R2.
  set (q := n / d) in *. set (r := n mod d) in *.
  set (q' := q / 2) in *. set (b := q mod 2) in *.
  assert (n = q' * (2 * d) + (b * d + r)) as H by nia.
  assert (0 <= b * d + r < 2 * d) as B by nia.
  split.
  - symmetry. apply (Z.div_unique n (2 * d) q' (b * d + r)); [lia | lia].
  - symmetry. apply (Z.mod_unique n (2 * d) q' (b * d + r)); [lia | lia].
Qed.

(** One step to the right divides by two and keeps the place of the
    remainder. *)
Lemma shr_1_ratio (n d : Z) :
  0 <= n -> 0 < d -> shr_1 (ratio_record n d) = ratio_record n (2 * d).
Proof.
  intros N D. destruct (halve_ratio n d N D) as [Q R].
  pose proof (Z.mod_pos_bound n d D) as Rb.
  pose proof (Z.div_pos n d N D) as Qp.
  unfold ratio_record at 2. rewrite Q, R. unfold ratio_record, loc_of.
  set (q := n / d) in *. set (r := n mod d) in *. clearbody q r.
  destruct q as [|[p|p|]|p]; try lia.
  - (* q = 0 *)
    change (0 / 2) with 0. change (0 mod 2) with 0. rewrite Z.mul_0_l, Z.add_0_l.
    destruct (Z.eqb_spec r 0) as [->|Nz]; [reflexivity|].
    replace (2 * r ?= 2 * d) with Lt by (symmetry; apply Z.compare_lt_iff; lia).
    destruct (2 * r ?= d); reflexivity.
  - (* q odd, above one *)
    replace (Zpos p~1 / 2) with (Zpos p)
      by (change (Zpos p~1) with (2 * Zpos p + 1); apply (Z.div_unique _ _ _ 1); lia).
    replace (Zpos p~1 mod 2) with 1
      by (change (Zpos p~1) with (2 * Zpos p + 1); apply (Z.mod_unique _ _ (Zpos p)); lia).
    replace (1 * d + r =? 0) with false by (symmetry; apply Z.eqb_neq; lia).
    destruct (Z.eqb_spec r 0) as [->|Nz].
    + replace (2 * (1 * d + 0) ?= 2 * d) with Eq by (symmetry; apply Z.compare_eq_iff; lia).
      reflexivity.
    + replace (2 * (1 * d + r) ?= 2 * d) with Gt by (symmetry; apply Z.compare_gt_iff; lia).
      destruct (2 * r ?= d); reflexivity.
  - (* q even *)
    replace (Zpos p~0 / 2) with (Zpos p)
      by (change (Zpos p~0) with (2 * Zpos p); apply (Z.div_unique _ _ _ 0); lia).
    replace (Zpos p~0 mod 2) with 0
      by (change (Zpos p~0) with (2 * Zpos p); apply (Z.mod_unique _ _ (Zpos p)); lia).
    rewrite Z.mul_0_l, Z.add_0_l.
    destruct (Z.eqb_spec r 0) as [->|Nz]; [reflexivity|].
    replace (2 * r ?= 2 * d) with Lt by (symmetry; apply Z.compare_lt_iff; lia).
    destruct (2 * r ?= d); reflexivity.
  - (* q = 1 *)
    change (1 / 2) with 0. change (1 mod 2) with 1.
    replace (1 * d + r =? 0) with false by (symmetry; apply Z.eqb_neq; lia).
    destruct (Z.eqb_spec r 0) as [->|Nz].
    + replace (2 * (1 * d + 0) ?= 2 * d) with Eq by (symmetry; apply Z.compare_eq_iff; lia).
      reflexivity.
    + replace (2 * (1 * d + r) ?= 2 * d) with Gt by (symmetry; apply Z.compare_gt_iff; lia).
      destruct (2 * r ?= d); reflexivity.
Qed.

Lemma iter_shr_ratio (p : positive) (n d : Z) :
  0 <= n -> 0 < d ->
  iter_pos shr_1 p (ratio_record n d) = ratio_record n (d * 2 ^ Zpos p).
Proof.
  intros N. revert d. induction p as [p IH|p IH|]; intros d D; cbn [iter_pos].
  - rewrite shr_1_ratio, IH, IH by (try apply Z.mul_pos_pos; try apply pow2_pos; lia).
    f_equal. change (Zpos p~1) with (2 * Zpos p + 1).
    replace (2 * Zpos p + 1) with (1 + Zpos p + Zpos p) by lia.
    rewrite !Z.pow_add_r by lia. change (2 ^ 1) with 2. ring.
  - rewrite IH, IH by (try apply Z.mul_pos_pos; try apply pow2_pos; lia).
    f_equal. change (Zpos p~0) with (2 * Zpos p).
    replace (2 * Zpos p) with (Zpos p + Zpos p) by lia.
    rewrite !Z.pow_add_r by lia. ring.
  - rewrite shr_1_ratio by assumption. f_equal. change (2 ^ 1) with 2. ring.
Qed.

Lemma loc_of_record (m : Z) (l : location) :
  loc_of_shr_record (shr_record_of_loc m l) = l.
Proof. destruct l as [|[]]; reflexivity. Qed.

(** Rounding the quotient by the place of its remainder is rounding the
    ratio to the nearest integer, ties to even. *)
Lemma round_ratio (n d : Z) :
  0 < d ->
  round_nearest_even (shr_m (ratio_record n d)) (loc_of_shr_record (ratio_record n d))
  = Py.round_half_even n d.
Proof.
  intros D. unfold ratio_record. rewrite shr_record_of_loc_m, loc_of_record.
  unfold loc_of, Py.round_half_even. cbv zeta.
  pose proof (Z.mod_pos_bound n d D) as R.
  set (q := n / d). set (r := n mod d) in *. clearbody q r.
  destruct (Z.eqb_spec r 0) as [->|Nz].
  - cbn [round_nearest_even].
    replace (d <? 2 * 0) with false by (symmetry; apply Z.ltb_ge; lia).
    replace (2 * 0 =? d) with false by (symmetry; apply Z.eqb_neq; lia). reflexivity.
  - destruct (Z.compare_spec (2 * r) d) as [E|L|G]; cbn [round_nearest_even].
    + replace (d <? 2 * r) with false by (symmetry; apply Z.ltb_ge; lia).
      replace (2 * r =? d) with true by (symmetry; apply Z.eqb_eq; lia).
      rewrite <- Z.negb_even. cbn. destruct (Z.even q); reflexivity.
    + replace (d <? 2 * r) with false by (symmetry; apply Z.ltb_ge; lia).
      replace (2 * r =? d) with false by (symmetry; apply Z.eqb_neq; lia). reflexivity.
    + replace (d <? 2 * r) with true by (symmetry; apply Z.ltb_lt; lia). reflexivity.
Qed.

(** The last step of a rounding: the rounded mantissa [m] at exponent [c]
    is brought to the format, to zero or to infinity. *)
Definition finish (s : bool) (m c : Z) : spec_float :=
  let '(mrs, e) := shr_fexp prec emax m c loc_Exact in
  match shr_m mrs with
  | 0 => S754_zero s
  | Zpos p => if e <=? emax - prec then S754_finite s p e else S754_infinity s
  | Zneg _ => S754_nan
  end.

(** The exponent a ratio [n / d] at exponent [e] is rounded at. *)
Definition target (n d e : Z) : Z := Z.max e (fexp64 (Zdigits2 (n / d) + e)).

(** Rounding a quotient with the place of its remainder: the ratio,
    brought to the target exponent, is rounded to the nearest integer. *)
Lemma binary_round_aux_ratio (s : bool) (n d e : Z) :
  0 <= n -> 0 < d ->
  binary_round_aux prec emax s (n / d) e (loc_of (n mod d) d)
  = finish s (Py.round_half_even n (d * 2 ^ (target n d e - e))) (target n d e).
Proof.
  intros N D. unfold binary_round_aux, finish, target.
  unfold shr_fexp at 1. rewrite fexp_eq. unfold shr.
  fold (ratio_record n d).
  destruct (fexp64 (Zdigits2 (n / d) + e) - e) as [|p|p] eqn:K.
  - replace (Z.max e _) with e by lia. rewrite Z.sub_diag, Z.pow_0_r, Z.mul_1_r.
    rewrite (round_ratio n d D). reflexivity.
  - replace (Z.max e _) with (e + Zpos p) by lia.
    replace (e + Zpos p - e) with (Zpos p) by lia.
    rewrite (iter_shr_ratio p n d N D).
    rewrite round_ratio by (apply Z.mul_pos_pos; [lia | apply pow2_pos; lia]).
    reflexivity.
  - replace (Z.max e _) with e by lia. rewrite Z.sub_diag, Z.pow_0_r, Z.mul_1_r.
    rewrite (round_ratio n d D). reflexivity.
Qed.


(** *** The last step *)

Lemma Zdigits2_unique (m a : Z) :
  0 < m -> 2 ^ (a - 1) <= m < 2 ^ a -> Zdigits2 m = a.
Proof.
  intros M [L U]. destruct m as [|p|p]; try lia. cbn [Zdigits2].
  pose proof (digits2_bounds p) as [L' U'].
  set (b := Zpos (digits2_pos p)) in *. assert (0 < b) as B by (unfold b; lia). clearbody b.
  assert (0 < a) as A.
  { destruct (Z_lt_le_dec 0 a) as [|Neg]; [assumption|exfalso].
    destruct (Z.eq_dec a 0) as [->|Nz].
    - cbn in U. lia.
    - rewrite Z.pow_neg_r in U by lia. lia. }
  destruct (Z.lt_trichotomy a b) as [Lt|[Eq|Gt]]; [exfalso|lia|exfalso].
  - assert (2 ^ a <= 2 ^ (b - 1)) by (apply Z.pow_le_mono_r; lia). lia.
  - assert (2 ^ b <= 2 ^ (a - 1)) by (apply Z.pow_le_mono_r; lia). lia.
Qed.

Lemma Zdigits2_pos (m : Z) : 0 < m -> 0 < Zdigits2 m.
Proof. destruct m; cbn; lia. Qed.

Lemma Zdigits2_nonneg (m : Z) : 0 <= m -> 0 <= Zdigits2 m.
Proof. destruct m; cbn; lia. Qed.

Lemma Zdigits2_bounds (m : Z) :
  0 < m -> 2 ^ (Zdigits2 m - 1) <= m < 2 ^ Zdigits2 m.
Proof. destruct m as [|p|p]; try lia. intros _. apply digits2_bounds. Qed.

Lemma Zdigits2_monotone (a b : Z) : 0 <= a <= b -> Zdigits2 a <= Zdigits2 b.
Proof.
  intros [A B]. destruct (Z.eq_dec a 0) as [->|Na].
  - now apply Zdigits2_nonneg.
  - apply Zdigits2_le; [lia | apply Zdigits2_nonneg; lia |].
    pose proof (Zdigits2_bounds b ltac:(lia)). lia.
Qed.

Lemma finish_zero (s : bool) (c : Z) : -1074 <= c -> finish s 0 c = S754_zero s.
Proof.
  intros C. unfold finish, shr_fexp, shr. rewrite fexp_eq. cbn [Zdigits2].
  unfold fexp64. destruct (Z.max (0 + c - 53) (-1074) - c) as [|p|p] eqn:K; try lia; reflexivity.
Qed.

Lemma finish_small (s : bool) (m : positive) (c : Z) :
  Zpos m < 2 ^ 53 -> -1074 <= c ->
  finish s (Zpos m) c = if c <=? 971 then S754_finite s m c else S754_infinity s.
Proof.
  intros M C. unfold finish, shr_fexp, shr. rewrite fexp_eq.
  assert (Zdigits2 (Zpos m) <= 53) as Dg by (apply Zdigits2_le; lia).
  unfold fexp64.
  destruct (Z.max (Zdigits2 (Zpos m) + c - 53) (-1074) - c) as [|p|p] eqn:K; try lia; reflexivity.
Qed.

Lemma finish_top (s : bool) (c : Z) :
  -1074 <= c ->
  finish s (2 ^ 53) c
  = if c + 1 <=? 971 then S754_finite s 4503599627370496 (c + 1) else S754_infinity s.
Proof.
  intros C. unfold finish, shr_fexp, shr. rewrite fexp_eq.
  change (Zdigits2 (2 ^ 53)) with 54. unfold fexp64.
  replace (Z.max (54 + c - 53) (-1074) - c) with 1 by lia.
  reflexivity.
Qed.

(** *** Numbers that are not negative, and their order *)

Definition nonneg (x : spec_float) : Prop :=
  match x with
  | S754_zero _ => True
  | S754_finite s _ _ | S754_infinity s => s = false
  | S754_nan => False
  end.

(** [x <= y] for two such numbers. *)
Definition nle (x y : spec_float) : Prop :=
  match x, y with
  | S754_zero _, _ => nonneg y
  | S754_finite false m e, S754_finite false m' e' => dle (Zpos m) e (Zpos m') e'
  | S754_finite false _ _, S754_infinity false => True
  | S754_infinity false, S754_infinity false => True
  | _, _ => False
  end.

Lemma finish_nonneg (m c : Z) :
  0 <= m <= 2 ^ 53 -> -1074 <= c -> nonneg (finish false m c).
Proof.
  intros M C. destruct (Z.eq_dec m (2 ^ 53)) as [->|Nt].
  - rewrite finish_top by assumption. destruct (c + 1 <=? 971); reflexivity.
  - destruct m as [|p|p]; try lia.
    + now rewrite finish_zero.
    + rewrite finish_small by lia. destruct (c <=? 971); reflexivity.
Qed.

(** The last step keeps the order: at one exponent by the mantissas,
    and across exponents when the larger one holds a full mantissa. *)
Lemma finish_le (m1 c1 m2 c2 : Z) :
  0 <= m1 <= 2 ^ 53 -> 0 <= m2 <= 2 ^ 53 -> -1074 <= c1 -> -1074 <= c2 ->
  (c1 = c2 /\ m1 <= m2) \/ (c1 < c2 /\ 2 ^ 52 <= m2) ->
  nle (finish false m1 c1) (finish false m2 c2).
Proof.
  intros M1 M2 C1 C2 H.
  change (2 ^ 53) with 9007199254740992 in *. change (2 ^ 52) with 4503599627370496 in *.
  destruct (Z.eq_dec m1 0) as [->|N1].
  { rewrite finish_zero by assumption. cbn [nle].
    apply finish_nonneg; [change (2 ^ 53) with 9007199254740992; lia | assumption]. }
  assert (0 < m2) as P2 by lia.
  destruct m1 as [|p1|p1]; try lia. destruct m2 as [|p2|p2]; try lia.
  destruct (Z.eq_dec (Zpos p2) 9007199254740992) as [T2|T2].
  - (* the larger one is rounded up to the next power of two *)
    rewrite T2. change 9007199254740992 with (2 ^ 53). rewrite finish_top by assumption.
    destruct (Z.eq_dec (Zpos p1) 9007199254740992) as [T1|T1].
    + rewrite T1. change 9007199254740992 with (2 ^ 53). rewrite finish_top by assumption.
      destruct (Z.leb_spec (c2 + 1) 971) as [F2|F2].
      * replace (c1 + 1 <=? 971) with true by (symmetry; apply Z.leb_le; lia).
        cbn [nle]. apply (dle_at c1); [lia | lia |].
        replace (c1 + 1 - c1) with 1 by lia.
        replace (c2 + 1 - c1) with ((c2 - c1) + 1) by lia.
        rewrite pow2_split by lia. pose proof (pow2_pos (c2 - c1) ltac:(lia)). nia.
      * destruct (c1 + 1 <=? 971); reflexivity.
    + rewrite finish_small by (change (2 ^ 53) with 9007199254740992; lia).
      destruct (Z.leb_spec (c2 + 1) 971) as [F2|F2].
      * replace (c1 <=? 971) with true by (symmetry; apply Z.leb_le; lia).
        cbn [nle]. apply (dle_at c1); [lia | lia |].
        rewrite Z.sub_diag, Z.pow_0_r, Z.mul_1_r.
        replace (c2 + 1 - c1) with ((c2 - c1) + 1) by lia.
        rewrite pow2_split by lia. pose proof (pow2_pos (c2 - c1) ltac:(lia)). nia.
      * destruct (c1 <=? 971); reflexivity.
  - rewrite (finish_small false p2) by (change (2 ^ 53) with 9007199254740992; lia).
    destruct (Z.eq_dec (Zpos p1) 9007199254740992) as [T1|T1].
    + (* only across exponents *)
      destruct H as [[E L]|[Lt L]]; [lia|].
      rewrite T1. change 9007199254740992 with (2 ^ 53). rewrite finish_top by assumption.
      destruct (Z.leb_spec c2 971) as [F2|F2].
      * replace (c1 + 1 <=? 971) with true by (symmetry; apply Z.leb_le; lia).
        cbn [nle]. apply (dle_at (c1 + 1)); [lia | lia |].
        rewrite Z.sub_diag, Z.pow_0_r, Z.mul_1_r.
        pose proof (pow2_pos (c2 - (c1 + 1)) ltac:(lia)). nia.
      * destruct (c1 + 1 <=? 971); reflexivity.
    + rewrite (finish_small false p1) by (change (2 ^ 53) with 9007199254740992; lia).
      destruct (Z.leb_spec c2 971) as [F2|F2].
      * replace (c1 <=? 971) with true by (symmetry; apply Z.leb_le; lia).
        cbn [nle]. apply (dle_at c1); [lia | lia |].
        rewrite Z.sub_diag, Z.pow_0_r, Z.mul_1_r.
        destruct H as [[E L]|[Lt L]].
        -- subst c2. rewrite Z.sub_diag, Z.pow_0_r. lia.
        -- assert (2 ^ 1 <= 2 ^ (c2 - c1)) as P by (apply Z.pow_le_mono_r; lia).
           change (2 ^ 1) with 2 in P. nia.
      * destruct (c1 <=? 971); reflexivity.
Qed.

(** *** Rounding to the nearest integer keeps the order of ratios *)

Lemma round_half_even_bounds (n d : Z) :
  0 <= n -> 0 < d -> n / d <= Py.round_half_even n d <= n / d + 1.
Proof.
  intros N D. unfold Py.round_half_even. cbv zeta.
  destruct ((d <? 2 * (n mod d)) || ((2 * (n mod d) =? d) && Z.odd (n / d))); lia.
Qed.

Lemma round_half_even_monotone (n1 d1 n2 d2 : Z) :
  0 <= n1 -> 0 < d1 -> 0 < d2 -> n1 * d2 <= n2 * d1 ->
  Py.round_half_even n1 d1 <= Py.round_half_even n2 d2.
Proof.
  intros N1 D1 D2 H.
  assert (0 <= n2) as N2 by nia.
  pose proof (Z.div_mod n1 d1 ltac:(lia)) as E1.
  pose proof (Z.mod_pos_bound n1 d1 D1) as R1.
  pose proof (Z.div_mod n2 d2 ltac:(lia)) as E2.
  pose proof (Z.mod_pos_bound n2 d2 D2) as R2.
  pose proof (round_half_even_bounds n1 d1 N1 D1) as B1.
  pose proof (round_half_even_bounds n2 d2 N2 D2) as B2.
  assert (n1 / d1 <= n2 / d2) as Q.
  { apply Z.div_le_lower_bound; [lia|].
    (* d2 * (n1 / d1) <= n2 *)
    assert (d1 * (d2 * (n1 / d1)) <= d1 * n2); [|nia].
    assert (d1 * (n1 / d1) <= n1) by lia. nia. }
  destruct (Z.eq_dec (n1 / d1) (n2 / d2)) as [Eq|Ne]; [|lia].
  unfold Py.round_half_even in *. cbv zeta in *.
  set (q1 := n1 / d1) in *. set (r1 := n1 mod d1) in *.
  set (q2 := n2 / d2) in *. set (r2 := n2 mod d2) in *.
  clearbody q1 r1 q2 r2. subst q2.
  assert (r1 * d2 <= r2 * d1) as R by nia.
  destruct (Z.ltb_spec d1 (2 * r1)) as [G1|G1]; cbn [orb].
  - replace (d2 <? 2 * r2) with true by (symmetry; apply Z.ltb_lt; nia). cbn. lia.
  - destruct (Z.eqb_spec (2 * r1) d1) as [T1|T1]; cbn [andb].
    + destruct (Z.odd q1) eqn:O.
      * destruct (Z.ltb_spec d2 (2 * r2)) as [G2|G2]; cbn [orb]; [lia|].
        replace (2 * r2 =? d2) with true by (symmetry; apply Z.eqb_eq; nia). cbn. lia.
      * destruct ((d2 <? 2 * r2) || ((2 * r2 =? d2) && false)); lia.
    + destruct ((d2 <? 2 * r2) || ((2 * r2 =? d2) && Z.odd q1)); lia.
Qed.


(** *** Rounding keeps the order *)

(** The float a ratio [n / d] at exponent [e] is rounded to. *)
Definition rnd (n d e : Z) : spec_float :=
  binary_round_aux prec emax false (n / d) e (loc_of (n mod d) d).

(** The quotient holds the digits the format asks for: rounding only
    shifts to the right. *)
Definition normal_input (n d e : Z) : Prop := e <= fexp64 (Zdigits2 (n / d) + e).

(** [n1 / d1 * 2^e1 <= n2 / d2 * 2^e2]. *)
Definition rle (n1 d1 e1 n2 d2 e2 : Z) : Prop := dle (n1 * d2) e1 (n2 * d1) e2.

Section Monotone.

Variables n d e : Z.
Hypothesis N : 0 <= n.
Hypothesis D : 0 < d.
Hypothesis I : normal_input n d e.

Let q := n / d.
Let c := fexp64 (Zdigits2 q + e).
Let m := Py.round_half_even n (d * 2 ^ (c - e)).

Lemma rnd_finish : rnd n d e = finish false m c.
Proof.
  unfold rnd. rewrite binary_round_aux_ratio by assumption.
  unfold target. fold q. fold c. unfold normal_input in I. fold q in I. fold c in I.
  replace (Z.max e c) with c by lia. reflexivity.
Qed.

Lemma rnd_exponent : e <= c /\ -1074 <= c.
Proof. unfold normal_input in I. fold q in I. unfold c, fexp64 in *. lia. Qed.

Lemma rnd_quotient : n / (d * 2 ^ (c - e)) = q / 2 ^ (c - e).
Proof. unfold q. rewrite Z.div_div; [reflexivity | lia | apply pow2_pos; pose proof rnd_exponent; lia]. Qed.

Lemma rnd_mantissa : 0 <= m <= 2 ^ 53.
Proof.
  destruct rnd_exponent as [E C].
  pose proof (pow2_pos (c - e) ltac:(lia)) as P.
  assert (0 < d * 2 ^ (c - e)) as DP by (apply Z.mul_pos_pos; lia).
  pose proof (round_half_even_bounds n _ N DP) as B. fold m in B.
  rewrite rnd_quotient in B.
  assert (0 <= q) as Q by (apply Z.div_pos; lia).
  assert (0 <= q / 2 ^ (c - e)) by (apply Z.div_pos; lia).
  split; [lia|].
  assert (q / 2 ^ (c - e) < 2 ^ 53); [|lia].
  apply Z.div_lt_upper_bound; [lia|].
  destruct (Z.eq_dec q 0) as [->|Nq].
  - pose proof (pow2_pos 53 ltac:(lia)). nia.
  - pose proof (Zdigits2_bounds q ltac:(lia)) as [_ U].
    assert (2 ^ Zdigits2 q <= 2 ^ ((c - e) + 53)) as L.
    { apply Z.pow_le_mono_r; [lia|]. unfold c, fexp64. lia. }
    rewrite pow2_split in L by lia. lia.
Qed.

Lemma rnd_full : -1074 < c -> 0 < q /\ 2 ^ 52 <= m.
Proof.
  intros G. destruct rnd_exponent as [E C].
  assert (0 <= q) as Q by (apply Z.div_pos; lia).
  assert (0 < q) as Qp.
  { destruct (Z.eq_dec q 0) as [Z|]; [exfalso|lia].
    unfold c, fexp64 in E, G. rewrite Z in E, G. cbn [Zdigits2] in E, G. lia. }
  split; [exact Qp|].
  pose proof (pow2_pos (c - e) ltac:(lia)) as P.
  assert (0 < d * 2 ^ (c - e)) as DP by (apply Z.mul_pos_pos; lia).
  pose proof (round_half_even_bounds n _ N DP) as B. fold m in B.
  rewrite rnd_quotient in B.
  assert (2 ^ 52 <= q / 2 ^ (c - e)); [|lia].
  apply Z.div_le_lower_bound; [lia|].
  pose proof (Zdigits2_bounds q Qp) as [L _].
  assert (c - e = Zdigits2 q - 53) as K by (unfold c, fexp64 in *; lia).
  replace (Zdigits2 q - 1) with ((c - e) + 52) in L by lia.
  rewrite pow2_split in L by lia. lia.
Qed.

End Monotone.

Lemma cross_lt (q1 q2 n1 n2 d1 d2 a1 a2 : Z) :
  0 < d1 -> 0 < d2 -> 0 < a1 -> 0 < a2 ->
  q1 * d1 <= n1 -> n2 < (q2 + 1) * d2 ->
  n1 * d2 * a1 <= n2 * d1 * a2 ->
  q1 * a1 < (q2 + 1) * a2.
Proof.
  intros D1 D2 A1 A2 L U H.
  assert (q1 * a1 * (d1 * d2) <= n1 * d2 * a1) as X.
  { replace (q1 * a1 * (d1 * d2)) with (q1 * d1 * (d2 * a1)) by ring.
    replace (n1 * d2 * a1) with (n1 * (d2 * a1)) by ring.
    apply Z.mul_le_mono_nonneg_r; [apply Z.mul_nonneg_nonneg; lia | exact L]. }
  assert (n2 * d1 * a2 < (q2 + 1) * a2 * (d1 * d2)) as Y.
  { replace (n2 * d1 * a2) with (n2 * (d1 * a2)) by ring.
    replace ((q2 + 1) * a2 * (d1 * d2)) with ((q2 + 1) * d2 * (d1 * a2)) by ring.
    apply Z.mul_lt_mono_pos_r; [apply Z.mul_pos_pos; lia | exact U]. }
  apply (Z.mul_lt_mono_pos_r (d1 * d2)); [apply Z.mul_pos_pos; lia | lia].
Qed.

Lemma rnd_monotone (n1 d1 e1 n2 d2 e2 : Z) :
  0 <= n1 -> 0 < d1 -> 0 <= n2 -> 0 < d2 ->
  normal_input n1 d1 e1 -> normal_input n2 d2 e2 ->
  rle n1 d1 e1 n2 d2 e2 ->
  nle (rnd n1 d1 e1) (rnd n2 d2 e2).
Proof.
  intros N1 D1 N2 D2 I1 I2 H.
  rewrite (rnd_finish n1 d1 e1 N1 D1 I1), (rnd_finish n2 d2 e2 N2 D2 I2).
  pose proof (rnd_exponent n1 d1 e1 I1) as [E1 C1].
  pose proof (rnd_exponent n2 d2 e2 I2) as [E2 C2].
  pose proof (rnd_mantissa n1 d1 e1 N1 D1 I1) as M1.
  pose proof (rnd_mantissa n2 d2 e2 N2 D2 I2) as M2.
  pose proof (rnd_full n1 d1 e1 N1 D1 I1) as F1.
  pose proof (rnd_full n2 d2 e2 N2 D2 I2) as F2.
  set (q1 := n1 / d1) in *. set (q2 := n2 / d2) in *.
  set (c1 := fexp64 (Zdigits2 q1 + e1)) in *. set (c2 := fexp64 (Zdigits2 q2 + e2)) in *.
  set (b := Z.min e1 e2).
  unfold rle, dle in H. fold b in H.
  pose proof (pow2_pos (e1 - b) ltac:(lia)) as A1.
  pose proof (pow2_pos (e2 - b) ltac:(lia)) as A2.
  (* the exponents are ordered like the values *)
  assert (c1 <= c2) as C.
  { destruct (Z_le_gt_dec c1 c2) as [|G]; [assumption|exfalso].
    destruct (F1 ltac:(lia)) as [Q1 _].
    assert (Zdigits2 q2 + e2 < Zdigits2 q1 + e1) as Dg by (unfold c1, c2, fexp64 in *; lia).
    assert (0 <= q2) as Q2 by (apply Z.div_pos; lia).
    pose proof (Zdigits2_bounds q1 Q1) as [L1 _].
    assert (q2 + 1 <= 2 ^ Zdigits2 q2) as U2.
    { destruct (Z.eq_dec q2 0) as [->|Nz]; [cbn; lia|].
      pose proof (Zdigits2_bounds q2 ltac:(lia)). lia. }
    pose proof (Zdigits2_nonneg q2 Q2) as G2.
    pose proof (Zdigits2_pos q1 Q1) as G1.
    pose proof (Z.div_mod n1 d1 ltac:(lia)) as X1. pose proof (Z.mod_pos_bound n1 d1 D1) as Y1.
    pose proof (Z.div_mod n2 d2 ltac:(lia)) as X2. pose proof (Z.mod_pos_bound n2 d2 D2) as Y2.
    fold q1 in X1. fold q2 in X2.
    assert (q1 * 2 ^ (e1 - b) < (q2 + 1) * 2 ^ (e2 - b)) as V.
    { apply (cross_lt q1 q2 n1 n2 d1 d2); try assumption; lia. }
    assert (2 ^ (Zdigits2 q1 - 1 + (e1 - b)) < 2 ^ (Zdigits2 q2 + (e2 - b))) as W.
    { rewrite !pow2_split by lia.
      apply Z.le_lt_trans with (q1 * 2 ^ (e1 - b)).
      - apply Z.mul_le_mono_nonneg_r; lia.
      - apply Z.lt_le_trans with ((q2 + 1) * 2 ^ (e2 - b)); [exact V|].
        apply Z.mul_le_mono_nonneg_r; lia. }
    apply Z.pow_lt_mono_r_iff in W; lia. }
  apply finish_le; try assumption.
  destruct (Z.eq_dec c1 c2) as [Eq|Ne].
  - left. split; [exact Eq|].
    pose proof (pow2_pos (c1 - e1) ltac:(lia)) as P1.
    pose proof (pow2_pos (c2 - e2) ltac:(lia)) as P2.
    apply round_half_even_monotone; try lia; try (apply Z.mul_pos_pos; lia).
    fold c1 c2.
    (* n1 * (d2 * 2^(c2-e2)) <= n2 * (d1 * 2^(c1-e1)) *)
    assert (2 ^ (c1 - e1) * 2 ^ (e1 - b) = 2 ^ (c1 - b)) as S1
      by (rewrite <- pow2_split by lia; f_equal; lia).
    assert (2 ^ (c2 - e2) * 2 ^ (e2 - b) = 2 ^ (c1 - b)) as S2
      by (rewrite <- pow2_split by lia; f_equal; lia).
    pose proof (pow2_pos (c1 - b) ltac:(lia)) as Pb.
    set (x1 := 2 ^ (c1 - e1)) in *. set (x2 := 2 ^ (c2 - e2)) in *.
    set (a1 := 2 ^ (e1 - b)) in *. set (a2 := 2 ^ (e2 - b)) in *.
    set (g := 2 ^ (c1 - b)) in *. clearbody x1 x2 a1 a2 g.
    assert (n1 * d2 * a1 * (x1 * x2) <= n2 * d1 * a2 * (x1 * x2)) as K
      by (apply Z.mul_le_mono_nonneg_r; [apply Z.mul_nonneg_nonneg; lia | exact H]).
    assert (n1 * (d2 * x2) * g <= n2 * (d1 * x1) * g) as K'.
    { replace (n1 * (d2 * x2) * g) with (n1 * d2 * a1 * (x1 * x2)) by (rewrite <- S1; ring).
      replace (n2 * (d1 * x1) * g) with (n2 * d1 * a2 * (x1 * x2)) by (rewrite <- S2; ring).
      exact K. }
    apply Z.mul_le_mono_pos_r in K'; [exact K' | exact Pb].
  - right. split; [lia|]. apply F2. lia.
Qed.


Lemma rnd_nonneg (n d e : Z) :
  0 <= n -> 0 < d -> normal_input n d e -> nonneg (rnd n d e).
Proof.
  intros N D I. rewrite (rnd_finish n d e N D I).
  apply finish_nonneg; [exact (rnd_mantissa n d e N D I) | exact (proj2 (rnd_exponent n d e I))].
Qed.

(** *** The order of numbers *)

Lemma dle_refl (m e : Z) : dle m e m e.
Proof. unfold dle. lia. Qed.

Lemma dle_trans (m1 e1 m2 e2 m3 e3 : Z) :
  dle m1 e1 m2 e2 -> dle m2 e2 m3 e3 -> dle m1 e1 m3 e3.
Proof.
  intros A B. set (b := Z.min e1 (Z.min e2 e3)).
  apply (dle_at b) in A; [|lia|lia]. apply (dle_at b) in B; [|lia|lia].
  apply (dle_at b); lia.
Qed.

Lemma nle_nonneg_l (x y : spec_float) : nle x y -> nonneg x.
Proof. destruct x as [s|[]| |[] m e], y as [s'|[]| |[] m' e']; cbn; tauto. Qed.

Lemma nle_nonneg_r (x y : spec_float) : nle x y -> nonneg y.
Proof. destruct x as [s|[]| |[] m e], y as [s'|[]| |[] m' e']; cbn; tauto. Qed.

Lemma nle_refl (x : spec_float) : nonneg x -> nle x x.
Proof.
  destruct x as [s|[]| |[] m e]; cbn; try tauto; try discriminate.
  intros _. apply dle_refl.
Qed.

Lemma nle_trans (x y z : spec_float) : nle x y -> nle y z -> nle x z.
Proof.
  destruct x as [s|[]| |[] m e], y as [s'|[]| |[] m' e'], z as [s''|[]| |[] m'' e''];
    cbn; try tauto; try discriminate.
  apply dle_trans.
Qed.

Lemma nle_infinity (x : spec_float) : nonneg x -> nle x (S754_infinity false).
Proof. destruct x as [s|[]| |[] m e]; cbn; try tauto; discriminate. Qed.

Lemma nle_zero (s : bool) (y : spec_float) : nonneg y -> nle (S754_zero s) y.
Proof. auto. Qed.

Lemma abs_nonneg (x : spec_float) : x <> S754_nan -> nonneg (SFabs x).
Proof. destruct x; cbn; try tauto; congruence. Qed.

Lemma abs_nle (x y : spec_float) : nle x y -> nle (SFabs x) (SFabs y).
Proof. destruct x as [s|[]| |[] m e], y as [s'|[]| |[] m' e']; cbn; tauto. Qed.

(** *** Rounding an exact number *)

Lemma Zdigits2_shift (m k : Z) : 0 < m -> 0 <= k -> Zdigits2 (m * 2 ^ k) = Zdigits2 m + k.
Proof.
  intros M K. pose proof (Zdigits2_bounds m M) as [L U].
  pose proof (Zdigits2_pos m M) as P. pose proof (pow2_pos k K) as Pk.
  apply Zdigits2_unique; [nia|].
  replace (Zdigits2 m + k - 1) with ((Zdigits2 m - 1) + k) by lia.
  rewrite !pow2_split by lia. nia.
Qed.

Lemma loc_of_exact (n : Z) : loc_of (n mod 1) 1 = loc_Exact.
Proof. now rewrite Z.mod_1_r. Qed.

(** [binary_round] first lends the mantissa the digits it lacks, then
    rounds: the number [m * 2^e], rounded. *)
Lemma binary_round_rnd (m : positive) (e : Z) :
  let e' := Z.min e (fexp64 (Zdigits2 (Zpos m) + e)) in
  binary_round prec emax false m e = rnd (Zpos m * 2 ^ (e - e')) 1 e'
  /\ normal_input (Zpos m * 2 ^ (e - e')) 1 e'.
Proof.
  cbv zeta. unfold binary_round. rewrite fexp_eq.
  pose proof (shl_align_spec m e (fexp64 (Zpos (digits2_pos m) + e))) as [A1 A2].
  change (Zpos (digits2_pos m)) with (Zdigits2 (Zpos m)) in *.
  destruct (shl_align m e _) as [mz ez]. cbn [fst snd] in A1, A2.
  set (e' := Z.min e (fexp64 (Zdigits2 (Zpos m) + e))) in *.
  rewrite <- A2. split.
  - unfold rnd. rewrite Z.div_1_r, loc_of_exact. now subst ez.
  - unfold normal_input. rewrite Z.div_1_r, A2.
    rewrite Zdigits2_shift by lia.
    replace (Zdigits2 (Zpos m) + (e - e') + e') with (Zdigits2 (Zpos m) + e) by lia.
    unfold e'. lia.
Qed.

Lemma binary_round_monotone (m1 : positive) (e1 : Z) (m2 : positive) (e2 : Z) :
  dle (Zpos m1) e1 (Zpos m2) e2 ->
  nle (binary_round prec emax false m1 e1) (binary_round prec emax false m2 e2).
Proof.
  intros H.
  destruct (binary_round_rnd m1 e1) as [-> I1]. destruct (binary_round_rnd m2 e2) as [-> I2].
  set (a1 := Z.min e1 (fexp64 (Zdigits2 (Zpos m1) + e1))) in *.
  set (a2 := Z.min e2 (fexp64 (Zdigits2 (Zpos m2) + e2))) in *.
  pose proof (pow2_pos (e1 - a1) ltac:(lia)). pose proof (pow2_pos (e2 - a2) ltac:(lia)).
  apply rnd_monotone; try assumption; try lia.
  set (b := Z.min a1 a2).
  unfold rle. apply (dle_at b); [lia | lia |].
  apply (dle_at b) in H; [|lia|lia].
  rewrite !Z.mul_1_r, <- !Z.mul_assoc, <- !pow2_split by lia.
  replace (e1 - a1 + (a1 - b)) with (e1 - b) by lia.
  replace (e2 - a2 + (a2 - b)) with (e2 - b) by lia. exact H.
Qed.

Lemma binary_round_nonneg (m : positive) (e : Z) : nonneg (binary_round prec emax false m e).
Proof.
  destruct (binary_round_rnd m e) as [-> I].
  pose proof (pow2_pos (e - Z.min e (fexp64 (Zdigits2 (Zpos m) + e))) ltac:(lia)).
  apply rnd_nonneg; [lia | lia | exact I].
Qed.

(** [binary_normalize] of a number that is not negative. *)
Lemma normalize_nonneg (m e : Z) : 0 <= m -> nonneg (binary_normalize prec emax m e false).
Proof.
  destruct m as [|p|p]; try lia; intros _; cbn [binary_normalize]; [exact I|].
  apply binary_round_nonneg.
Qed.

Lemma normalize_monotone (m1 e1 m2 e2 : Z) :
  0 <= m1 -> dle m1 e1 m2 e2 ->
  nle (binary_normalize prec emax m1 e1 false) (binary_normalize prec emax m2 e2 false).
Proof.
  intros M1 H.
  assert (0 <= m2) as M2.
  { unfold dle in H. pose proof (pow2_pos (e1 - Z.min e1 e2) ltac:(lia)).
    pose proof (pow2_pos (e2 - Z.min e1 e2) ltac:(lia)). nia. }
  destruct m1 as [|p1|p1]; try lia.
  - cbn [binary_normalize nle]. now apply normalize_nonneg.
  - destruct m2 as [|p2|p2]; try lia.
    + exfalso. unfold dle in H. pose proof (pow2_pos (e1 - Z.min e1 e2) ltac:(lia)). nia.
    + cbn [binary_normalize]. now apply binary_round_monotone.
Qed.

(** A float of the format is its own rounding. *)
Lemma binary_round_canonical (m : positive) (e : Z) :
  fexp64 (Zdigits2 (Zpos m) + e) = e -> e <= 971 ->
  binary_round prec emax false m e = S754_finite false m e.
Proof.
  intros C E.
  destruct (binary_round_rnd m e) as [R I]. rewrite R.
  replace (Z.min e (fexp64 (Zdigits2 (Zpos m) + e))) with e in * by lia.
  rewrite Z.sub_diag, Z.pow_0_r, Z.mul_1_r in *.
  rewrite (rnd_finish (Zpos m) 1 e ltac:(lia) ltac:(lia) I).
  rewrite Z.div_1_r, C, Z.sub_diag, Z.pow_0_r.
  assert (Py.round_half_even (Zpos m) (1 * 1) = Zpos m) as ->.
  { unfold Py.round_half_even. cbv zeta. change (1 * 1) with 1.
    rewrite Z.mod_1_r, Z.div_1_r. reflexivity. }
  rewrite finish_small.
  - replace (e <=? 971) with true by (symmetry; apply Z.leb_le; lia). reflexivity.
  - pose proof (Zdigits2_bounds (Zpos m) ltac:(lia)) as [_ U].
    assert (2 ^ Zdigits2 (Zpos m) <= 2 ^ 53); [|lia].
    apply Z.pow_le_mono_r; [lia|]. unfold fexp64 in C. lia.
  - unfold fexp64 in C. lia.
Qed.


(** *** Division *)

Lemma new_location_spec (d r : Z) : 0 < d -> 0 <= r < d -> new_location d r = loc_of r d.
Proof.
  intros D R. unfold new_location, new_location_even, new_location_odd, loc_of.
  destruct (Z.even d) eqn:Ev; [reflexivity|].
  destruct (r =? 0); [reflexivity|]. f_equal.
  assert (Z.odd d = true) as Od by (rewrite <- Z.negb_even, Ev; reflexivity).
  apply Z.odd_spec in Od as [k Hk].
  destruct (Z.compare_spec (2 * r + 1) d) as [E|L|G].
  - symmetry. apply Z.compare_lt_iff. lia.
  - symmetry. apply Z.compare_lt_iff. lia.
  - symmetry. apply Z.compare_gt_iff. lia.
Qed.

Lemma Zdigits2_ge (q k : Z) : 0 <= k -> 2 ^ k <= q -> k + 1 <= Zdigits2 q.
Proof.
  intros K L. pose proof (pow2_pos k K) as P.
  pose proof (Zdigits2_bounds q ltac:(lia)) as [_ U].
  pose proof (Zdigits2_pos q ltac:(lia)) as G.
  destruct (Z_le_gt_dec (k + 1) (Zdigits2 q)) as [|Lt]; [assumption|exfalso].
  assert (2 ^ Zdigits2 q <= 2 ^ k) by (apply Z.pow_le_mono_r; lia). lia.
Qed.

Lemma fexp64_monotone (a b : Z) : a <= b -> fexp64 a <= fexp64 b.
Proof. unfold fexp64. lia. Qed.

(** The quotient of two positive floats is the ratio of the mantissas,
    rounded. *)
Lemma SFdiv_rnd (mx : positive) (ex : Z) (mc : positive) (ec : Z) :
  let e' := Z.min (fexp64 (Zdigits2 (Zpos mx) + ex - (Zdigits2 (Zpos mc) + ec))) (ex - ec) in
  SFdiv prec emax (S754_finite false mx ex) (S754_finite false mc ec)
  = rnd (Zpos mx * 2 ^ (ex - ec - e')) (Zpos mc) e'
  /\ normal_input (Zpos mx * 2 ^ (ex - ec - e')) (Zpos mc) e'.
Proof.
  cbv zeta. set (t := Zdigits2 (Zpos mx) + ex - (Zdigits2 (Zpos mc) + ec)).
  set (e' := Z.min (fexp64 t) (ex - ec)).
  assert (0 <= ex - ec - e') as S by (unfold e'; lia).
  pose proof (pow2_pos (ex - ec - e') S) as P.
  split.
  - unfold SFdiv, SFdiv_core_binary. cbv zeta. cbn [xorb]. rewrite fexp_eq.
    fold t. fold e'.
    assert (match ex - ec - e' with
            | 0 => Zpos mx
            | Zpos _ => Z.shiftl (Zpos mx) (ex - ec - e')
            | Zneg _ => 0
            end = Zpos mx * 2 ^ (ex - ec - e')) as ->.
    { destruct (ex - ec - e') as [|k|k] eqn:K; try lia.
      now rewrite Z.shiftl_mul_pow2 by lia. }
    set (n := Zpos mx * 2 ^ (ex - ec - e')).
    pose proof (Z.mod_pos_bound n (Zpos mc) ltac:(lia)) as R.
    unfold rnd. rewrite <- (new_location_spec (Zpos mc) (n mod Zpos mc)) by lia.
    unfold Z.div, Z.modulo.
    destruct (Z.div_eucl n (Zpos mc)) as [q r]. reflexivity.
  - unfold normal_input.
    set (n := Zpos mx * 2 ^ (ex - ec - e')).
    assert (0 <= n / Zpos mc) as Q by (apply Z.div_pos; lia).
    pose proof (Zdigits2_nonneg _ Q) as G.
    assert (t <= Zdigits2 (n / Zpos mc) + e') as T.
    { set (k := Zdigits2 (Zpos mx) + (ex - ec - e') - Zdigits2 (Zpos mc)).
      assert (t = k + e') as Tk by (unfold t, k; lia). rewrite Tk.
      destruct (Z_le_gt_dec k 0) as [|Kp]; [lia|].
      assert (k <= Zdigits2 (n / Zpos mc)); [|lia].
      replace k with ((k - 1) + 1) by lia. apply Zdigits2_ge; [lia|].
      apply Z.div_le_lower_bound; [lia|].
      pose proof (Zdigits2_bounds (Zpos mx) ltac:(lia)) as [L _].
      pose proof (Zdigits2_bounds (Zpos mc) ltac:(lia)) as [_ U].
      pose proof (Zdigits2_pos (Zpos mx) ltac:(lia)) as Gx.
      pose proof (Zdigits2_pos (Zpos mc) ltac:(lia)) as Gc.
      assert (2 ^ (Zdigits2 (Zpos mx) - 1) * 2 ^ (ex - ec - e')
              = 2 ^ Zdigits2 (Zpos mc) * 2 ^ (k - 1)) as E.
      { rewrite <- !pow2_split by lia. f_equal. unfold k. lia. }
      pose proof (pow2_pos (k - 1) ltac:(lia)) as Pk.
      unfold n.
      set (a := 2 ^ (Zdigits2 (Zpos mx) - 1)) in *. set (b := 2 ^ (ex - ec - e')) in *.
      set (u := 2 ^ Zdigits2 (Zpos mc)) in *. set (w := 2 ^ (k - 1)) in *.
      clearbody a b u w.
      assert (a * b <= Zpos mx * b) by (apply Z.mul_le_mono_nonneg_r; lia).
      assert (Zpos mc * w <= u * w) by (apply Z.mul_le_mono_nonneg_r; lia).
      lia. }
    pose proof (fexp64_monotone _ _ T).
    assert (e' <= fexp64 t) by (unfold e'; lia). lia.
Qed.

Lemma SFdiv_nonneg (x : spec_float) (mc : positive) (ec : Z) :
  nonneg x -> nonneg (SFdiv prec emax x (S754_finite false mc ec)).
Proof.
  destruct x as [s|s| |s mx ex]; cbn [nonneg]; try tauto.
  - intros ->. reflexivity.
  - intros ->. destruct (SFdiv_rnd mx ex mc ec) as [-> I].
    pose proof (pow2_pos (ex - ec
                - Z.min (fexp64 (Zdigits2 (Zpos mx) + ex - (Zdigits2 (Zpos mc) + ec))) (ex - ec))
                ltac:(lia)).
    apply rnd_nonneg; [lia | lia | exact I].
Qed.

(** Division by a positive float keeps the order. *)
Lemma SFdiv_monotone (x1 x2 : spec_float) (mc : positive) (ec : Z) :
  nle x1 x2 ->
  nle (SFdiv prec emax x1 (S754_finite false mc ec))
      (SFdiv prec emax x2 (S754_finite false mc ec)).
Proof.
  intros H. pose proof (nle_nonneg_r _ _ H) as N2.
  destruct x1 as [s1|[]| |[] m1 e1]; cbn [nle] in H; try contradiction.
  - (* zero *)
    change (SFdiv prec emax (S754_zero s1) (S754_finite false mc ec))
      with (S754_zero (xorb s1 false)).
    apply nle_zero. now apply SFdiv_nonneg.
  - destruct x2 as [s2|[]| |[] m2 e2]; try contradiction. reflexivity.
  - destruct x2 as [s2|[]| |[] m2 e2]; try contradiction.
    + (* finite below infinity *)
      change (SFdiv prec emax (S754_infinity false) (S754_finite false mc ec))
        with (S754_infinity false).
      apply nle_infinity. now apply SFdiv_nonneg.
    + destruct (SFdiv_rnd m1 e1 mc ec) as [-> I1]. destruct (SFdiv_rnd m2 e2 mc ec) as [-> I2].
      set (a1 := Z.min (fexp64 (Zdigits2 (Zpos m1) + e1 - (Zdigits2 (Zpos mc) + ec))) (e1 - ec)) in *.
      set (a2 := Z.min (fexp64 (Zdigits2 (Zpos m2) + e2 - (Zdigits2 (Zpos mc) + ec))) (e2 - ec)) in *.
      assert (a1 <= e1 - ec) as A1 by (unfold a1; lia).
      assert (a2 <= e2 - ec) as A2 by (unfold a2; lia).
      pose proof (pow2_pos (e1 - ec - a1) ltac:(lia)). pose proof (pow2_pos (e2 - ec - a2) ltac:(lia)).
      apply rnd_monotone; try assumption; try lia.
      set (b := Z.min a1 a2).
      unfold rle. apply (dle_at b); [lia | lia |].
      apply (dle_at (b + ec)) in H; [|lia|lia].
      replace (Zpos m1 * 2 ^ (e1 - ec - a1) * Zpos mc * 2 ^ (a1 - b))
        with (Zpos m1 * (2 ^ (e1 - ec - a1) * 2 ^ (a1 - b)) * Zpos mc) by ring.
      replace (Zpos m2 * 2 ^ (e2 - ec - a2) * Zpos mc * 2 ^ (a2 - b))
        with (Zpos m2 * (2 ^ (e2 - ec - a2) * 2 ^ (a2 - b)) * Zpos mc) by ring.
      rewrite <- !pow2_split by lia.
      replace (e1 - ec - a1 + (a1 - b)) with (e1 - (b + ec)) by lia.
      replace (e2 - ec - a2 + (a2 - b)) with (e2 - (b + ec)) by lia.
      apply Z.mul_le_mono_nonneg_r; [lia | exact H].
Qed.

(** *** Multiplication by a positive float with a full mantissa *)

Lemma SFmul_rnd (mc : positive) (ec : Z) (mx : positive) (ex : Z) :
  2 ^ 52 <= Zpos mc ->
  SFmul prec emax (S754_finite false mc ec) (S754_finite false mx ex)
  = rnd (Zpos mc * Zpos mx) 1 (ec + ex)
  /\ normal_input (Zpos mc * Zpos mx) 1 (ec + ex).
Proof.
  intros F. split.
  - cbn [SFmul xorb]. unfold rnd. rewrite Z.div_1_r, loc_of_exact. reflexivity.
  - unfold normal_input. rewrite Z.div_1_r.
    assert (52 + 1 <= Zdigits2 (Zpos mc * Zpos mx)) as G.
    { apply Zdigits2_ge; [lia|]. nia. }
    unfold fexp64. lia.
Qed.

Lemma SFmul_monotone (mc : positive) (ec : Z) (x1 x2 : spec_float) :
  2 ^ 52 <= Zpos mc -> nle x1 x2 ->
  nle (SFmul prec emax (S754_finite false mc ec) x1)
      (SFmul prec emax (S754_finite false mc ec) x2).
Proof.
  intros F H.
  assert (forall x, nonneg x -> nonneg (SFmul prec emax (S754_finite false mc ec) x)) as NN.
  { intros [s|s| |s m e]; cbn [nonneg]; try tauto.
    intros ->. destruct (SFmul_rnd mc ec m e F) as [-> In]. apply rnd_nonneg; [lia | lia | exact In]. }
  pose proof (nle_nonneg_r _ _ H) as N2.
  destruct x1 as [s1|[]| |[] m1 e1]; cbn [nle] in H; try contradiction.
  - change (SFmul prec emax (S754_finite false mc ec) (S754_zero s1))
      with (S754_zero (xorb false s1)).
    apply nle_zero. now apply NN.
  - destruct x2 as [s2|[]| |[] m2 e2]; try contradiction. reflexivity.
  - destruct x2 as [s2|[]| |[] m2 e2]; try contradiction.
    + change (SFmul prec emax (S754_finite false mc ec) (S754_infinity false))
        with (S754_infinity false).
      apply nle_infinity. now apply (NN (S754_finite false m1 e1)).
    + destruct (SFmul_rnd mc ec m1 e1 F) as [-> I1]. destruct (SFmul_rnd mc ec m2 e2 F) as [-> I2].
      apply rnd_monotone; try assumption; try lia.
      set (b := Z.min (ec + e1) (ec + e2)).
      unfold rle. apply (dle_at b); [lia | lia |].
      apply (dle_at (b - ec)) in H; [|lia|lia].
      rewrite !Z.mul_1_r.
      replace (ec + e1 - b) with (e1 - (b - ec)) by lia.
      replace (ec + e2 - b) with (e2 - (b - ec)) by lia.
      rewrite <- !Z.mul_assoc. apply Z.mul_le_mono_nonneg_l; [lia | exact H].
Qed.


(** *** Subtraction *)

Lemma abs_binary_round (s : bool) (m : positive) (e : Z) :
  SFabs (binary_round prec emax s m e) = binary_round prec emax false m e.
Proof.
  unfold binary_round. destruct (shl_align m e _) as [mz ez].
  unfold binary_round_aux.
  destruct (shr_fexp prec emax (Zpos mz) ez loc_Exact) as [mrs' e'].
  destruct (shr_fexp prec emax _ e' loc_Exact) as [mrs'' e''].
  destruct (shr_m mrs'') as [|p|p]; try reflexivity.
  destruct (e'' <=? emax - prec); reflexivity.
Qed.

Lemma abs_binary_normalize (m e : Z) :
  SFabs (binary_normalize prec emax m e false) = binary_normalize prec emax (Z.abs m) e false.
Proof. destruct m as [|p|p]; cbn [binary_normalize Z.abs]; [reflexivity | |]; apply abs_binary_round. Qed.

(** [x - y] grows with [x], from [y] on. *)
Lemma SFsub_monotone_l (x1 x2 : spec_float) (my : positive) (ey : Z) :
  nle (S754_finite false my ey) x1 -> nle x1 x2 ->
  nle (SFsub prec emax x1 (S754_finite false my ey))
      (SFsub prec emax x2 (S754_finite false my ey)).
Proof.
  intros Hy H.
  destruct x1 as [s1|[]| |[] m1 e1]; cbn [nle] in Hy; try contradiction.
  - destruct x2 as [s2|[]| |[] m2 e2]; cbn [nle] in H; try contradiction. exact I.
  - assert (0 <= Zpos m1 * 2 ^ (e1 - Z.min e1 ey) - Zpos my * 2 ^ (ey - Z.min e1 ey)) as P1.
    { apply (dle_at (Z.min e1 ey)) in Hy; [lia | lia | lia]. }
    destruct x2 as [s2|[]| |[] m2 e2]; cbn [nle] in H; try contradiction.
    + change (SFsub prec emax (S754_infinity false) (S754_finite false my ey))
        with (S754_infinity false).
      apply nle_infinity. rewrite Falloff.SFsub_pos. now apply normalize_nonneg.
    + rewrite !Falloff.SFsub_pos. apply normalize_monotone; [exact P1|].
      set (a1 := Z.min e1 ey) in *. set (a2 := Z.min e2 ey).
      set (b := Z.min a1 a2).
      apply (dle_at b); [lia | lia |].
      apply (dle_at b) in H; [|lia|lia].
      rewrite !Z.mul_sub_distr_r, <- !Z.mul_assoc, <- !pow2_split by lia.
      replace (e1 - a1 + (a1 - b)) with (e1 - b) by lia.
      replace (e2 - a2 + (a2 - b)) with (e2 - b) by lia.
      replace (ey - a1 + (a1 - b)) with (ey - b) by lia.
      replace (ey - a2 + (a2 - b)) with (ey - b) by lia. lia.
Qed.

(** [y - x] shrinks as [x] grows, up to [y]. *)
Lemma SFsub_antitone_r (x1 x2 : spec_float) (my : positive) (ey : Z) :
  fexp64 (Zdigits2 (Zpos my) + ey) = ey -> ey <= 971 ->
  nle x1 x2 -> nle x2 (S754_finite false my ey) ->
  nle (SFsub prec emax (S754_finite false my ey) x2)
      (SFsub prec emax (S754_finite false my ey) x1).
Proof.
  intros Cy Ey H Hy.
  assert (forall m e, dle (Zpos m) e (Zpos my) ey ->
            nle (SFsub prec emax (S754_finite false my ey) (S754_finite false m e))
                (S754_finite false my ey)) as Below.
  { intros m e D. rewrite Falloff.SFsub_pos.
    rewrite <- (binary_round_canonical my ey Cy Ey).
    change (binary_round prec emax false my ey)
      with (binary_normalize prec emax (Zpos my) ey false).
    set (a := Z.min ey e).
    apply (dle_at a) in D; [|lia|lia].
    pose proof (pow2_pos (e - a) ltac:(lia)).
    apply normalize_monotone; [lia|].
    apply (dle_at a); [lia | lia |].
    rewrite Z.sub_diag, Z.pow_0_r, Z.mul_1_r. nia. }
  destruct x2 as [s2|[]| |[] m2 e2]; cbn [nle] in Hy; try contradiction.
  - (* both are zero *)
    destruct x1 as [s1|[]| |[] m1 e1]; cbn [nle] in H; try contradiction.
    cbn [SFsub]. apply dle_refl.
  - destruct x1 as [s1|[]| |[] m1 e1]; cbn [nle] in H; try contradiction.
    + change (SFsub prec emax (S754_finite false my ey) (S754_zero s1))
        with (S754_finite false my ey).
      now apply Below.
    + rewrite !Falloff.SFsub_pos.
      set (a1 := Z.min ey e1). set (a2 := Z.min ey e2). set (b := Z.min a1 a2).
      assert (0 <= Zpos my * 2 ^ (ey - a2) - Zpos m2 * 2 ^ (e2 - a2)) as P2.
      { apply (dle_at a2) in Hy; [lia | lia | lia]. }
      apply normalize_monotone; [exact P2|].
      apply (dle_at b); [lia | lia |].
      apply (dle_at b) in H; [|lia|lia].
      rewrite !Z.mul_sub_distr_r, <- !Z.mul_assoc, <- !pow2_split by lia.
      replace (e1 - a1 + (a1 - b)) with (e1 - b) by lia.
      replace (e2 - a2 + (a2 - b)) with (e2 - b) by lia.
      replace (ey - a1 + (a1 - b)) with (ey - b) by lia.
      replace (ey - a2 + (a2 - b)) with (ey - b) by lia. lia.
Qed.

(** Below [y], the distance to [y] is [y - x]. *)
Lemma abs_sub_swap (x : spec_float) (my : positive) (ey : Z) :
  nle x (S754_finite false my ey) ->
  SFabs (SFsub prec emax x (S754_finite false my ey))
  = SFsub prec emax (S754_finite false my ey) x.
Proof.
  intros H. destruct x as [s|[]| |[] m e]; cbn [nle] in H; try contradiction.
  - reflexivity.
  - rewrite !Falloff.SFsub_pos, abs_binary_normalize, (Z.min_comm ey e).
    unfold dle in H. f_equal. lia.
Qed.

(** *** The comparisons of floats are the order of numbers *)

Lemma canonical_order (m1 : positive) (e1 : Z) (m2 : positive) (e2 : Z) :
  fexp64 (Zdigits2 (Zpos m1) + e1) = e1 -> fexp64 (Zdigits2 (Zpos m2) + e2) = e2 ->
  e1 < e2 ->
  dle (Zpos m1) e1 (Zpos m2) e2 /\ ~ dle (Zpos m2) e2 (Zpos m1) e1.
Proof.
  intros C1 C2 L. unfold fexp64 in C1, C2.
  pose proof (Zdigits2_bounds (Zpos m1) ltac:(lia)) as [_ U1].
  pose proof (Zdigits2_bounds (Zpos m2) ltac:(lia)) as [L2 _].
  assert (Zdigits2 (Zpos m2) = 53) as D2 by lia. rewrite D2 in L2.
  assert (2 ^ Zdigits2 (Zpos m1) <= 2 ^ 53) as P1 by (apply Z.pow_le_mono_r; lia).
  assert (2 ^ 1 <= 2 ^ (e2 - e1)) as P by (apply Z.pow_le_mono_r; lia).
  change (2 ^ 1) with 2 in P. change (2 ^ (53 - 1)) with 4503599627370496 in L2.
  change (2 ^ 53) with 9007199254740992 in P1.
  split.
  - apply (dle_at e1); [lia | lia |]. rewrite Z.sub_diag, Z.pow_0_r, Z.mul_1_r.
    set (a := 2 ^ (e2 - e1)) in *. clearbody a. nia.
  - intros H. apply (dle_at e1) in H; [|lia|lia].
    rewrite Z.sub_diag, Z.pow_0_r, Z.mul_1_r in H.
    set (a := 2 ^ (e2 - e1)) in *. clearbody a. nia.
Qed.

Lemma leb_nle (x y : float) :
  nonneg (Prim2SF x) -> nonneg (Prim2SF y) ->
  ((x <=? y)%float = true <-> nle (Prim2SF x) (Prim2SF y)).
Proof.
  rewrite leb_spec. unfold SFleb, SFcompare.
  destruct (Prim2SF x) as [s1|s1| |s1 m1 e1] eqn:X, (Prim2SF y) as [s2|s2| |s2 m2 e2] eqn:Y;
    cbn [nonneg nle]; intros N1 N2; subst; try contradiction; try tauto;
    try (split; [discriminate | contradiction]).
  destruct (valid_finite x false m1 e1 X) as [C1 _].
  destruct (valid_finite y false m2 e2 Y) as [C2 _].
  destruct (Z.compare_spec e1 e2) as [E|L|G].
  - subst e2. rewrite Falloff.compare_cont_Eq.
    assert (dle (Zpos m1) e1 (Zpos m2) e1 <-> (m1 <= m2)%positive) as ->.
    { unfold dle. rewrite Z.min_id, Z.sub_diag, Z.pow_0_r, !Z.mul_1_r. lia. }
    unfold Pos.le. destruct (m1 ?= m2)%positive; split; congruence.
  - destruct (canonical_order m1 e1 m2 e2 C1 C2 L) as [A _]. tauto.
  - destruct (canonical_order m2 e2 m1 e1 C2 C1 ltac:(lia)) as [_ B].
    split; [discriminate | tauto].
Qed.

Lemma leb_nonneg (x y : float) :
  nonneg (Prim2SF x) -> (x <=? y)%float = true -> nonneg (Prim2SF y).
Proof.
  rewrite leb_spec. unfold SFleb, SFcompare.
  destruct (Prim2SF x) as [s1|s1| |s1 m1 e1], (Prim2SF y) as [s2|s2| |s2 m2 e2];
    cbn [nonneg]; intros N; subst; try contradiction; try tauto;
    try discriminate; destruct s2; try discriminate; reflexivity.
Qed.

Lemma ltb_leb (x y : float) : (x <? y)%float = true -> (x <=? y)%float = true.
Proof.
  rewrite ltb_spec, leb_spec. unfold SFltb, SFleb.
  destruct (SFcompare (Prim2SF x) (Prim2SF y)) as [[]|]; congruence.
Qed.

End Rounding.

(** ** Nearer to the optimum is never worse *)

Module Closer.

Import Binary64 Rounding.
Local Open Scope float_scope.

(** The optimum, as a number of the format. *)
Definition OPT : spec_float := S754_finite false ValueClass.M_OPT (-54).

Lemma optimum_canonical :
  fexp64 (Zdigits2 (Zpos ValueClass.M_OPT) + -54) = (-54)%Z /\ (-54 <= 971)%Z.
Proof. exact (valid_finite OPTIMAL_CD false ValueClass.M_OPT (-54) ValueClass.optimum_bits). Qed.

Lemma error_spec (v : float) :
  Prim2SF (relative_error v) = SFdiv prec emax (SFabs (SFsub prec emax (Prim2SF v) OPT)) OPT.
Proof. unfold relative_error. now rewrite div_spec, abs_spec, sub_spec, ValueClass.optimum_bits. Qed.

Lemma nonneg_not_nan (x : spec_float) : nonneg x -> x <> S754_nan.
Proof. destruct x; cbn; congruence. Qed.

Lemma error_nonneg (v : float) : nonneg (Prim2SF v) -> nonneg (Prim2SF (relative_error v)).
Proof.
  intros V. rewrite error_spec. apply SFdiv_nonneg, abs_nonneg.
  apply ValueClass.sub_finite_not_nan, nonneg_not_nan, V.
Qed.

Lemma zero_nonneg : nonneg (Prim2SF 0).
Proof. exact I. Qed.

Lemma leb_trans (x y z : float) :
  nonneg (Prim2SF x) -> (x <=? y) = true -> (y <=? z) = true -> (x <=? z) = true.
Proof.
  intros X A B. pose proof (leb_nonneg _ _ X A) as Y. pose proof (leb_nonneg _ _ Y B) as Z.
  apply leb_nle in A; [|assumption|assumption]. apply leb_nle in B; [|assumption|assumption].
  apply leb_nle; [assumption | assumption |]. exact (nle_trans _ _ _ A B).
Qed.

(** From the optimum upwards the error grows with the value. *)
Lemma error_monotone_above (v1 v2 : float) :
  (OPTIMAL_CD <=? v1) = true -> (v1 <=? v2) = true ->
  (relative_error v1 <=? relative_error v2) = true.
Proof.
  intros A B.
  assert (nonneg (Prim2SF OPTIMAL_CD)) as N0 by (rewrite ValueClass.optimum_bits; reflexivity).
  pose proof (leb_nonneg _ _ N0 A) as N1. pose proof (leb_nonneg _ _ N1 B) as N2.
  apply leb_nle in A; [|assumption|assumption]. apply leb_nle in B; [|assumption|assumption].
  rewrite ValueClass.optimum_bits in A.
  apply leb_nle; [now apply error_nonneg | now apply error_nonneg |].
  rewrite !error_spec. apply SFdiv_monotone, abs_nle, SFsub_monotone_l; assumption.
Qed.

(** From zero up to the optimum the error shrinks as the value grows. *)
Lemma error_antitone_below (v1 v2 : float) :
  (0 <=? v1) = true -> (v1 <=? v2) = true -> (v2 <=? OPTIMAL_CD) = true ->
  (relative_error v2 <=? relative_error v1) = true.
Proof.
  intros Z A B.
  pose proof (leb_nonneg _ _ zero_nonneg Z) as N1. pose proof (leb_nonneg _ _ N1 A) as N2.
  pose proof (leb_nonneg _ _ N2 B) as N0.
  apply leb_nle in A; [|assumption|assumption]. apply leb_nle in B; [|assumption|assumption].
  rewrite ValueClass.optimum_bits in B.
  pose proof (nle_trans _ _ _ A B) as C.
  destruct optimum_canonical as [Cn Ce].
  apply leb_nle; [now apply error_nonneg | now apply error_nonneg |].
  rewrite !error_spec. unfold OPT.
  rewrite (abs_sub_swap _ _ _ B), (abs_sub_swap _ _ _ C).
  apply SFdiv_monotone, SFsub_antitone_r; assumption.
Qed.

Lemma full_marks (v : float) :
  (relative_error v <=? TOLERANCE) = true -> score_of v = 10.0.
Proof. intros H. unfold score_of, raw_score. rewrite H. exact Scorer.round_full. Qed.

Lemma no_marks (v : float) :
  (1.0 <=? relative_error v) = true -> score_of v = 0.0.
Proof.
  intros H. unfold score_of, raw_score.
  rewrite (FloatOrder.above_one_above_tolerance _ H), (FloatOrder.leb_flip _ _ H).
  exact Scorer.round_zero.
Qed.

(** Every value from 0.270318 to 0.330388, the two values with six
    decimals that lie just within ten percent of the optimum, is within
    the tolerance and earns the full 10.0. *)
Theorem full_marks_band (v : float) :
  (0.270318 <=? v) = true -> (v <=? 0.330388) = true ->
  (relative_error v <=? TOLERANCE) = true /\ score_of v = 10.0.
Proof.
  intros L U.
  assert ((relative_error v <=? TOLERANCE) = true) as E.
  { assert (nonneg (Prim2SF 0.270318)) as N0 by reflexivity.
    pose proof (leb_nonneg _ _ N0 L) as N.
    destruct (ValueClass.leb_or_ltb v OPTIMAL_CD (nonneg_not_nan _ N) ltac:(discriminate))
      as [B|A].
    - apply (leb_trans _ (relative_error 0.270318)).
      + now apply error_nonneg.
      + apply error_antitone_below; [reflexivity | exact L | exact B].
      + vm_compute. reflexivity.
    - apply (leb_trans _ (relative_error 0.330388)).
      + now apply error_nonneg.
      + apply error_monotone_above; [now apply ltb_leb | exact U].
      + vm_compute. reflexivity. }
  split; [exact E | now apply full_marks].
Qed.

Lemma full_marks_band_witness :
  (relative_error 0.3 <=? TOLERANCE) = true /\ score_of 0.3 = 10.0.
Proof.
  apply (full_marks_band 0.3).
  - vm_compute. reflexivity.
  - vm_compute. reflexivity.
Defined.

(** Every value from twice the optimum upwards, infinity included, has
    an error of at least one and earns 0.0. *)
Theorem no_marks_band (v : float) :
  (0.600706 <=? v) = true ->
  (1.0 <=? relative_error v) = true /\ score_of v = 0.0.
Proof.
  intros L.
  assert ((1.0 <=? relative_error v) = true) as E.
  { apply (leb_trans _ (relative_error 0.600706)).
    - reflexivity.
    - vm_compute. reflexivity.
    - apply error_monotone_above; [vm_compute; reflexivity | exact L]. }
  split; [exact E | now apply no_marks].
Qed.

Lemma no_marks_band_witness :
  (1.0 <=? relative_error infinity) = true /\ score_of infinity = 0.0.
Proof. apply (no_marks_band infinity). vm_compute. reflexivity. Defined.


(** *** The falling part of the rule *)

Definition falling (error : float) : float :=
  10.0 * (1 - (error - TOLERANCE) / (1.0 - TOLERANCE)).

Definition ONE : spec_float := S754_finite false Falloff.M_ONE (-52).

Lemma one_canonical :
  fexp64 (Zdigits2 (Zpos Falloff.M_ONE) + -52) = (-52)%Z /\ (-52 <= 971)%Z.
Proof. exact (valid_finite 1 false Falloff.M_ONE (-52) Falloff.one_bits). Qed.

Lemma below_one (x : spec_float) : below x 1 0 -> nle x ONE.
Proof.
  destruct x as [s|s| |s m e]; cbn [below]; try contradiction.
  - intros _. reflexivity.
  - intros [-> D]. cbn [nle ONE]. apply (dle_trans _ _ 1%Z 0%Z); [exact D|].
    apply (dle_at (-52)); [lia | lia |]. vm_compute. discriminate.
Qed.

Lemma below_nonneg (x : spec_float) (mb eb : Z) : below x mb eb -> nonneg x.
Proof. destruct x as [s|s| |s m e]; cbn; tauto. Qed.

(** The ratio [(error - 0.1) / 0.9] of an error of the falling branch is
    at most one. *)
Lemma falling_ratio_below (error : float) :
  (error <=? TOLERANCE) = false -> (error <? 1.0) = true ->
  below (Prim2SF ((error - TOLERANCE) / (1.0 - TOLERANCE))) 1 0.
Proof.
  intros T O. destruct (Falloff.falling_error error T O) as (m & e & E & Ex & Mm & Mt).
  rewrite div_spec, Falloff.width_bits. apply Falloff.div_width_below.
  - apply Prim2SF_valid.
  - rewrite sub_spec, E, Falloff.tolerance_bits. now apply Falloff.sub_tolerance_below.
Qed.

Lemma falling_below (error : float) :
  (error <=? TOLERANCE) = false -> (error <? 1.0) = true ->
  below (Prim2SF (falling error)) (Zpos Falloff.M_TEN + 1) (-49).
Proof.
  intros T O. unfold falling.
  rewrite mul_spec, Falloff.ten_bits. apply Falloff.mul_ten_below.
  rewrite sub_spec, Falloff.one_bits. apply Falloff.sub_from_one_below.
  now apply falling_ratio_below.
Qed.

(** Within the falling branch, a larger error gives a smaller value. *)
Lemma falling_antitone (e1 e2 : float) :
  (e1 <=? TOLERANCE) = false -> (e2 <=? TOLERANCE) = false ->
  (e1 <? 1.0) = true -> (e2 <? 1.0) = true ->
  (TOLERANCE <=? e1) = true -> (e1 <=? e2) = true ->
  nle (Prim2SF (falling e2)) (Prim2SF (falling e1)).
Proof.
  intros T1 T2 O1 O2 L H.
  assert (nonneg (Prim2SF TOLERANCE)) as N0 by reflexivity.
  pose proof (leb_nonneg _ _ N0 L) as N1. pose proof (leb_nonneg _ _ N1 H) as N2.
  apply leb_nle in L; [|assumption|assumption]. apply leb_nle in H; [|assumption|assumption].
  rewrite Falloff.tolerance_bits in L.
  pose proof (falling_ratio_below e2 T2 O2) as R2. apply below_one in R2.
  destruct one_canonical as [Cn Ce].
  unfold falling.
  rewrite !mul_spec, Falloff.ten_bits.
  apply SFmul_monotone; [unfold Falloff.M_TEN; lia|].
  rewrite !sub_spec, Falloff.one_bits.
  apply SFsub_antitone_r; [exact Cn | exact Ce | | exact R2].
  rewrite !div_spec, Falloff.width_bits.
  apply SFdiv_monotone.
  rewrite !sub_spec, Falloff.tolerance_bits.
  now apply SFsub_monotone_l.
Qed.

(** *** Rounding to two decimals keeps the order *)

(** The number of hundredths a value is rounded to. *)
Definition hundredths (x : spec_float) : Z :=
  match x with
  | S754_finite _ m e =>
      let '(n, d) := Py.ratio_of m e in Py.round_half_even (n * 100) d
  | _ => 0%Z
  end.

Lemma round_hundredths (f : float) :
  below (Prim2SF f) (Zpos Falloff.M_TEN + 1) (-49) ->
  Py.round f 2 = Scorer.two_decimal (hundredths (Prim2SF f))
  /\ (0 <= hundredths (Prim2SF f) <= 1000)%Z.
Proof.
  intros B. unfold Py.round.
  change (323 <? Z.of_nat 2)%Z with false. cbv iota.
  destruct (Prim2SF f) as [s|s| |s m e] eqn:E; cbn [below] in B; try contradiction.
  - subst s. cbn [hundredths]. split; [|lia].
    rewrite <- (SF2Prim_Prim2SF f), E. reflexivity.
  - destruct B as [-> D]. cbn [hundredths].
    destruct (Falloff.ratio_of_le m e _ _ D ltac:(lia)) as (H & N0 & D0).
    destruct (Py.ratio_of m e) as [n d]. cbn [fst snd] in *. cbv zeta.
    change (10 ^ Z.of_nat 2)%Z with 100%Z.
    split; [reflexivity|]. apply Falloff.hundredths_le; assumption.
Qed.

Lemma ratio_of_value (m : positive) (e b : Z) :
  (b <= e)%Z -> (b <= 0)%Z ->
  (fst (Py.ratio_of m e) * 2 ^ (- b) = Zpos m * 2 ^ (e - b) * snd (Py.ratio_of m e))%Z
  /\ (0 < fst (Py.ratio_of m e))%Z /\ (0 < snd (Py.ratio_of m e))%Z.
Proof.
  intros B1 B0. unfold Py.ratio_of.
  destruct (Z.leb_spec 0 e) as [E|E]; cbn [fst snd].
  - pose proof (pow2_pos e E). split; [|nia].
    replace (e - b)%Z with (e + - b)%Z by lia. rewrite pow2_split by lia. ring.
  - pose proof (pow2_pos (- e) ltac:(lia)). split; [|lia].
    replace (- b)%Z with ((e - b) + - e)%Z by lia. rewrite pow2_split by lia. ring.
Qed.

Lemma hundredths_monotone (x y : spec_float) (mb eb : Z) :
  nle x y -> below y mb eb -> (hundredths x <= hundredths y)%Z.
Proof.
  intros H B.
  assert (forall m e, 0 <= hundredths (S754_finite false m e))%Z as P.
  { intros m e. cbn [hundredths].
    destruct (ratio_of_value m e (Z.min e 0) ltac:(lia) ltac:(lia)) as (_ & N & D).
    destruct (Py.ratio_of m e) as [n d]. cbn [fst snd] in *.
    pose proof (round_half_even_bounds (n * 100) d ltac:(lia) D).
    pose proof (Z.div_pos (n * 100) d ltac:(lia) D). lia. }
  destruct y as [sy|sy| |sy my ey]; cbn [below] in B; try contradiction.
  - destruct x as [sx|[]| |[] mx ex]; cbn [nle] in H; try contradiction. cbn. lia.
  - destruct B as [-> _].
    destruct x as [sx|[]| |[] mx ex]; cbn [nle] in H; try contradiction.
    + change (hundredths (S754_zero sx)) with 0%Z. apply P.
    + cbn [hundredths].
      set (b := Z.min (Z.min ex ey) 0).
      apply (dle_at b) in H; [|lia|lia].
      destruct (ratio_of_value mx ex b ltac:(lia) ltac:(lia)) as (V1 & N1 & D1).
      destruct (ratio_of_value my ey b ltac:(lia) ltac:(lia)) as (V2 & N2 & D2).
      destruct (Py.ratio_of mx ex) as [n1 d1]. destruct (Py.ratio_of my ey) as [n2 d2].
      cbn [fst snd] in *.
      apply round_half_even_monotone; try lia.
      pose proof (pow2_pos (- b) ltac:(lia)) as Pb.
      set (g := (2 ^ (- b))%Z) in *. set (a1 := (Zpos mx * 2 ^ (ex - b))%Z) in *.
      set (a2 := (Zpos my * 2 ^ (ey - b))%Z) in *. clearbody g a1 a2.
      assert (n1 * d2 * g <= n2 * d1 * g)%Z as K.
      { replace (n1 * d2 * g)%Z with (n1 * g * d2)%Z by ring.
        replace (n2 * d1 * g)%Z with (n2 * g * d1)%Z by ring.
        rewrite V1, V2.
        replace (a1 * d1 * d2)%Z with (a1 * (d1 * d2))%Z by ring.
        replace (a2 * d2 * d1)%Z with (a2 * (d1 * d2))%Z by ring.
        apply Z.mul_le_mono_nonneg_r; [|exact H]. apply Z.mul_nonneg_nonneg; lia. }
      apply Z.mul_le_mono_pos_r in K; [|exact Pb]. lia.
Qed.

(** The floats nearest to 0.00, 0.01, ..., 10.00, in this order. *)
Lemma two_decimal_sorted :
  forallb (fun k => Scorer.two_decimal (Z.of_nat k) <=? Scorer.two_decimal (Z.of_nat (S k)))
          (seq 0 1000) = true.
Proof. vm_compute. reflexivity. Qed.

Lemma two_decimal_nonneg (N : Z) :
  (0 <= N <= 1000)%Z -> nonneg (Prim2SF (Scorer.two_decimal N)).
Proof.
  intros R. apply (leb_nonneg 0); [exact I|].
  exact (proj1 (Scorer.well_rounded_spec _ (Scorer.two_decimal_well_rounded N R))).
Qed.

Lemma two_decimal_monotone (N1 N2 : Z) :
  (0 <= N1)%Z -> (N1 <= N2)%Z -> (N2 <= 1000)%Z ->
  (Scorer.two_decimal N1 <=? Scorer.two_decimal N2) = true.
Proof.
  intros L H U.
  rewrite <- (Z2Nat.id N1), <- (Z2Nat.id N2) by lia.
  assert (Z.to_nat N1 <= Z.to_nat N2 <= 1000)%nat as R by lia.
  revert R. generalize (Z.to_nat N1) (Z.to_nat N2). clear.
  intros a b [A B]. induction b as [|b IH].
  - replace a with 0%nat by lia. vm_compute. reflexivity.
  - destruct (Nat.eq_dec a (S b)) as [->|Ne].
    + apply leb_nle; try (apply two_decimal_nonneg; lia).
      apply nle_refl, two_decimal_nonneg. lia.
    + apply (leb_trans _ (Scorer.two_decimal (Z.of_nat b))).
      * apply two_decimal_nonneg. lia.
      * apply IH; lia.
      * pose proof two_decimal_sorted as T. rewrite forallb_forall in T.
        apply (T b), in_seq. lia.
Qed.

(** *** The score never grows with the error *)

Lemma above_tolerance (e1 e2 : float) :
  nonneg (Prim2SF e1) -> (e1 <=? e2) = true ->
  (e1 <=? TOLERANCE) = false -> (e2 <=? TOLERANCE) = false.
Proof.
  intros N H T. destruct (e2 <=? TOLERANCE) eqn:T2; [|reflexivity].
  rewrite (leb_trans e1 e2 TOLERANCE N H T2) in T. discriminate T.
Qed.

Lemma below_one_left (e1 e2 : float) :
  nonneg (Prim2SF e1) -> (e1 <=? e2) = true ->
  (e2 <? 1.0) = true -> (e1 <? 1.0) = true.
Proof.
  intros N H O.
  destruct (ValueClass.leb_or_ltb 1.0 e1 ltac:(discriminate) (nonneg_not_nan _ N)) as [G|G];
    [|exact G].
  pose proof (leb_trans 1.0 e1 e2 eq_refl G H) as G2.
  rewrite (FloatOrder.leb_flip _ _ G2) in O. discriminate O.
Qed.

Lemma rounded_score (error : float) :
  exists N, (0 <= N <= 1000)%Z /\ Py.round (raw_score error) 2 = Scorer.two_decimal N.
Proof. exact (Falloff.raw_score_hundredths error). Qed.

Lemma score_antitone (e1 e2 : float) :
  (0 <=? e1) = true -> (e1 <=? e2) = true ->
  (Py.round (raw_score e2) 2 <=? Py.round (raw_score e1) 2) = true.
Proof.
  intros Z H.
  pose proof (leb_nonneg _ _ zero_nonneg Z) as N1. pose proof (leb_nonneg _ _ N1 H) as N2.
  destruct (rounded_score e1) as (K1 & R1 & S1). destruct (rounded_score e2) as (K2 & R2 & S2).
  destruct (e1 <=? TOLERANCE) eqn:T1.
  - (* the smaller error has full marks *)
    rewrite S2. unfold raw_score. rewrite T1, Scorer.round_full.
    change 10.0 with (Scorer.two_decimal 1000). apply two_decimal_monotone; lia.
  - pose proof (above_tolerance e1 e2 N1 H T1) as T2.
    destruct (e2 <? 1.0) eqn:O2.
    + pose proof (below_one_left e1 e2 N1 H O2) as O1.
      unfold raw_score. rewrite T1, T2, O1, O2. fold (falling e1). fold (falling e2).
      destruct (round_hundredths _ (falling_below e1 T1 O1)) as (-> & B1).
      destruct (round_hundredths _ (falling_below e2 T2 O2)) as (-> & B2).
      apply two_decimal_monotone; try lia.
      apply (hundredths_monotone _ _ (Zpos Falloff.M_TEN + 1) (-49));
        [|now apply falling_below].
      apply falling_antitone; try assumption.
      destruct (ValueClass.leb_or_ltb e1 TOLERANCE (nonneg_not_nan _ N1) ltac:(discriminate))
        as [G|G]; [congruence | now apply ltb_leb].
    + rewrite S1. unfold raw_score. rewrite T2, O2, Scorer.round_zero.
      change 0.0 with (Scorer.two_decimal 0). apply two_decimal_monotone; lia.
Qed.

(** Whatever two errors are compared, the larger one never has the
    higher score: it is never in an earlier case of the rule (full
    marks, then the falling line, then zero), and neither the float
    arithmetic of the falling line nor the rounding to two decimals
    turns the order around. *)
Theorem score_falls_with_error (e1 e2 : float) :
  (0 <=? e1) = true -> (e1 <=? e2) = true ->
  (Py.round (raw_score e2) 2 <=? Py.round (raw_score e1) 2) = true
  /\ ((e1 <=? TOLERANCE) = false -> (e2 <=? TOLERANCE) = false)
  /\ ((e2 <? 1.0) = true -> (e1 <? 1.0) = true).
Proof.
  intros Z H. pose proof (leb_nonneg _ _ zero_nonneg Z) as N1.
  split; [|split].
  - now apply score_antitone.
  - now apply above_tolerance.
  - now apply below_one_left.
Qed.

Lemma score_falls_with_error_witness :
  (Py.round (raw_score 0.5) 2 <=? Py.round (raw_score 0.2) 2) = true.
Proof.
  apply (proj1 (score_falls_with_error 0.2 0.5 eq_refl eq_refl)).
Defined.

Lemma error_not_negative (v : float) :
  nonneg (Prim2SF v) -> (0 <=? relative_error v) = true.
Proof.
  intros V. apply leb_nle; [exact I | now apply error_nonneg |].
  apply nle_zero. now apply error_nonneg.
Qed.

(** Of two values on the same side of the optimum, the one nearer to it
    never has the lower score: below the optimum the score does not fall
    as the value grows, above it the score does not rise. *)
Theorem closer_scores_no_lower (v1 v2 : float) :
  (0 <=? v1) = true -> (v1 <=? v2) = true ->
  ((v2 <=? OPTIMAL_CD) = true -> (score_of v1 <=? score_of v2) = true)
  /\ ((OPTIMAL_CD <=? v1) = true -> (score_of v2 <=? score_of v1) = true).
Proof.
  intros Z H.
  pose proof (leb_nonneg _ _ zero_nonneg Z) as N1. pose proof (leb_nonneg _ _ N1 H) as N2.
  split; intros B; unfold score_of.
  - apply score_antitone; [now apply error_not_negative|].
    now apply error_antitone_below.
  - apply score_antitone; [now apply error_not_negative|].
    now apply error_monotone_above.
Qed.

Lemma closer_scores_no_lower_witness :
  (score_of 0.1 <=? score_of 0.2) = true /\ (score_of 0.5 <=? score_of 0.4) = true.
Proof.
  split.
  - apply (proj1 (closer_scores_no_lower 0.1 0.2 eq_refl eq_refl)). vm_compute. reflexivity.
  - apply (proj2 (closer_scores_no_lower 0.4 0.5 eq_refl eq_refl)). vm_compute. reflexivity.
Defined.

End Closer.

(** ** The value of a token does not depend on its spelling *)

Module Spelling.

Import CdFacts Binary64.
Local Open Scope Z_scope.

(** The exponent at which [p / q] has a mantissa of 53 bits. *)
Definition normal_exponent (p q : Z) : Z :=
  let e1 := Z.log2 p - Z.log2 q - 52 in
  let '(n1, d1) := Py.scale2 p q e1 in
  if n1 / d1 <? 2 ^ 52 then e1 - 1 else e1.

Lemma nearest_unfold (neg : bool) (p q : Z) :
  0 < p ->
  Py.nearest neg p q
  = let e := Z.max (normal_exponent p q) (-1074) in
    match Py.round_half_even (fst (Py.scale2 p q e)) (snd (Py.scale2 p q e)) with
    | Zpos m => SF2Prim (S754_finite neg m e)
    | _ => Py.signed_zero neg
    end.
Proof.
  intros P. unfold Py.nearest, normal_exponent.
  replace (p <=? 0) with false by (symmetry; apply Z.leb_gt; lia).
  cbv zeta. destruct (Py.scale2 p q (Z.log2 p - Z.log2 q - 52)) as [n1 d1].
  destruct (Py.scale2 p q _) as [n d]. reflexivity.
Qed.

Lemma scale2_spec (p q e : Z) :
  Py.scale2 p q e = (p * 2 ^ Z.max (- e) 0, q * 2 ^ Z.max e 0).
Proof.
  unfold Py.scale2. destruct (Z.leb_spec 0 e) as [E|E].
  - replace (Z.max (- e) 0) with 0 by lia. replace (Z.max e 0) with e by lia.
    now rewrite Z.pow_0_r, Z.mul_1_r.
  - replace (Z.max (- e) 0) with (- e) by lia. replace (Z.max e 0) with 0 by lia.
    now rewrite Z.pow_0_r, Z.mul_1_r.
Qed.

(** Equal ratios, scaled at two exponents, differ by the power of two
    between the exponents. *)
Lemma cross_scale (p q p' q' e e' : Z) :
  p * q' = p' * q -> e <= e' ->
  fst (Py.scale2 p q e) * snd (Py.scale2 p' q' e')
  = 2 ^ (e' - e) * (fst (Py.scale2 p' q' e') * snd (Py.scale2 p q e)).
Proof.
  intros R L. rewrite !scale2_spec. cbn [fst snd].
  assert (2 ^ Z.max (- e) 0 * 2 ^ Z.max e' 0
          = 2 ^ (e' - e) * (2 ^ Z.max (- e') 0 * 2 ^ Z.max e 0)) as X.
  { rewrite <- !pow2_split by lia. f_equal. lia. }
  set (a := 2 ^ Z.max (- e) 0) in *. set (b := 2 ^ Z.max e' 0) in *.
  set (c := 2 ^ Z.max (- e') 0) in *. set (d := 2 ^ Z.max e 0) in *.
  set (g := 2 ^ (e' - e)) in *. clearbody a b c d g.
  replace (p * a * (q' * b)) with (p * q' * (a * b)) by ring.
  replace (g * (p' * c * (q * d))) with (p' * q * (g * (c * d))) by ring.
  now rewrite R, X.
Qed.

Lemma scale2_pos (p q e : Z) :
  0 < p -> 0 < q -> 0 < fst (Py.scale2 p q e) /\ 0 < snd (Py.scale2 p q e).
Proof.
  intros P Q. rewrite scale2_spec. cbn [fst snd].
  pose proof (pow2_pos (Z.max (- e) 0) ltac:(lia)). pose proof (pow2_pos (Z.max e 0) ltac:(lia)).
  split; apply Z.mul_pos_pos; lia.
Qed.

(** At the normal exponent the quotient has 53 bits. *)
Lemma normal_exponent_spec (p q : Z) :
  0 < p -> 0 < q ->
  let e := normal_exponent p q in
  2 ^ 52 * snd (Py.scale2 p q e) <= fst (Py.scale2 p q e) < 2 ^ 53 * snd (Py.scale2 p q e).
Proof.
  intros P Q. cbv zeta. unfold normal_exponent. cbv zeta.
  pose proof (Z.log2_spec p P) as [Lp Up]. pose proof (Z.log2_spec q Q) as [Lq Uq].
  pose proof (Z.log2_nonneg p) as Ap. pose proof (Z.log2_nonneg q) as Aq.
  set (a := Z.log2 p) in *. set (b := Z.log2 q) in *. set (e1 := a - b - 52).
  rewrite Z.pow_succ_r in Up, Uq by lia.
  (* at [e1] the quotient lies between 2^51 and 2^53 *)
  assert (2 ^ 51 * snd (Py.scale2 p q e1) < fst (Py.scale2 p q e1)
          /\ fst (Py.scale2 p q e1) < 2 ^ 53 * snd (Py.scale2 p q e1)) as [L1 U1].
  { rewrite scale2_spec. cbn [fst snd].
    assert (2 ^ a * 2 ^ Z.max (- e1) 0 = 2 ^ 52 * (2 ^ b * 2 ^ Z.max e1 0)) as X.
    { rewrite <- !pow2_split by lia. f_equal. unfold e1. lia. }
    pose proof (pow2_pos (Z.max (- e1) 0) ltac:(lia)) as Px.
    pose proof (pow2_pos (Z.max e1 0) ltac:(lia)) as Py.
    change (2 ^ 51) with 2251799813685248. change (2 ^ 52) with 4503599627370496 in *.
    change (2 ^ 53) with 9007199254740992.
    set (x := 2 ^ Z.max (- e1) 0) in *. set (y := 2 ^ Z.max e1 0) in *.
    set (u := 2 ^ a) in *. set (w := 2 ^ b) in *. clearbody x y u w.
    assert (u * x <= p * x) by (apply Z.mul_le_mono_nonneg_r; lia).
    assert (p * x < 2 * u * x) by (apply Z.mul_lt_mono_pos_r; lia).
    assert (w * y <= q * y) by (apply Z.mul_le_mono_nonneg_r; lia).
    assert (q * y < 2 * w * y) by (apply Z.mul_lt_mono_pos_r; lia).
    split; nia. }
  destruct (scale2_pos p q e1 P Q) as [N1 D1].
  destruct (Py.scale2 p q e1) as [n1 d1] eqn:S1. cbn [fst snd] in *.
  destruct (Z.ltb_spec (n1 / d1) (2 ^ 52)) as [Lt|Ge].
  - (* one more bit is needed *)
    assert (n1 < 2 ^ 52 * d1) as Lt'.
    { destruct (Z_lt_le_dec n1 (2 ^ 52 * d1)) as [|G]; [assumption|exfalso].
      assert (2 ^ 52 <= n1 / d1); [|lia]. apply Z.div_le_lower_bound; lia. }
    pose proof (cross_scale p q p q (e1 - 1) e1 eq_refl ltac:(lia)) as C.
    rewrite S1 in C. cbn [fst snd] in C. replace (e1 - (e1 - 1)) with 1 in C by lia.
    change (2 ^ 1) with 2 in C.
    destruct (scale2_pos p q (e1 - 1) P Q) as [N2 D2].
    destruct (Py.scale2 p q (e1 - 1)) as [n2 d2]. cbn [fst snd] in *.
    change (2 ^ 51) with 2251799813685248 in *. change (2 ^ 52) with 4503599627370496 in *.
    change (2 ^ 53) with 9007199254740992 in *.
    split.
    + apply (Z.mul_le_mono_pos_r _ _ d1); [lia|]. nia.
    + apply (Z.mul_lt_mono_pos_r d1); [lia|]. nia.
  - rewrite S1. cbn [fst snd]. split; [|lia].
    pose proof (Z.mul_div_le n1 d1 D1).
    assert (2 ^ 52 * d1 <= d1 * (n1 / d1)); [|lia]. rewrite (Z.mul_comm d1).
    apply Z.mul_le_mono_nonneg_r; lia.
Qed.

(** The normal exponent belongs to the ratio, not to its numerator and
    denominator. *)
Lemma normal_exponent_ratio (p q p' q' : Z) :
  0 < p -> 0 < q -> 0 < p' -> 0 < q' -> p * q' = p' * q ->
  normal_exponent p q = normal_exponent p' q'.
Proof.
  intros P Q P' Q' R.
  pose proof (normal_exponent_spec p q P Q) as A.
  pose proof (normal_exponent_spec p' q' P' Q') as B. cbv zeta in A, B.
  set (e := normal_exponent p q) in *. set (e' := normal_exponent p' q') in *.
  clearbody e e'.
  assert (forall p q p' q' e e',
             0 < p -> 0 < q -> 0 < p' -> 0 < q' -> p * q' = p' * q ->
             2 ^ 52 * snd (Py.scale2 p q e) <= fst (Py.scale2 p q e)
             < 2 ^ 53 * snd (Py.scale2 p q e) ->
             2 ^ 52 * snd (Py.scale2 p' q' e') <= fst (Py.scale2 p' q' e')
             < 2 ^ 53 * snd (Py.scale2 p' q' e') ->
             ~ e < e') as No.
  { clear. intros p q p' q' e e' P Q P' Q' R A B L.
    pose proof (cross_scale p q p' q' e e' R ltac:(lia)) as C.
    destruct (scale2_pos p q e P Q) as [N D]. destruct (scale2_pos p' q' e' P' Q') as [N' D'].
    assert (2 ^ 1 <= 2 ^ (e' - e)) as G by (apply Z.pow_le_mono_r; lia).
    change (2 ^ 1) with 2 in G.
    change (2 ^ 52) with 4503599627370496 in *. change (2 ^ 53) with 9007199254740992 in *.
    set (n := fst (Py.scale2 p q e)) in *. set (d := snd (Py.scale2 p q e)) in *.
    set (n' := fst (Py.scale2 p' q' e')) in *. set (d' := snd (Py.scale2 p' q' e')) in *.
    set (g := 2 ^ (e' - e)) in *. clearbody n d n' d' g.
    assert (n * d' < 9007199254740992 * d * d') by (apply Z.mul_lt_mono_pos_r; lia).
    assert (2 * (n' * d) <= g * (n' * d)) by (apply Z.mul_le_mono_nonneg_r; nia).
    assert (4503599627370496 * d' * d <= n' * d) by (apply Z.mul_le_mono_nonneg_r; lia).
    lia. }
  destruct (Z.lt_trichotomy e e') as [L|[E|G]]; [exfalso | exact E | exfalso].
  - exact (No p q p' q' e e' P Q P' Q' R A B L).
  - exact (No p' q' p q e' e P' Q' P Q (eq_sym R) B A G).
Qed.

(** The float nearest to a ratio is the same for every way to write the
    ratio. *)
Lemma nearest_ratio (neg : bool) (p q p' q' : Z) :
  0 < p -> 0 < q -> 0 < p' -> 0 < q' -> p * q' = p' * q ->
  Py.nearest neg p q = Py.nearest neg p' q'.
Proof.
  intros P Q P' Q' R. rewrite !nearest_unfold by assumption. cbv zeta.
  rewrite (normal_exponent_ratio p q p' q' P Q P' Q' R).
  set (e := Z.max (normal_exponent p' q') (-1074)).
  pose proof (cross_scale p q p' q' e e R ltac:(lia)) as C.
  rewrite Z.sub_diag, Z.pow_0_r, Z.mul_1_l in C.
  destruct (scale2_pos p q e P Q) as [N D]. destruct (scale2_pos p' q' e P' Q') as [N' D'].
  assert (Py.round_half_even (fst (Py.scale2 p q e)) (snd (Py.scale2 p q e))
          = Py.round_half_even (fst (Py.scale2 p' q' e)) (snd (Py.scale2 p' q' e))) as ->.
  { apply Z.le_antisymm; apply Rounding.round_half_even_monotone; lia. }
  reflexivity.
Qed.


(** *** Tokens with a decimal point *)

Lemma digits_value_append (s t : string) (acc : Z) :
  Py.digits_value (s ++ t) acc = Py.digits_value t (Py.digits_value s acc).
Proof. revert acc. induction s as [|c s IH]; intros acc; simpl; [reflexivity | apply IH]. Qed.

Definition is_zero (c : ascii) : bool := Ascii.eqb c "0"%char.

Lemma digits_value_zeros (zeros : string) (acc : Z) :
  Str.all is_zero zeros = true ->
  Py.digits_value zeros acc = acc * 10 ^ Z.of_nat (String.length zeros).
Proof.
  revert acc. induction zeros as [|c z IH]; intros acc; simpl String.length.
  - intros _. cbn. lia.
  - cbn [Str.all]. intros H. apply andb_true_iff in H as [C Z0].
    apply Ascii.eqb_eq in C. subst c. cbn [Py.digits_value].
    rewrite IH by exact Z0. rewrite Nat2Z.inj_succ, Z.pow_succ_r by lia.
    change (Z.of_N (Char.code "0") - 48) with 0. ring.
Qed.

Lemma digits_value_nonneg (s : string) (acc : Z) :
  Str.all Char.is_digit s = true -> 0 <= acc -> 0 <= Py.digits_value s acc.
Proof.
  revert acc. induction s as [|c s IH]; intros acc; cbn [Str.all Py.digits_value]; [auto|].
  intros H A. apply andb_true_iff in H as [C D]. apply IH; [exact D|].
  assert (48 <= Z.of_N (Char.code c)); [|lia].
  unfold Char.is_digit, Char.between in C. apply andb_true_iff in C as [C _].
  apply N.leb_le in C. lia.
Qed.

Lemma zero_is_digit (s : string) : Str.all is_zero s = true -> Str.all Char.is_digit s = true.
Proof.
  apply TokenFacts.all_impl. intros c H. apply Ascii.eqb_eq in H. now subst c.
Qed.

(** What [float] reads from digits, a point and digits. *)
Lemma parse_decimal_point (ip fp : string) :
  Str.all Char.is_digit ip = true -> Str.all Char.is_digit fp = true ->
  Py.parse_decimal (ip ++ "." ++ fp)
  = if Str.is_empty ip && Str.is_empty fp then None
    else Some (Py.digits_value (ip ++ fp) 0, - Z.of_nat (String.length fp)).
Proof.
  intros I F. unfold Py.parse_decimal, Py.is_digit.
  rewrite (StrFacts.take_while_all_append _ _ _ I), (StrFacts.drop_while_all_append _ _ _ I).
  cbn [append Str.take_while Str.drop_while].
  change (Char.is_digit ".") with false. cbv iota. rewrite StrFacts.append_empty_r.
  assert (Str.take_while Char.is_digit fp = fp) as ->.
  { pose proof (StrFacts.take_while_all_append _ fp "" F) as T.
    now rewrite !StrFacts.append_empty_r in T. }
  assert (Str.drop_while Char.is_digit fp = "") as ->.
  { pose proof (StrFacts.drop_while_all_append _ fp "" F) as T.
    now rewrite !StrFacts.append_empty_r in T. }
  reflexivity.
Qed.

Lemma point_token (ip fp : string) :
  Str.all Char.is_digit ip = true -> Str.all Char.is_digit fp = true ->
  (ip ++ "." ++ fp)%string <> ""%string /\ Str.all is_num (ip ++ "." ++ fp) = true.
Proof.
  intros I F. split.
  - destruct ip; discriminate.
  - rewrite !StrFacts.all_append.
    rewrite (TokenFacts.all_impl _ _ _ TokenFacts.digit_is_num I).
    rewrite (TokenFacts.all_impl _ _ _ TokenFacts.digit_is_num F). reflexivity.
Qed.

(** [float] of a token is the float nearest to the decimal it spells. *)
Lemma float_of_token_value (tok : string) :
  tok <> ""%string -> Str.all is_num tok = true ->
  Py.float_of_str tok
  = match Py.parse_decimal tok with
    | Some (mant, ex) =>
        Some (if 0 <=? ex then Py.nearest false (mant * 10 ^ ex) 1
              else Py.nearest false mant (10 ^ (- ex)))
    | None => None
    end.
Proof.
  intros N A. unfold Py.float_of_str.
  rewrite (TokenFacts.strip_float_id tok)
    by (exact (TokenFacts.all_impl _ _ _ TokenFacts.num_not_float_space A)).
  rewrite TokenFacts.drop_underscores_id;
    [| reflexivity | exact (TokenFacts.all_impl _ _ _ TokenFacts.num_not_underscore A)].
  destruct tok as [|c t]; [congruence|].
  simpl in A. apply andb_true_iff in A as [C _].
  rewrite (TokenFacts.split_sign_num c t C).
  destruct (TokenFacts.not_a_word c t C) as [W1 W2]. cbv zeta in W1, W2. rewrite W1, W2.
  reflexivity.
Qed.

Lemma float_of_point_token (ip fp : string) :
  Str.all Char.is_digit ip = true -> Str.all Char.is_digit fp = true ->
  Py.float_of_str (ip ++ "." ++ fp)
  = if Str.is_empty ip && Str.is_empty fp then None
    else Some (Py.nearest false (Py.digits_value (ip ++ fp) 0)
                 (10 ^ Z.of_nat (String.length fp))).
Proof.
  intros I F. destruct (point_token ip fp I F) as [N A].
  rewrite (float_of_token_value _ N A), (parse_decimal_point ip fp I F).
  destruct (Str.is_empty ip && Str.is_empty fp); [reflexivity|].
  f_equal. destruct (Z.leb_spec 0 (- Z.of_nat (String.length fp))) as [E|E].
  - assert (Z.of_nat (String.length fp) = 0) as -> by lia.
    cbn [Z.opp]. now rewrite Z.pow_0_r, Z.mul_1_r.
  - now rewrite Z.opp_involutive.
Qed.

Lemma grade_label_token (tok : string) :
  tok <> ""%string -> Str.all is_num tok = true ->
  grade_result (Some (LABEL ++ tok)) = grade_token tok.
Proof.
  intros N A. rewrite grade_result_first_token.
  pose proof (token_at_complete LABEL "" tok "" eq_refl eq_refl N A eq_refl) as T.
  cbn [append] in T. rewrite StrFacts.append_empty_r in T.
  assert (first_token (LABEL ++ tok) = Some (tok, ""%string)) as ->; [|reflexivity].
  unfold LABEL in *. cbn [append first_token] in *. now rewrite T.
Qed.

Lemma nearest_zero (neg : bool) (q : Z) : Py.nearest neg 0 q = Py.signed_zero neg.
Proof. reflexivity. Qed.

(** Zeros written before the integer part or after the decimals of a
    value change nothing: the token reads as the same float, and the
    output is graded alike, score and feedback. *)
Theorem padding_zeros_ignored (lead ip fp trail : string) :
  Str.all Char.is_digit ip = true -> Str.all Char.is_digit fp = true ->
  Str.is_empty ip && Str.is_empty fp = false ->
  Str.all is_zero lead = true -> Str.all is_zero trail = true ->
  Py.float_of_str ((lead ++ ip) ++ "." ++ fp ++ trail) = Py.float_of_str (ip ++ "." ++ fp)
  /\ grade_result (Some (LABEL ++ (lead ++ ip) ++ "." ++ fp ++ trail))
     = grade_result (Some (LABEL ++ ip ++ "." ++ fp)).
Proof.
  intros I F Ne L0 T0.
  pose proof (zero_is_digit _ L0) as Ld. pose proof (zero_is_digit _ T0) as Td.
  assert (Str.all Char.is_digit (lead ++ ip) = true) as I'
    by (now rewrite StrFacts.all_append, Ld, I).
  assert (Str.all Char.is_digit (fp ++ trail) = true) as F'
    by (now rewrite StrFacts.all_append, F, Td).
  assert (Str.is_empty (lead ++ ip) && Str.is_empty (fp ++ trail) = false) as Ne'.
  { destruct ip as [|c ip].
    - destruct fp; [discriminate Ne|]. cbn. apply andb_false_r.
    - destruct lead; reflexivity. }
  assert (Py.float_of_str ((lead ++ ip) ++ "." ++ fp ++ trail)
          = Py.float_of_str (ip ++ "." ++ fp)) as E.
  { rewrite (float_of_point_token (lead ++ ip) (fp ++ trail) I' F').
    rewrite (float_of_point_token ip fp I F), Ne, Ne'.
    f_equal.
    rewrite (StrFacts.append_assoc lead), (digits_value_append lead).
    rewrite (digits_value_zeros lead 0 L0), Z.mul_0_l.
    rewrite <- StrFacts.append_assoc, digits_value_append, (digits_value_zeros _ _ T0).
    rewrite StrFacts.length_append, Nat2Z.inj_add, Z.pow_add_r by lia.
    assert (Str.all Char.is_digit (ip ++ fp) = true) as D by (now rewrite StrFacts.all_append, I, F).
    pose proof (digits_value_nonneg (ip ++ fp) 0 D ltac:(lia)) as M.
    set (mant := Py.digits_value (ip ++ fp) 0) in *. clearbody mant.
    assert (0 < 10 ^ Z.of_nat (String.length fp)) as Pf by (apply Z.pow_pos_nonneg; lia).
    assert (0 < 10 ^ Z.of_nat (String.length trail)) as Pz by (apply Z.pow_pos_nonneg; lia).
    destruct (Z.eq_dec mant 0) as [->|Nz].
    - now rewrite Z.mul_0_l, !nearest_zero.
    - apply nearest_ratio; try lia; try (apply Z.mul_pos_pos; lia); ring. }
  split; [exact E|].
  destruct (point_token (lead ++ ip) (fp ++ trail) I' F') as [N1 A1].
  destruct (point_token ip fp I F) as [N2 A2].
  rewrite (grade_label_token _ N1 A1), (grade_label_token _ N2 A2).
  unfold grade_token. rewrite E, (float_of_point_token ip fp I F), Ne. reflexivity.
Qed.

Lemma padding_zeros_ignored_witness :
  Py.float_of_str "00.300" = Py.float_of_str "0.3"
  /\ grade_result (Some (LABEL ++ "00.300")) = grade_result (Some (LABEL ++ "0.3")).
Proof. apply (padding_zeros_ignored "0" "0" "3" "00"); reflexivity. Defined.

End Spelling.

(** ** How the code is cut into cells does not matter *)

Module Cells.

Definition code_cell (text : string) : cell := {| cell_type := "code"; source := text |}.

Lemma full_code_app (l1 l2 : list cell) :
  full_code {| cells := (l1 ++ l2)%list |}
  = full_code {| cells := l1 |} ++ full_code {| cells := l2 |}.
Proof.
  unfold full_code. cbn [cells]. rewrite fold_left_app.
  rewrite (Loader.fold_code l2 (fold_left _ l1 "")), (Loader.fold_code l2 "").
  reflexivity.
Qed.

Lemma full_code_cons (c : cell) (l : list cell) :
  full_code {| cells := c :: l |}
  = (if String.eqb (cell_type c) "code" then source c ++ nl else "")
    ++ full_code {| cells := l |}.
Proof.
  change (c :: l) with ([c] ++ l)%list. rewrite full_code_app. f_equal.
Qed.

(** The program depends only on the text of the code cells, in order:
    a code cell cut in two at a line break gives the same program as the
    whole cell, and a cell of another type adds nothing, wherever it
    stands.  Two notebooks with the same program are executed alike. *)
Theorem cell_boundaries_irrelevant (pre post : list cell) (a b : string) (c : cell) :
  full_code {| cells := (pre ++ code_cell (a ++ nl ++ b) :: post)%list |}
  = full_code {| cells := (pre ++ code_cell a :: code_cell b :: post)%list |}
  /\ (cell_type c <> "code" ->
      full_code {| cells := (pre ++ c :: post)%list |}
      = full_code {| cells := (pre ++ post)%list |})
  /\ forall w1 w2 path nb1 nb2,
       read_notebook w1 path = ReadOk nb1 -> read_notebook w2 path = ReadOk nb2 ->
       full_code nb1 = full_code nb2 ->
       sys_executable w1 = sys_executable w2 ->
       (forall argv t, subprocess_run w1 argv t = subprocess_run w2 argv t) ->
       execute_notebook w1 path = execute_notebook w2 path.
Proof.
  split; [|split].
  - rewrite !full_code_app, !full_code_cons. cbn [code_cell cell_type source String.eqb Ascii.eqb Bool.eqb].
    cbv iota. now rewrite !StrFacts.append_assoc.
  - intros T. rewrite !full_code_app, full_code_cons.
    apply String.eqb_neq in T. now rewrite T.
  - intros w1 w2 path nb1 nb2 R1 R2 E X S. unfold execute_notebook.
    now rewrite R1, R2, E, X, S.
Qed.

Lemma cell_boundaries_irrelevant_witness :
  full_code {| cells := [ {| cell_type := "markdown"; source := "# Run" |};
                          code_cell "x = 1" ] |}
  = full_code {| cells := [ code_cell "x = 1" ] |}.
Proof.
  apply (proj1 (proj2 (cell_boundaries_irrelevant [] [code_cell "x = 1"] "" ""
                         {| cell_type := "markdown"; source := "# Run" |}))).
  discriminate.
Defined.

End Cells.

(** ** The exact bounds of full marks and of no marks *)

Module Bounds.

Import Binary64 Rounding Closer.
Local Open Scope float_scope.

(** The least and the greatest value with the score 10.0, and the
    floats next to them on the outside. *)
Definition FULL_LOW : float := 0.27018254115.
Definition FULL_HIGH : float := 0.33052345884999995.
Definition BELOW_FULL_LOW : float := 0.27018254114999996.
Definition ABOVE_FULL_HIGH : float := 0.33052345885.

(** The greatest value below the optimum and the least value above it
    with the score 0.0, and the floats next to them on the inside. *)
Definition ZERO_LOW : float := 0.00013515885000001113.
Definition ZERO_HIGH : float := 0.60057084115.
Definition ABOVE_ZERO_LOW : float := 0.00013515885000001115.
Definition BELOW_ZERO_HIGH : float := 0.6005708411499999.

(** Between a float and the one with the next mantissa there is no
    other. *)
Lemma adjacent (lo hi x : float) (m : positive) (e : Z) :
  Prim2SF lo = S754_finite false m e ->
  Prim2SF hi = S754_finite false (Pos.succ m) e ->
  nonneg (Prim2SF x) ->
  (x <=? lo) = true \/ (hi <=? x) = true.
Proof.
  intros L H N.
  assert (nonneg (Prim2SF lo)) as NL by (rewrite L; reflexivity).
  assert (nonneg (Prim2SF hi)) as NH by (rewrite H; reflexivity).
  destruct (valid_finite lo false m e L) as [CL _].
  destruct (valid_finite hi false (Pos.succ m) e H) as [CH _].
  rewrite (leb_nle x lo N NL), (leb_nle hi x NH N), L, H.
  destruct (Prim2SF x) as [s|s| |s mx ex] eqn:X; cbn [nonneg] in N; try contradiction.
  - left. reflexivity.
  - subst s. right. reflexivity.
  - subst s. destruct (valid_finite x false mx ex X) as [CX _]. cbn [nle].
    destruct (Z.compare_spec ex e) as [E|E|E].
    + subst ex. unfold dle. rewrite !Z.min_id, !Z.sub_diag, Z.pow_0_r, !Z.mul_1_r. lia.
    + left. exact (proj1 (canonical_order mx ex m e CX CL E)).
    + right. exact (proj1 (canonical_order (Pos.succ m) e mx ex CH CX E)).
Qed.

Lemma score_monotone_below (v1 v2 : float) :
  (0 <=? v1) = true -> (v1 <=? v2) = true -> (v2 <=? OPTIMAL_CD) = true ->
  (score_of v1 <=? score_of v2) = true.
Proof.
  intros Z H B.
  pose proof (leb_nonneg _ _ zero_nonneg Z) as N1. pose proof (leb_nonneg _ _ N1 H) as N2.
  unfold score_of. apply score_antitone; [now apply error_not_negative|].
  now apply error_antitone_below.
Qed.

Lemma score_antitone_above (v1 v2 : float) :
  (OPTIMAL_CD <=? v1) = true -> (v1 <=? v2) = true ->
  (score_of v2 <=? score_of v1) = true.
Proof.
  intros B H.
  assert (nonneg (Prim2SF OPTIMAL_CD)) as N0 by (rewrite ValueClass.optimum_bits; reflexivity).
  pose proof (leb_nonneg _ _ N0 B) as N1.
  unfold score_of. apply score_antitone; [now apply error_not_negative|].
  now apply error_monotone_above.
Qed.

(** A score that is not below 10.0 is 10.0, and one that is not above
    0.0 is 0.0. *)
Lemma score_top (v : float) : (10.0 <=? score_of v) = true -> score_of v = 10.0.
Proof.
  unfold score_of. destruct (rounded_score (relative_error v)) as (N & R & ->). intros H.
  destruct (Z.eq_dec N 1000) as [->|Ne]; [reflexivity|].
  pose proof (two_decimal_monotone N 999 ltac:(lia) ltac:(lia) ltac:(lia)) as M.
  pose proof (leb_trans 10.0 _ _ eq_refl H M) as K.
  vm_compute in K. discriminate K.
Qed.

Lemma score_bottom (v : float) : (score_of v <=? 0.0) = true -> score_of v = 0.0.
Proof.
  unfold score_of. destruct (rounded_score (relative_error v)) as (N & R & ->). intros H.
  destruct (Z.eq_dec N 0) as [->|Ne]; [reflexivity|].
  pose proof (two_decimal_monotone 1 N ltac:(lia) ltac:(lia) ltac:(lia)) as M.
  pose proof (leb_trans _ _ _ (two_decimal_nonneg 1 ltac:(lia)) M H) as K.
  vm_compute in K. discriminate K.
Qed.

Lemma either_side (v : float) :
  nonneg (Prim2SF v) -> (v <=? OPTIMAL_CD) = true \/ (OPTIMAL_CD <=? v) = true.
Proof.
  intros N.
  destruct (ValueClass.leb_or_ltb v OPTIMAL_CD (nonneg_not_nan _ N) ltac:(discriminate))
    as [B|A]; [left; exact B | right; now apply ltb_leb].
Qed.

(** A value that is not negative has the score 10.0 exactly when it
    lies between [FULL_LOW] and [FULL_HIGH]. *)
Theorem full_marks_exactly (v : float) :
  (0 <=? v) = true ->
  (score_of v = 10.0 <-> (FULL_LOW <=? v) = true /\ (v <=? FULL_HIGH) = true).
Proof.
  intros Z. pose proof (leb_nonneg _ _ zero_nonneg Z) as N.
  split.
  - intros S. split.
    + destruct (adjacent BELOW_FULL_LOW FULL_LOW v 4867175966580614 (-54)
                  ltac:(vm_compute; reflexivity) ltac:(vm_compute; reflexivity) N) as [A|A];
        [|exact A].
      pose proof (score_monotone_below v BELOW_FULL_LOW Z A ltac:(vm_compute; reflexivity)) as K.
      rewrite S in K. vm_compute in K. discriminate K.
    + destruct (adjacent FULL_HIGH ABOVE_FULL_HIGH v 5954181304456269 (-54)
                  ltac:(vm_compute; reflexivity) ltac:(vm_compute; reflexivity) N) as [A|A];
        [exact A|].
      pose proof (score_antitone_above ABOVE_FULL_HIGH v ltac:(vm_compute; reflexivity) A) as K.
      rewrite S in K. vm_compute in K. discriminate K.
  - intros [L U]. apply score_top.
    destruct (either_side v N) as [B|B].
    + pose proof (score_monotone_below FULL_LOW v ltac:(vm_compute; reflexivity) L B) as K.
      replace (score_of FULL_LOW) with 10.0 in K by (vm_compute; reflexivity). exact K.
    + pose proof (score_antitone_above v FULL_HIGH B U) as K.
      replace (score_of FULL_HIGH) with 10.0 in K by (vm_compute; reflexivity). exact K.
Qed.

Lemma full_marks_exactly_witness :
  score_of 0.3 = 10.0 <-> (FULL_LOW <=? 0.3) = true /\ (0.3 <=? FULL_HIGH) = true.
Proof. apply (full_marks_exactly 0.3). vm_compute. reflexivity. Defined.

Lemma no_marks_outside (v : float) :
  (0 <=? v) = true -> (v <=? ZERO_LOW) = true \/ (ZERO_HIGH <=? v) = true ->
  score_of v = 0.0.
Proof.
  intros Z [L|U]; apply score_bottom.
  - pose proof (score_monotone_below v ZERO_LOW Z L ltac:(vm_compute; reflexivity)) as K.
    replace (score_of ZERO_LOW) with 0.0 in K by (vm_compute; reflexivity). exact K.
  - pose proof (score_antitone_above ZERO_HIGH v ltac:(vm_compute; reflexivity) U) as K.
    replace (score_of ZERO_HIGH) with 0.0 in K by (vm_compute; reflexivity). exact K.
Qed.

(** A value that is not negative has the score 0.0 exactly when it is
    at most [ZERO_LOW] or at least [ZERO_HIGH]. *)
Theorem no_marks_exactly (v : float) :
  (0 <=? v) = true ->
  (score_of v = 0.0 <-> (v <=? ZERO_LOW) = true \/ (ZERO_HIGH <=? v) = true).
Proof.
  intros Z. pose proof (leb_nonneg _ _ zero_nonneg Z) as N.
  split; [|now apply no_marks_outside].
  intros S.
  destruct (adjacent ZERO_LOW ABOVE_ZERO_LOW v 4986481430494207 (-65)
              ltac:(vm_compute; reflexivity) ltac:(vm_compute; reflexivity) N) as [A|A];
    [left; exact A|].
  destruct (adjacent BELOW_ZERO_HIGH ZERO_HIGH v 5409461232825450 (-53)
              ltac:(vm_compute; reflexivity) ltac:(vm_compute; reflexivity) N) as [B|B];
    [|right; exact B].
  exfalso. destruct (either_side v N) as [C|C].
  - pose proof (score_monotone_below ABOVE_ZERO_LOW v ltac:(vm_compute; reflexivity) A C) as K.
    rewrite S in K. vm_compute in K. discriminate K.
  - pose proof (score_antitone_above v BELOW_ZERO_HIGH C B) as K.
    rewrite S in K. vm_compute in K. discriminate K.
Qed.

Lemma no_marks_exactly_witness :
  score_of 0.7 = 0.0 <-> (0.7 <=? ZERO_LOW) = true \/ (ZERO_HIGH <=? 0.7) = true.
Proof. apply (no_marks_exactly 0.7). vm_compute. reflexivity. Defined.

(** *** What a score above zero stands for *)

Lemma graded_value_nonneg (output : string) (m : Re.match_object) (v : float) :
  cd_search output = Some m -> Py.float_of_str (group m) = Some v -> (0 <=? v) = true.
Proof.
  intros S F. apply ValueClass.zero_leb_signed.
  rewrite CdFacts.cd_search_first_token in S.
  destruct (CdFacts.first_token output) as [[tok rest]|] eqn:T; [|discriminate].
  injection S as <-. cbn [group CdFacts.as_match Re.group1 fst] in F.
  apply CdFacts.first_token_split in T as (pre & _ & T).
  apply CdFacts.token_at_split in T as (lbl & ws & _ & _ & _ & N & A & _).
  destruct (ValueClass.float_of_token_nearest tok v N A F) as (p & q & ->).
  apply ValueClass.nearest_signed.
Qed.

(** Either [main] reports the integer 0, or the run went all the way to
    a graded value. *)
Lemma verdict_cases (w : world) :
  fst (verdict w) = Py.Int 0
  \/ exists nb out err m v,
       Executor.loaded w NOTEBOOK_PATH nb
       /\ Executor.run_of w nb = Completed 0 out err
       /\ cd_search out = Some m /\ Py.float_of_str (group m) = Some v
       /\ verdict w = (Py.Float (score_of v), feedback_of v).
Proof.
  unfold verdict, execute_notebook, Executor.loaded, Executor.run_of.
  destruct (read_notebook w NOTEBOOK_PATH) as [nb|cause] eqn:R; [|left; reflexivity].
  cbv zeta. destruct (Str.is_empty (Str.strip (full_code nb))) eqn:C; [left; reflexivity|].
  destruct (subprocess_run w _ 240) as [rc out err| |cause] eqn:X; try (left; reflexivity).
  destruct (rc =? 0)%Z eqn:Z0; [|left; reflexivity].
  apply Z.eqb_eq in Z0. subst rc.
  cbn [negb truthy]. unfold grade_result.
  destruct (cd_search out) as [m|] eqn:S; [|left; reflexivity].
  destruct (Py.float_of_str (group m)) as [v|] eqn:F; [|left; reflexivity].
  right. exists nb, out, err, m, v. repeat split; assumption.
Qed.

(** A score other than zero is earned: [main] reports one only when the
    notebook was read and had code, the run ended with exit code zero,
    and the first label of its output is followed by a number strictly
    between [ZERO_LOW] and [ZERO_HIGH]; the score is then the one of that
    number, and lies between 0.01 and 10.0. *)
Theorem score_above_zero_earned (w : world) :
  fst (verdict w) <> Py.Int 0 -> fst (verdict w) <> Py.Float 0.0 ->
  exists nb out err m v,
    Executor.loaded w NOTEBOOK_PATH nb
    /\ Executor.run_of w nb = Completed 0 out err
    /\ cd_search out = Some m /\ Py.float_of_str (group m) = Some v
    /\ (ZERO_LOW <? v) = true /\ (v <? ZERO_HIGH) = true
    /\ fst (verdict w) = Py.Float (score_of v)
    /\ (0.01 <=? score_of v) = true /\ (score_of v <=? 10.0) = true.
Proof.
  intros Hi Hf.
  destruct (verdict_cases w) as [E|(nb & out & err & m & v & L & X & S & F & V)];
    [contradiction|].
  rewrite V in Hf |- *. cbn [fst] in Hf |- *.
  exists nb, out, err, m, v.
  pose proof (graded_value_nonneg out m v S F) as Z.
  pose proof (leb_nonneg _ _ zero_nonneg Z) as N.
  assert (score_of v <> 0.0) as NZ by congruence.
  refine (conj L (conj X (conj S (conj F (conj _ (conj _ (conj eq_refl (conj _ _)))))))).
  - destruct (ValueClass.leb_or_ltb v ZERO_LOW (nonneg_not_nan _ N) ltac:(discriminate))
      as [A|A]; [|exact A].
    exfalso. apply NZ, no_marks_outside; auto.
  - destruct (ValueClass.leb_or_ltb ZERO_HIGH v ltac:(discriminate) (nonneg_not_nan _ N))
      as [A|A]; [|exact A].
    exfalso. apply NZ, no_marks_outside; auto.
  - revert NZ. unfold score_of.
    destruct (rounded_score (relative_error v)) as (K & R & ->). intros NZ.
    destruct (Z.eq_dec K 0) as [->|Ne]; [exfalso; apply NZ; reflexivity|].
    apply (leb_trans 0.01 (Scorer.two_decimal 1)); [reflexivity | vm_compute; reflexivity |].
    apply two_decimal_monotone; lia.
  - unfold score_of. destruct (rounded_score (relative_error v)) as (K & R & ->).
    change 10.0 with (Scorer.two_decimal 1000). apply two_decimal_monotone; lia.
Qed.

(** A world in which the notebook prints a value half as far again from
    zero as the optimum. *)
Definition grading_world : world :=
  {| read_notebook := fun _ => ReadOk Executor.sample_notebook;
     sys_executable := "/usr/bin/python3";
     subprocess_run := fun _ _ => Completed 0 (Scenarios.printed "0.450530") "" |}.

Lemma score_above_zero_earned_witness :
  exists nb out err m v,
    Executor.loaded grading_world NOTEBOOK_PATH nb
    /\ Executor.run_of grading_world nb = Completed 0 out err
    /\ cd_search out = Some m /\ Py.float_of_str (group m) = Some v
    /\ (ZERO_LOW <? v) = true /\ (v <? ZERO_HIGH) = true
    /\ fst (verdict grading_world) = Py.Float (score_of v)
    /\ (0.01 <=? score_of v) = true /\ (score_of v <=? 10.0) = true.
Proof.
  apply (score_above_zero_earned grading_world).
  - vm_compute. discriminate.
  - intros E.
    apply (f_equal (fun n => match n with Py.Float f => Prim2SF f | Py.Int _ => S754_nan end))
      in E.
    vm_compute in E. discriminate E.
Defined.

End Bounds.
